(** * Animated caret overlay: a shallow embedding of the effect plugins

    The development follows the TypeScript sources:
    - [src/cursor-effect.ts]: the abstract class [CursorEffectPlugin]
      (lifecycle, geometry sampling, scroll reconciliation, tick loop);
    - the comet effect [CometCursorPlugin] built on that class;
    - the blink effect [BlinkCursorPlugin] (second half of
      [src/comet-cursor.ts]);
    - the older stand-alone comet plugin (first half of
      [src/comet-cursor.ts]).

    Modelling conventions.
    - A JavaScript [number] is an exact rational ([Q]); rounding of
      IEEE doubles is not modelled.  Where the code compares numbers the
      model uses the boolean comparisons of module [JS]; where a statement
      needs arithmetic it is stated up to [Qeq] ([==]).
    - [Date.now()] and animation-frame handles are integers ([Z]).
    - [Math.hypot] yields a square root, which is not rational; the two
      uses in the code ([hypot > r] and [Math.ceil(hypot)]) are decided
      exactly on the squares.
    - The host (editor view, DOM, window) is the record [World]; every
      method is a function on [Sys X], the pair of the host and of one plugin
      instance whose effect-specific fields have type [X]. *)

From Stdlib Require Import ZArith QArith Qabs Qround List String Bool Lia Lqa.
Import ListNotations.
Open Scope Q_scope.

(** ** JavaScript numbers *)

Module JS.

(** [a < b] *)
Definition ltb (a b : Q) : bool :=
  match a ?= b with Lt => true | _ => false end.

(** [a > b] *)
Definition gtb (a b : Q) : bool := ltb b a.

(** [a <= b] *)
Definition leb (a b : Q) : bool := Qle_bool a b.

(** truthiness of a number: everything but [0] (there is no [NaN] here) *)
Definition truthy (a : Q) : bool := negb (Qeq_bool a 0).

(** [a || d] on numbers *)
Definition or_else (a d : Q) : Q := if truthy a then a else d.

(** [Math.abs] *)
Definition abs (a : Q) : Q := Qabs a.

(** [Math.max(1, Math.floor(x))], an integer *)
Definition max1_floor (x : Q) : Z := Z.max 1 (Qfloor x).

(** [Math.hypot(dx, dy) > r] *)
Definition hypot_gtb (dx dy r : Q) : bool :=
  if ltb r 0 then true else ltb (r * r) (dx * dx + dy * dy).

(** [Math.ceil(Math.hypot(dx, dy))] *)
Definition ceil_hypot (dx dy : Q) : Z :=
  Z.sqrt_up (Qceiling (dx * dx + dy * dy)).

(** [a % b] on integers: the sign follows the dividend *)
Definition rem (a b : Z) : Z := Z.rem a b.

End JS.

(** ** The host: DOM elements, window and editor view *)

(** A CSS length as the code writes it: ["100%"] or [`${v}px`]. *)
Inductive CssLength : Type :=
| Percent (p : Q)
| Px (v : Q).

(** The canvas element created by [enable].  The style entries that are
    written once and never again ([position], [top], [left],
    [pointerEvents], [zIndex]) are left out. *)
Record Canvas : Type := mkCanvas {
  canvas_id : nat;
  className : string;
  width : Z;
  height : Z;
  style_width : CssLength;
  style_height : CssLength
}.

(** [canvas.className = n] *)
Definition set_className (n : string) (cv : Canvas) : Canvas :=
  mkCanvas (canvas_id cv) n (width cv) (height cv)
           (style_width cv) (style_height cv).

(** Calls issued on the 2D context, each with the context state it was
    drawn with. *)
Inductive DrawCall : Type :=
| ClearRect (x y w h : Q)
| FillRect (alpha : Q) (style : string) (x y w h : Q).

(** The arguments of [setTransform(a, b, c, d, e, f)]. *)
Record Transform : Type := mkTransform {
  ta : Q; tb : Q; tc : Q; td : Q; te : Q; tf : Q
}.

Definition identity_transform : Transform := mkTransform 1 0 0 1 0 0.

Record Ctx : Type := mkCtx {
  transform : Transform;
  globalAlpha : Q;
  fillStyle : string;
  calls : list DrawCall
}.

(** [canvas.getContext("2d")] on a fresh canvas. *)
Definition fresh_ctx : Ctx := mkCtx identity_transform 1 "#000000" [].

(** Assigning [canvas.width] or [canvas.height] resets the context state
    (HTML canvas semantics); [setTransform] then installs the scale. *)
Definition ctx_reset (c : Ctx) : Ctx :=
  mkCtx identity_transform 1 "#000000" (calls c).

Definition setTransform (t : Transform) (c : Ctx) : Ctx :=
  mkCtx t (globalAlpha c) (fillStyle c) (calls c).

Definition set_globalAlpha (a : Q) (c : Ctx) : Ctx :=
  mkCtx (transform c) a (fillStyle c) (calls c).

Definition set_fillStyle (s : string) (c : Ctx) : Ctx :=
  mkCtx (transform c) (globalAlpha c) s (calls c).

Definition clearRect (x y w h : Q) (c : Ctx) : Ctx :=
  mkCtx (transform c) (globalAlpha c) (fillStyle c)
        (calls c ++ [ClearRect x y w h]).

Definition fillRect (x y w h : Q) (c : Ctx) : Ctx :=
  mkCtx (transform c) (globalAlpha c) (fillStyle c)
        (calls c ++ [FillRect (globalAlpha c) (fillStyle c) x y w h]).

(** [view.dom.getBoundingClientRect()] *)
Record DOMRect : Type := mkDOMRect {
  r_left : Q; r_top : Q; r_width : Q; r_height : Q
}.

(** The result of [view.coordsAtPos(head)] when it is not [null]. *)
Record CaretPos : Type := mkCaretPos {
  pos_left : Q; pos_top : Q; pos_bottom : Q
}.

Record World : Type := mkWorld {
  now : Z;                          (* Date.now() *)
  devicePixelRatio : Q;             (* window.devicePixelRatio *)
  view_hasFocus : bool;             (* view.hasFocus *)
  view_rect : DOMRect;              (* view.dom.getBoundingClientRect() *)
  view_coords : option CaretPos;    (* view.coordsAtPos(selection head) *)
  scrollTop : Q;                    (* view.scrollDOM.scrollTop *)
  scrollLeft : Q;                   (* view.scrollDOM.scrollLeft *)
  scroll_listening : bool;          (* this.onScroll registered on scrollDOM *)
  dom_classList : list string;      (* view.dom.classList *)
  dom_position : string;            (* view.dom.style.position *)
  dom_canvases : list nat;          (* canvas children of view.dom, by id *)
  next_element : nat;               (* document.createElement *)
  raf_next : positive;              (* next handle of requestAnimationFrame *)
  raf_pending : list Z;             (* frames requested and not yet run *)
  measure_requests : nat            (* entries queued by view.requestMeasure *)
}.

(** [classList.add] and [classList.remove]: a token list without
    repetition. *)
Definition class_mem (c : string) (l : list string) : bool :=
  existsb (String.eqb c) l.

Definition class_add (c : string) (l : list string) : list string :=
  if class_mem c l then l else l ++ [c].

Definition class_remove (c : string) (l : list string) : list string :=
  filter (fun d => negb (String.eqb c d)) l.

Definition w_class_add (c : string) (w : World) : World :=
  mkWorld (now w) (devicePixelRatio w) (view_hasFocus w) (view_rect w)
          (view_coords w) (scrollTop w) (scrollLeft w) (scroll_listening w)
          (class_add c (dom_classList w)) (dom_position w) (dom_canvases w)
          (next_element w) (raf_next w) (raf_pending w) (measure_requests w).

Definition w_class_remove (c : string) (w : World) : World :=
  mkWorld (now w) (devicePixelRatio w) (view_hasFocus w) (view_rect w)
          (view_coords w) (scrollTop w) (scrollLeft w) (scroll_listening w)
          (class_remove c (dom_classList w)) (dom_position w) (dom_canvases w)
          (next_element w) (raf_next w) (raf_pending w) (measure_requests w).

(** [if (!view.dom.style.position) view.dom.style.position = "relative"] *)
Definition w_default_position (w : World) : World :=
  mkWorld (now w) (devicePixelRatio w) (view_hasFocus w) (view_rect w)
          (view_coords w) (scrollTop w) (scrollLeft w) (scroll_listening w)
          (dom_classList w)
          (if String.eqb (dom_position w) EmptyString then "relative"%string
           else dom_position w)
          (dom_canvases w)
          (next_element w) (raf_next w) (raf_pending w) (measure_requests w).

(** [document.createElement("canvas")] followed by
    [view.dom.appendChild(canvas)]: the element gets the next free id. *)
Definition w_append_canvas (w : World) : World :=
  mkWorld (now w) (devicePixelRatio w) (view_hasFocus w) (view_rect w)
          (view_coords w) (scrollTop w) (scrollLeft w) (scroll_listening w)
          (dom_classList w) (dom_position w)
          (dom_canvases w ++ [next_element w])
          (S (next_element w)) (raf_next w) (raf_pending w)
          (measure_requests w).

(** [canvas.remove()] *)
Definition w_remove_canvas (id : nat) (w : World) : World :=
  mkWorld (now w) (devicePixelRatio w) (view_hasFocus w) (view_rect w)
          (view_coords w) (scrollTop w) (scrollLeft w) (scroll_listening w)
          (dom_classList w) (dom_position w)
          (filter (fun j => negb (Nat.eqb id j)) (dom_canvases w))
          (next_element w) (raf_next w) (raf_pending w) (measure_requests w).

(** [scrollDOM.addEventListener] / [removeEventListener] of [this.onScroll] *)
Definition w_set_listening (b : bool) (w : World) : World :=
  mkWorld (now w) (devicePixelRatio w) (view_hasFocus w) (view_rect w)
          (view_coords w) (scrollTop w) (scrollLeft w) b
          (dom_classList w) (dom_position w) (dom_canvases w)
          (next_element w) (raf_next w) (raf_pending w) (measure_requests w).

(** [requestAnimationFrame(this.loop)]: the handle returned is
    [Z.pos (raf_next w)], never zero. *)
Definition w_request_frame (w : World) : World :=
  mkWorld (now w) (devicePixelRatio w) (view_hasFocus w) (view_rect w)
          (view_coords w) (scrollTop w) (scrollLeft w) (scroll_listening w)
          (dom_classList w) (dom_position w) (dom_canvases w)
          (next_element w) (Pos.succ (raf_next w))
          (raf_pending w ++ [Z.pos (raf_next w)]) (measure_requests w).

(** [cancelAnimationFrame(id)] *)
Definition w_cancel_frame (id : Z) (w : World) : World :=
  mkWorld (now w) (devicePixelRatio w) (view_hasFocus w) (view_rect w)
          (view_coords w) (scrollTop w) (scrollLeft w) (scroll_listening w)
          (dom_classList w) (dom_position w) (dom_canvases w)
          (next_element w) (raf_next w)
          (filter (fun j => negb (Z.eqb id j)) (raf_pending w))
          (measure_requests w).

Definition w_set_raf_pending (l : list Z) (w : World) : World :=
  mkWorld (now w) (devicePixelRatio w) (view_hasFocus w) (view_rect w)
          (view_coords w) (scrollTop w) (scrollLeft w) (scroll_listening w)
          (dom_classList w) (dom_position w) (dom_canvases w)
          (next_element w) (raf_next w) l (measure_requests w).

(** [view.requestMeasure({read, write})] queues one entry; the host later
    runs it. *)
Definition w_set_measure_requests (n : nat) (w : World) : World :=
  mkWorld (now w) (devicePixelRatio w) (view_hasFocus w) (view_rect w)
          (view_coords w) (scrollTop w) (scrollLeft w) (scroll_listening w)
          (dom_classList w) (dom_position w) (dom_canvases w)
          (next_element w) (raf_next w) (raf_pending w) n.

(** The host scrolls its scroll container. *)
Definition w_scroll_to (top left : Q) (w : World) : World :=
  mkWorld (now w) (devicePixelRatio w) (view_hasFocus w) (view_rect w)
          (view_coords w) top left (scroll_listening w)
          (dom_classList w) (dom_position w) (dom_canvases w)
          (next_element w) (raf_next w) (raf_pending w) (measure_requests w).

(** The clock advances. *)
Definition w_set_now (t : Z) (w : World) : World :=
  mkWorld t (devicePixelRatio w) (view_hasFocus w) (view_rect w)
          (view_coords w) (scrollTop w) (scrollLeft w) (scroll_listening w)
          (dom_classList w) (dom_position w) (dom_canvases w)
          (next_element w) (raf_next w) (raf_pending w) (measure_requests w).

(** The host changes what a geometry read will see. *)
Definition w_set_view (dpr : Q) (focus : bool) (r : DOMRect)
    (c : option CaretPos) (w : World) : World :=
  mkWorld (now w) dpr focus r c (scrollTop w) (scrollLeft w)
          (scroll_listening w)
          (dom_classList w) (dom_position w) (dom_canvases w)
          (next_element w) (raf_next w) (raf_pending w) (measure_requests w).

(** ** The fields of [CursorEffectPlugin] *)

Record Base : Type := mkBase {
  canvas : option Canvas;
  ctx : option Ctx;
  animationFrameId : Z;
  measurePending : bool;
  needsResize : bool;
  initialized : bool;
  hasFocus : bool;
  targetX : Q;
  targetY : Q;
  currentX : Q;
  currentY : Q;
  currentHeight : Q;
  lastScrollTop : Q;
  lastScrollLeft : Q
}.

Definition set_canvas (v : option Canvas) (b : Base) : Base :=
  mkBase v (ctx b) (animationFrameId b) (measurePending b) (needsResize b)
         (initialized b) (hasFocus b) (targetX b) (targetY b) (currentX b)
         (currentY b) (currentHeight b) (lastScrollTop b) (lastScrollLeft b).

Definition set_ctx (v : option Ctx) (b : Base) : Base :=
  mkBase (canvas b) v (animationFrameId b) (measurePending b) (needsResize b)
         (initialized b) (hasFocus b) (targetX b) (targetY b) (currentX b)
         (currentY b) (currentHeight b) (lastScrollTop b) (lastScrollLeft b).

Definition set_animationFrameId (v : Z) (b : Base) : Base :=
  mkBase (canvas b) (ctx b) v (measurePending b) (needsResize b)
         (initialized b) (hasFocus b) (targetX b) (targetY b) (currentX b)
         (currentY b) (currentHeight b) (lastScrollTop b) (lastScrollLeft b).

Definition set_measurePending (v : bool) (b : Base) : Base :=
  mkBase (canvas b) (ctx b) (animationFrameId b) v (needsResize b)
         (initialized b) (hasFocus b) (targetX b) (targetY b) (currentX b)
         (currentY b) (currentHeight b) (lastScrollTop b) (lastScrollLeft b).

Definition set_needsResize (v : bool) (b : Base) : Base :=
  mkBase (canvas b) (ctx b) (animationFrameId b) (measurePending b) v
         (initialized b) (hasFocus b) (targetX b) (targetY b) (currentX b)
         (currentY b) (currentHeight b) (lastScrollTop b) (lastScrollLeft b).

Definition set_initialized (v : bool) (b : Base) : Base :=
  mkBase (canvas b) (ctx b) (animationFrameId b) (measurePending b)
         (needsResize b) v (hasFocus b) (targetX b) (targetY b) (currentX b)
         (currentY b) (currentHeight b) (lastScrollTop b) (lastScrollLeft b).

Definition set_hasFocus (v : bool) (b : Base) : Base :=
  mkBase (canvas b) (ctx b) (animationFrameId b) (measurePending b)
         (needsResize b) (initialized b) v (targetX b) (targetY b)
         (currentX b) (currentY b) (currentHeight b) (lastScrollTop b)
         (lastScrollLeft b).

Definition set_targetX (v : Q) (b : Base) : Base :=
  mkBase (canvas b) (ctx b) (animationFrameId b) (measurePending b)
         (needsResize b) (initialized b) (hasFocus b) v (targetY b)
         (currentX b) (currentY b) (currentHeight b) (lastScrollTop b)
         (lastScrollLeft b).

Definition set_targetY (v : Q) (b : Base) : Base :=
  mkBase (canvas b) (ctx b) (animationFrameId b) (measurePending b)
         (needsResize b) (initialized b) (hasFocus b) (targetX b) v
         (currentX b) (currentY b) (currentHeight b) (lastScrollTop b)
         (lastScrollLeft b).

Definition set_currentX (v : Q) (b : Base) : Base :=
  mkBase (canvas b) (ctx b) (animationFrameId b) (measurePending b)
         (needsResize b) (initialized b) (hasFocus b) (targetX b) (targetY b)
         v (currentY b) (currentHeight b) (lastScrollTop b)
         (lastScrollLeft b).

Definition set_currentY (v : Q) (b : Base) : Base :=
  mkBase (canvas b) (ctx b) (animationFrameId b) (measurePending b)
         (needsResize b) (initialized b) (hasFocus b) (targetX b) (targetY b)
         (currentX b) v (currentHeight b) (lastScrollTop b)
         (lastScrollLeft b).

Definition set_currentHeight (v : Q) (b : Base) : Base :=
  mkBase (canvas b) (ctx b) (animationFrameId b) (measurePending b)
         (needsResize b) (initialized b) (hasFocus b) (targetX b) (targetY b)
         (currentX b) (currentY b) v (lastScrollTop b) (lastScrollLeft b).

Definition set_lastScrollTop (v : Q) (b : Base) : Base :=
  mkBase (canvas b) (ctx b) (animationFrameId b) (measurePending b)
         (needsResize b) (initialized b) (hasFocus b) (targetX b) (targetY b)
         (currentX b) (currentY b) (currentHeight b) v (lastScrollLeft b).

Definition set_lastScrollLeft (v : Q) (b : Base) : Base :=
  mkBase (canvas b) (ctx b) (animationFrameId b) (measurePending b)
         (needsResize b) (initialized b) (hasFocus b) (targetX b) (targetY b)
         (currentX b) (currentY b) (currentHeight b) (lastScrollTop b) v.

(** The host together with one plugin instance; [ext] holds the fields a
    subclass adds and the module-level configuration it reads. *)
Record Sys (X : Type) : Type := mkSys {
  world : World;
  base : Base;
  ext : X
}.

Arguments mkSys {X} _ _ _.
Arguments world {X} _.
Arguments base {X} _.
Arguments ext {X} _.

Definition on_world {X : Type} (f : World -> World) (s : Sys X) : Sys X :=
  mkSys (f (world s)) (base s) (ext s).

Definition on_base {X : Type} (f : Base -> Base) (s : Sys X) : Sys X :=
  mkSys (world s) (f (base s)) (ext s).

Definition on_ext {X : Type} (f : X -> X) (s : Sys X) : Sys X :=
  mkSys (world s) (base s) (f (ext s)).

(** The [ViewUpdate] flags that [update] reads. *)
Record ViewUpdate : Type := mkViewUpdate {
  docChanged : bool;
  selectionSet : bool;
  viewportChanged : bool;
  geometryChanged : bool;
  focusChanged : bool
}.

(** What the read phase of a measure request hands to its write phase. *)
Record Coords : Type := mkCoords { cx : Q; cy : Q; cheight : Q }.

Record MeasureResult : Type := mkMeasure {
  m_rect : option DOMRect;
  m_coords : option Coords;
  m_hasFocus : bool
}.

(** The members a subclass supplies or overrides: [getConfig().enabled],
    [enable], [disable], [onScrollChange], [onViewUpdate], [render]. *)
Class Effect (X : Type) : Type := {
  config_enabled : X -> bool;
  enable : Sys X -> Sys X;
  disable : Sys X -> Sys X;
  onScrollChange : Q -> Q -> Sys X -> Sys X;
  onViewUpdate : ViewUpdate -> Sys X -> Sys X;
  render : Ctx -> Sys X -> Sys X
}.

(** What the host can do to a plugin instance. *)
Inductive Event : Type :=
| Frame                                  (* the next requested frame runs *)
| Scroll (newTop newLeft : Q)            (* the scroll container moves *)
| Update (u : ViewUpdate)                (* an update notification *)
| Measure                                (* a queued measure request runs *)
| Clock (t : Z)                          (* time passes *)
| View (dpr : Q) (focus : bool) (r : DOMRect) (c : option CaretPos)
| Destroy.

(** ** The methods of [CursorEffectPlugin] *)

Definition ENABLED_CLASS : string := "animated-cursor-effect-enabled".

Section CursorEffectPlugin.

Context {X : Type}.

Definition scheduleMeasure (s : Sys X) : Sys X :=
  if measurePending (base s) then s
  else on_world (fun w => w_set_measure_requests (S (measure_requests w)) w)
         (on_base (set_measurePending true) s).

(** The [read] callback of the measure request; [needs] is
    [this.needsResize] when it runs. *)
Definition read (needs : bool) (w : World) : MeasureResult :=
  let focus := view_hasFocus w in
  let rect := if needs || focus then Some (view_rect w) else None in
  let coords :=
    if focus then
      match view_coords w, rect with
      | Some pos, Some r =>
          Some (mkCoords (pos_left pos - r_left r)
                         (pos_top pos - r_top r)
                         (pos_bottom pos - pos_top pos))
      | _, _ => None
      end
    else None in
  mkMeasure rect coords focus.

(** [window.devicePixelRatio || 1] *)
Definition effective_dpr (w : World) : Q :=
  JS.or_else (devicePixelRatio w) 1.

Definition resizeCanvas (rect : DOMRect) (s : Sys X) : Sys X :=
  match canvas (base s) with
  | None => s
  | Some cv =>
      let dpr := effective_dpr (world s) in
      let width' := JS.max1_floor (r_width rect * dpr) in
      let height' := JS.max1_floor (r_height rect * dpr) in
      if ((width cv =? width') && (height cv =? height'))%Z then s
      else
        on_base (fun b =>
          set_ctx
            (option_map
               (fun c => setTransform (mkTransform dpr 0 0 dpr 0 0)
                                      (ctx_reset c))
               (ctx b))
            (set_canvas
               (Some (mkCanvas (canvas_id cv) (className cv) width' height'
                               (Px (r_width rect)) (Px (r_height rect))))
               b)) s
  end.

(** The [write] callback of the measure request. *)
Definition write (m : MeasureResult) (s : Sys X) : Sys X :=
  let s1 :=
    on_base (fun b => set_hasFocus (m_hasFocus m)
                        (set_measurePending false b)) s in
  let s2 :=
    match m_rect m with
    | Some r => on_base (set_needsResize false) (resizeCanvas r s1)
    | None => s1
    end in
  match m_coords m with
  | Some c =>
      let s3 :=
        on_base (fun b => set_currentHeight (cheight c)
                            (set_targetY (cy c) (set_targetX (cx c) b)))
                s2 in
      if initialized (base s3) then s3
      else
        on_base (fun b =>
          set_lastScrollLeft (scrollLeft (world s3))
            (set_lastScrollTop (scrollTop (world s3))
               (set_initialized true
                  (set_currentY (targetY b)
                     (set_currentX (targetX b) b))))) s3
  | None => s2
  end.

(** [CursorEffectPlugin.prototype.enable], which subclasses reach as
    [super.enable()] *)
Definition base_enable (s : Sys X) : Sys X :=
  match canvas (base s) with
  | Some _ => s
  | None =>
      let s1 :=
        on_world (fun w => w_default_position
                             (w_class_add ENABLED_CLASS w)) s in
      let cv := mkCanvas (next_element (world s1)) EmptyString 300 150
                         (Percent 100) (Percent 100) in
      let s2 :=
        on_base (fun b => set_ctx (Some fresh_ctx)
                            (set_canvas (Some cv) b)) s1 in
      let s3 :=
        on_world (fun w => w_set_listening true (w_append_canvas w)) s2 in
      let s4 := scheduleMeasure s3 in
      let handle := Z.pos (raf_next (world s4)) in
      on_base (set_animationFrameId handle) (on_world w_request_frame s4)
  end.

(** [CursorEffectPlugin.prototype.disable] *)
Definition base_disable (s : Sys X) : Sys X :=
  let s1 :=
    if (animationFrameId (base s) =? 0)%Z then s
    else on_base (set_animationFrameId 0)
           (on_world (w_cancel_frame (animationFrameId (base s))) s) in
  let s2 :=
    match canvas (base s1) with
    | Some cv =>
        on_base (fun b => set_ctx None (set_canvas None b))
          (on_world (fun w => w_remove_canvas (canvas_id cv)
                                (w_set_listening false w)) s1)
    | None => s1
    end in
  on_world (w_class_remove ENABLED_CLASS) s2.

Context `{E : Effect X}.

Definition onScroll (s : Sys X) : Sys X :=
  if negb (initialized (base s)) then s
  else
    let top := scrollTop (world s) in
    let left := scrollLeft (world s) in
    let dy := top - lastScrollTop (base s) in
    let dx := left - lastScrollLeft (base s) in
    onScrollChange dx dy
      (on_base (fun b =>
         set_targetY (targetY b - dy)
           (set_targetX (targetX b - dx)
              (set_currentY (currentY b - dy)
                 (set_currentX (currentX b - dx)
                    (set_lastScrollLeft left
                       (set_lastScrollTop top b)))))) s).

(** One tick.  Both branches of the focus test call [render]. *)
Definition loop (s : Sys X) : Sys X :=
  match canvas (base s), ctx (base s) with
  | Some cv, Some c =>
      let dpr := effective_dpr (world s) in
      let w := inject_Z (width cv) / dpr in
      let h := inject_Z (height cv) / dpr in
      let c1 := clearRect 0 0 w h c in
      let s1 := render c1 (on_base (set_ctx (Some c1)) s) in
      let handle := Z.pos (raf_next (world s1)) in
      on_base (set_animationFrameId handle) (on_world w_request_frame s1)
  | _, _ => s
  end.

Definition update (u : ViewUpdate) (s : Sys X) : Sys X :=
  if config_enabled (ext s) then
    let s1 := match canvas (base s) with
              | None => enable s
              | Some _ => s
              end in
    let s2 := if geometryChanged u
              then on_base (set_needsResize true) s1 else s1 in
    let s3 := onViewUpdate u s2 in
    if docChanged u || selectionSet u || viewportChanged u
       || geometryChanged u || focusChanged u
    then scheduleMeasure s3 else s3
  else
    match canvas (base s) with
    | Some _ => disable s
    | None => s
    end.

Definition destroy (s : Sys X) : Sys X := disable s.

(** [new Plugin(view)]: the base constructor runs (calling the virtual
    [enable] when the configuration says so), then the subclass's field
    initialisers set its own fields to [x0]. *)
Definition construct (w : World) (x0 : X) : Sys X :=
  let s0 :=
    mkSys w (mkBase None None 0 false true false true 0 0 0 0 0
                    (scrollTop w) (scrollLeft w)) x0 in
  let s1 := if config_enabled x0 then enable s0 else s0 in
  mkSys (world s1) (base s1) x0.

Definition step (e : Event) (s : Sys X) : Sys X :=
  match e with
  | Frame =>
      match raf_pending (world s) with
      | [] => s
      | _ :: rest => loop (on_world (w_set_raf_pending rest) s)
      end
  | Scroll newTop newLeft =>
      let s1 := on_world (w_scroll_to newTop newLeft) s in
      if scroll_listening (world s1) then onScroll s1 else s1
  | Update u => update u s
  | Measure =>
      match measure_requests (world s) with
      | O => s
      | S n =>
          write (read (needsResize (base s)) (world s))
                (on_world (w_set_measure_requests n) s)
      end
  | Clock t => on_world (w_set_now t) s
  | View dpr focus r c => on_world (w_set_view dpr focus r c) s
  | Destroy => destroy s
  end.

Definition run (es : list Event) (s : Sys X) : Sys X :=
  fold_left (fun acc e => step e acc) es s.

End CursorEffectPlugin.


(** ** The comet effect: [CometCursorPlugin] *)

Module Comet.

Definition COMET_CLASS : string := "comet-cursor-canvas".
Definition COMET_ENABLED_CLASS : string := "comet-cursor-enabled".

Record CometCursorConfig : Type := mkConfig {
  enabled : bool;
  color : string;
  width : Q;
  tailLength : Q;
  smoothness : Q
}.

(** The module-level [config] as the file initialises it. *)
Definition default_config : CometCursorConfig :=
  mkConfig true "#00e5ff" 2 12 (2 # 10).

(** [Partial<CometCursorConfig>] *)
Record PartialConfig : Type := mkPartial {
  p_enabled : option bool;
  p_color : option string;
  p_width : option Q;
  p_tailLength : option Q;
  p_smoothness : option Q
}.

Definition assign {A : Type} (old : A) (new : option A) : A :=
  match new with Some v => v | None => old end.

(** [Object.assign(config, newConfig)] *)
Definition updateCometConfig (n : PartialConfig) (c : CometCursorConfig)
  : CometCursorConfig :=
  mkConfig (assign (enabled c) (p_enabled n))
           (assign (color c) (p_color n))
           (assign (width c) (p_width n))
           (assign (tailLength c) (p_tailLength n))
           (assign (smoothness c) (p_smoothness n)).

Record Point : Type := mkPoint { x : Q; y : Q }.

Record State : Type := mkState {
  config : CometCursorConfig;
  trail : list Point
}.

Definition set_trail (t : list Point) (st : State) : State :=
  mkState (config st) t.

Definition enable (s : Sys State) : Sys State :=
  let s1 := base_enable s in
  match canvas (base s1) with
  | Some cv =>
      on_world (w_class_add COMET_ENABLED_CLASS)
        (on_base (set_canvas (Some (set_className COMET_CLASS cv))) s1)
  | None => s1
  end.

Definition disable (s : Sys State) : Sys State :=
  on_world (w_class_remove COMET_ENABLED_CLASS) (base_disable s).

Definition shift_point (dx dy : Q) (p : Point) : Point :=
  mkPoint (x p - dx) (y p - dy).

Definition onScrollChange (dx dy : Q) (s : Sys State) : Sys State :=
  on_ext (fun st => set_trail (map (shift_point dx dy) (trail st)) st) s.

Definition lerp (start end_ amt : Q) : Q :=
  (1 - amt) * start + amt * end_.

(** The smoothing step on one axis (the first four lines of [render]). *)
Definition advance_axis (k current target : Q) : Q :=
  if JS.ltb (JS.abs (target - current)) (1 # 10) then target
  else lerp current target k.

(** [if (this.trail.length > config.tailLength) this.trail.shift()] after
    the [push] *)
Definition push_bounded (maxLen : Q) (p : Point) (t : list Point)
  : list Point :=
  let t1 := t ++ [p] in
  if JS.gtb (inject_Z (Z.of_nat (List.length t1))) maxLen then tl t1 else t1.

(** [render].  [drawTrail] and [drawHead] only read the plugin's fields and
    write to the canvas (strokes, an arc); they are not modelled, so the
    context is left as [loop] stored it. *)
Definition render (c : Ctx) (s : Sys State) : Sys State :=
  let cfg := config (ext s) in
  let b := base s in
  let currentX' := advance_axis (smoothness cfg) (currentX b) (targetX b) in
  let currentY' := advance_axis (smoothness cfg) (currentY b) (targetY b) in
  let isMoving :=
    JS.hypot_gtb (targetX b - currentX') (targetY b - currentY') (2 # 10) in
  let s1 := on_base (fun b => set_currentY currentY'
                                (set_currentX currentX' b)) s in
  if isMoving then
    on_ext (fun st =>
      set_trail (push_bounded (tailLength cfg)
                              (mkPoint currentX' currentY') (trail st)) st) s1
  else on_ext (set_trail []) s1.

(** [onViewUpdate] is not overridden: the base class's empty body. *)
#[global] Instance effect : Effect State :=
  Build_Effect State (fun st => enabled (config st))
               enable disable onScrollChange (fun _ s => s) render.

(** A fresh instance: [trail = []]. *)
Definition initial (cfg : CometCursorConfig) : State := mkState cfg [].

End Comet.

(** ** The blink effect: [BlinkCursorPlugin] *)

Module Blink.

Definition BLINK_CLASS : string := "blink-cursor-canvas".
Definition BLINK_ENABLED_CLASS : string := "blink-cursor-enabled".

Record BlinkCursorConfig : Type := mkConfig {
  enabled : bool;
  color : string
}.

Definition default_config : BlinkCursorConfig := mkConfig false "#ff0000".

Record PartialConfig : Type := mkPartial {
  p_enabled : option bool;
  p_color : option string
}.

(** [Object.assign(config, newConfig)] *)
Definition updateBlinkConfig (n : PartialConfig) (c : BlinkCursorConfig)
  : BlinkCursorConfig :=
  mkConfig (Comet.assign (enabled c) (p_enabled n))
           (Comet.assign (color c) (p_color n)).

Record Ghost : Type := mkGhost {
  x : Q;
  y : Q;
  height : Q;
  opacity : Q
}.

Record State : Type := mkState {
  config : BlinkCursorConfig;
  lastActivityTime : Z;
  ghosts : list Ghost;
  lastX : Q;
  lastY : Q
}.

(** The read-only field [blinkInterval]. *)
Definition blinkInterval : Z := 530.

Definition set_lastActivityTime (t : Z) (st : State) : State :=
  mkState (config st) t (ghosts st) (lastX st) (lastY st).

Definition set_ghosts (g : list Ghost) (st : State) : State :=
  mkState (config st) (lastActivityTime st) g (lastX st) (lastY st).

Definition set_last (lx ly : Q) (st : State) : State :=
  mkState (config st) (lastActivityTime st) (ghosts st) lx ly.

Definition enable (s : Sys State) : Sys State :=
  let s1 := base_enable s in
  let s2 :=
    match canvas (base s1) with
    | Some cv =>
        on_world (w_class_add BLINK_ENABLED_CLASS)
          (on_base (set_canvas (Some (set_className BLINK_CLASS cv))) s1)
    | None => s1
    end in
  on_ext (fun st =>
    set_last (currentX (base s2)) (currentY (base s2))
      (set_lastActivityTime (now (world s2)) st)) s2.

Definition disable (s : Sys State) : Sys State :=
  on_ext (set_ghosts [])
    (on_world (w_class_remove BLINK_ENABLED_CLASS) (base_disable s)).

Definition shift_ghost (dx dy : Q) (g : Ghost) : Ghost :=
  mkGhost (x g - dx) (y g - dy) (height g) (opacity g).

Definition onScrollChange (dx dy : Q) (s : Sys State) : Sys State :=
  on_ext (fun st =>
    set_last (lastX st - dx) (lastY st - dy)
      (set_ghosts (map (shift_ghost dx dy) (ghosts st)) st)) s.

(** The local [lerp] of [render]. *)
Definition lerp (start end_ factor : Q) : Q :=
  start + (end_ - start) * factor.

(** [for (let i = 1; i <= steps; i++) this.ghosts.push({...})]: [n] counts
    the iterations left, [i] is the loop variable. *)
Fixpoint spawn_loop (n : nat) (i steps : Z) (lx ly dx dy h : Q)
    (gs : list Ghost) : list Ghost :=
  match n with
  | O => gs
  | S n' =>
      let t := inject_Z i / inject_Z steps in
      spawn_loop n' (i + 1)%Z steps lx ly dx dy h
        (gs ++ [mkGhost (lx + dx * t) (ly + dy * t) h (4 # 10)])
  end.

Definition remove_at {A : Type} (i : nat) (l : list A) : list A :=
  firstn i l ++ skipn (S i) l.

Definition replace_at {A : Type} (i : nat) (a : A) (l : list A) : list A :=
  firstn i l ++ a :: skipn (S i) l.

(** [g.opacity -= 0.03] *)
Definition fade (g : Ghost) : Ghost :=
  mkGhost (x g) (y g) (height g) (opacity g - (3 # 100)).

(** [for (let i = this.ghosts.length - 1; i >= 0; i--)]: the call with
    [S i] handles index [i] and goes on downwards.  An index outside the
    array is never met, since the loop starts at the last one. *)
Fixpoint fade_loop (n : nat) (gs : list Ghost) (c : Ctx)
  : list Ghost * Ctx :=
  match n with
  | O => (gs, c)
  | S i =>
      match nth_error gs i with
      | None => fade_loop i gs c
      | Some g =>
          let g' := fade g in
          if JS.leb (opacity g') 0
          then fade_loop i (remove_at i gs) c
          else fade_loop i (replace_at i g' gs)
                 (fillRect (x g') (y g') 4 (height g')
                           (set_globalAlpha (opacity g') c))
      end
  end.

(** The opacity of the main caret computed at the end of [render]. *)
Definition main_opacity (now_ lastActivity : Z) : Q :=
  let timeSinceActivity := (now_ - lastActivity)%Z in
  if (500 <? timeSinceActivity)%Z then
    let phase := JS.rem now_ (blinkInterval * 2) in
    if (blinkInterval <? phase)%Z then 0 else 6 # 10
  else 6 # 10.

(** The part of [render] before the first use of the context: smoothing
    and ghost spawning. *)
Definition render_motion (s : Sys State) : Sys State :=
  let b := base s in
  let st := ext s in
  let currentX' := lerp (currentX b) (targetX b) (25 # 100) in
  let currentY' := lerp (currentY b) (targetY b) (25 # 100) in
  let dx := currentX' - lastX st in
  let dy := currentY' - lastY st in
  let s1 := on_base (fun b => set_currentY currentY'
                                (set_currentX currentX' b)) s in
  if JS.hypot_gtb dx dy 1 then
    let steps := JS.ceil_hypot dx dy in
    on_ext (fun st =>
      set_last currentX' currentY'
        (set_ghosts
           (spawn_loop (Z.to_nat steps) 1 steps (lastX st) (lastY st) dx dy
                       (JS.or_else (currentHeight b) 20) (ghosts st))
           st)) s1
  else s1.

(** The rest of [render]: ghosts fade and are drawn, then the main
    caret. *)
Definition render_draw (c : Ctx) (s : Sys State) : Sys State :=
  let st := ext s in
  let b := base s in
  let c1 := set_fillStyle (color (config st)) c in
  let '(gs, c2) := fade_loop (List.length (ghosts st)) (ghosts st) c1 in
  let opacity_ := main_opacity (now (world s)) (lastActivityTime st) in
  let c3 :=
    if JS.gtb opacity_ 0 then
      set_globalAlpha 1
        (fillRect (currentX b) (currentY b) 4
                  (JS.or_else (currentHeight b) 20)
                  (set_globalAlpha opacity_ c2))
    else c2 in
  on_base (set_ctx (Some c3)) (on_ext (set_ghosts gs) s).

Definition render (c : Ctx) (s : Sys State) : Sys State :=
  render_draw c (render_motion s).

(** [onViewUpdate] passes [this.ctx] to [render].  [update] has called
    [enable] before, so the context is there; without one the call would
    stop with a [TypeError] at the first drawing statement, after the
    smoothing and spawning part. *)
Definition onViewUpdate (u : ViewUpdate) (s : Sys State) : Sys State :=
  if docChanged u || selectionSet u then
    let s1 := on_ext (set_lastActivityTime (now (world s))) s in
    if initialized (base s1) then
      match ctx (base s1) with
      | Some c => render c s1
      | None => render_motion s1
      end
    else s1
  else s.

#[global] Instance effect : Effect State :=
  Build_Effect State (fun st => enabled (config st))
               enable disable onScrollChange onViewUpdate render.

(** A fresh instance, as the field initialisers leave it. *)
Definition initial (cfg : BlinkCursorConfig) : State :=
  mkState cfg 0 [] 0 0.

End Blink.

(** ** The stand-alone comet plugin (first half of [src/comet-cursor.ts])

    This older class does not extend [CursorEffectPlugin]; it has no scroll
    handler and its configuration is a constant field.  Only the part of
    its state that the tick and the write phase compute with is modelled:
    the canvas, the frame handle and the drawing calls are left out. *)

Module LegacyComet.

Definition tailLength : Q := 12.
Definition smoothness : Q := 2 # 10.

Record State : Type := mkState {
  initialized : bool;
  hasFocus : bool;
  targetX : Q;
  targetY : Q;
  currentX : Q;
  currentY : Q;
  currentHeight : Q;
  trail : list Comet.Point
}.

Definition initial : State := mkState false true 0 0 0 0 0 [].

Definition lerp (start end_ amt : Q) : Q :=
  (1 - amt) * start + amt * end_.

(** The coordinate part of the [write] callback. *)
Definition write (focus : bool) (coords : option Coords) (s : State)
  : State :=
  match coords with
  | Some c =>
      if initialized s
      then mkState true focus (cx c) (cy c) (currentX s) (currentY s)
                   (cheight c) (trail s)
      else mkState true focus (cx c) (cy c) (cx c) (cy c)
                   (cheight c) (trail s)
  | None =>
      mkState (initialized s) focus (targetX s) (targetY s)
              (currentX s) (currentY s) (currentHeight s) (trail s)
  end.

Definition loop (s : State) : State :=
  if negb (hasFocus s) || negb (initialized s) then
    mkState (initialized s) (hasFocus s) (targetX s) (targetY s)
            (currentX s) (currentY s) (currentHeight s) []
  else
    let currentX' :=
      if JS.ltb (JS.abs (targetX s - currentX s)) (1 # 10) then targetX s
      else lerp (currentX s) (targetX s) smoothness in
    let currentY' :=
      if JS.ltb (JS.abs (targetY s - currentY s)) (1 # 10) then targetY s
      else lerp (currentY s) (targetY s) smoothness in
    let isMoving :=
      JS.hypot_gtb (targetX s - currentX') (targetY s - currentY')
                   (2 # 10) in
    mkState (initialized s) (hasFocus s) (targetX s) (targetY s)
            currentX' currentY' (currentHeight s)
            (if isMoving
             then Comet.push_bounded tailLength
                    (Comet.mkPoint currentX' currentY') (trail s)
             else []).

End LegacyComet.

(** ** The settings tab ([AnimatedCursorSettingTab])

    The tab reads and writes [plugin.settings].  [display] and its
    handlers use a flag [useTransform] and, for each effect, a section
    with a flag [enabled] and a [color].  The settings object is built by
    [loadSettings] from [DEFAULT_SETTINGS], which has [useTransform] only,
    and the saved data; so a section is there only if the saved data has
    it.  Reading or writing a field of a missing section throws a
    [TypeError], which ends the call where it stands.  The interface is
    the list of controls that [display] has added to the (emptied)
    container, each with the value it is set to.  [saveSettings] only
    persists the settings and is left out. *)

Module SettingTab.

Record EffectSettings : Type := mkEffect {
  enabled : bool;
  color : string
}.

Record Settings : Type := mkSettings {
  useTransform : bool;
  comet : option EffectSettings;
  blink : option EffectSettings
}.

Inductive Control : Type :=
| Toggle (name : string) (value : bool)
| Dropdown (name : string) (options : list string) (value : string)
| ColorPicker (name : string) (value : string).

(** How a call ends: normally, or with a [TypeError]; either way with
    what it has built or assigned so far. *)
Inductive Outcome (A : Type) : Type :=
| Completed (a : A)
| Thrown (a : A).

Arguments Completed {A} a.
Arguments Thrown {A} a.

(** The local [currentEffect] of [display]; [None] when a section that
    is read is missing. *)
Definition currentEffect (st : Settings) : option string :=
  match comet st with
  | None => None
  | Some cm =>
      if enabled cm then Some "comet"%string
      else
        match blink st with
        | None => None
        | Some bl => Some (if enabled bl then "blink" else "none")%string
        end
  end.

Definition display (st : Settings) : Outcome (list Control) :=
  let c0 := [Toggle "Slightly more smoothly" (useTransform st)] in
  match currentEffect st with
  | None => Thrown c0
  | Some cur =>
      let c1 :=
        c0 ++ [Dropdown "Cursor Effect" ["none"; "comet"; "blink"]%string
                        cur] in
      match comet st with
      | None => Thrown c1
      | Some cm =>
          let c2 :=
            c1 ++ (if enabled cm
                   then [ColorPicker "Comet Color" (color cm)] else []) in
          match blink st with
          | None => Thrown c2
          | Some bl =>
              Completed
                (c2 ++ (if enabled bl
                        then [ColorPicker "Blink Cursor Color" (color bl)]
                        else []))
          end
      end
  end.

(** The [onChange] handler of the dropdown, up to the call of
    [saveSettings]; [display] runs again afterwards. *)
Definition onEffectChange (val : string) (st : Settings)
  : Outcome Settings :=
  match comet st with
  | None => Thrown st
  | Some cm =>
      let st1 :=
        mkSettings (useTransform st)
                   (Some (mkEffect (String.eqb val "comet") (color cm)))
                   (blink st) in
      match blink st with
      | None => Thrown st1
      | Some bl =>
          Completed
            (mkSettings (useTransform st1) (comet st1)
                        (Some (mkEffect (String.eqb val "blink")
                                        (color bl))))
      end
  end.

(** The [onChange] handler of the first toggle. *)
Definition onTransformChange (val : bool) (st : Settings) : Settings :=
  mkSettings val (comet st) (blink st).

End SettingTab.

(** ** Patching the cursor layer ([src/main.ts])

    [hookCursorPlugin] and [patchCursorLayer] are of modules outside this
    snapshot.  The result of the hook comes with the event: [Some p] when
    it returns a plugin instance [p] with a value, [None] otherwise.  Of
    the patch only the number of times it was installed is kept. *)

Module Main.

(** What [loadData] returns when there is a data file. *)
Record SavedData : Type := mkData {
  d_useTransform : option bool;
  d_comet : option SettingTab.EffectSettings;
  d_blink : option SettingTab.EffectSettings
}.

Definition DEFAULT_SETTINGS : SettingTab.Settings :=
  SettingTab.mkSettings true None None.

(** [Object.assign({}, DEFAULT_SETTINGS, await this.loadData())];
    [loadData] gives [null] when nothing was saved. *)
Definition loadSettings (data : option SavedData) : SettingTab.Settings :=
  match data with
  | None => DEFAULT_SETTINGS
  | Some d =>
      SettingTab.mkSettings
        (Comet.assign (SettingTab.useTransform DEFAULT_SETTINGS)
                      (d_useTransform d))
        (d_comet d) (d_blink d)
  end.

Record State : Type := mkState {
  alreadyPatched : bool;
  tryPatchRef : bool;            (* the handler is registered *)
  cursorPlugin : option nat;
  patches : nat;                 (* calls of [patchCursorLayer] *)
  offrefs : nat                  (* calls of [workspace.offref] *)
}.

Definition cancelPatchAttempt (s : State) : State :=
  if tryPatchRef s
  then mkState (alreadyPatched s) false (cursorPlugin s) (patches s)
               (S (offrefs s))
  else s.

Definition tryPatch (hook : option nat) (s : State) : State :=
  if alreadyPatched s then cancelPatchAttempt s
  else
    match hook with
    | None => s
    | Some p =>
        cancelPatchAttempt
          (mkState true (tryPatchRef s) (Some p) (S (patches s))
                   (offrefs s))
    end.

(** [onload]: [active] is the hook's result on the active editor, if
    there is an active editor. *)
Definition onload (active : option (option nat)) : State :=
  let s0 := mkState false false None 0 0 in
  match active with
  | Some hook => tryPatch hook s0
  | None => mkState false true None 0 0
  end.

(** The part of [onunload] that concerns the patch attempt. *)
Definition onunload (s : State) : State := cancelPatchAttempt s.

Inductive Event : Type :=
| SelectionChange (hook : option nat)  (* "editor-selection-change" *)
| Unload.

(** The workspace calls the handler only while it is registered. *)
Definition step (e : Event) (s : State) : State :=
  match e with
  | SelectionChange hook => if tryPatchRef s then tryPatch hook s else s
  | Unload => onunload s
  end.

Definition run (es : list Event) (s : State) : State :=
  fold_left (fun acc e => step e acc) es s.

End Main.

(** ** What the comet draws ([drawTrail], [drawHead])

    The two helpers of both comet classes read the plugin's fields and
    issue canvas calls.  The model keeps the calls that depend on the
    state: one stroke per segment of the trail, and the caret rectangle
    with its dot.  The constant settings ([lineCap], [lineJoin], the
    shadow colour) are left out; the stroke colour is kept as the pair of
    the configured colour and the alpha value that [hexToRgba] combines
    (the stand-alone class writes the same colour as a literal). *)

Module CometDraw.

Record Stroke : Type := mkStroke {
  from_x : Q; from_y : Q;       (* moveTo *)
  to_x : Q; to_y : Q;           (* lineTo *)
  lineWidth : Q;
  strokeColor : string;
  strokeAlpha : Q
}.

(** [for (let i = 0; i < this.trail.length - 1; i++)]: [n] counts the
    iterations left, [i] is the loop variable.  Both indices are inside
    the array on every iteration. *)
Fixpoint trail_loop (n i : nat) (color : string) (width : Q)
    (trail : list Comet.Point) : list Stroke :=
  match n with
  | O => []
  | S n' =>
      match nth_error trail i, nth_error trail (S i) with
      | Some p1, Some p2 =>
          let alpha :=
            inject_Z (Z.of_nat i) / inject_Z (Z.of_nat (List.length trail)) in
          mkStroke (Comet.x p1) (Comet.y p1) (Comet.x p2) (Comet.y p2)
                   (width + alpha * 2) color alpha
          :: trail_loop n' (S i) color width trail
      | _, _ => trail_loop n' (S i) color width trail
      end
  end.

Definition drawTrail (color : string) (width : Q)
    (trail : list Comet.Point) : list Stroke :=
  if (List.length trail <? 2)%nat then []
  else trail_loop (List.length trail - 1) 0 color width trail.

(** [Math.max(a, b)] *)
Definition max (a b : Q) : Q := if JS.ltb a b then b else a.

Record Head : Type := mkHead {
  shadowBlur : Q;
  rect_x : Q; rect_y : Q; rect_w : Q; rect_h : Q;   (* fillRect *)
  dot_x : Q; dot_y : Q; dot_r : Q                   (* the full arc *)
}.

Definition drawHead (currentX currentY currentHeight : Q)
    (isMoving : bool) : Head :=
  let height := max 8 (JS.or_else currentHeight 24) in
  mkHead (if isMoving then 10 else 0)
         (currentX - 1) currentY 2 height
         currentX (currentY + height / 2) 2.

(** What [render] draws, from the state it has just computed: the trail
    while moving, and the head. *)
Definition drawn (s : Sys Comet.State) : list Stroke * Head :=
  let b := base s in
  let cfg := Comet.config (ext s) in
  let isMoving :=
    JS.hypot_gtb (targetX b - currentX b) (targetY b - currentY b)
                 (2 # 10) in
  (if isMoving
   then drawTrail (Comet.color cfg) (Comet.width cfg) (Comet.trail (ext s))
   else [],
   drawHead (currentX b) (currentY b) (currentHeight b) isMoving).

End CometDraw.

(** ** Contracts and sample inputs *)

(** The advance contract on one axis: below the 0.1 gap the new value is the
    target itself, otherwise it is the weighted mean with factor [k]. *)
Definition advance_spec (k current target current' : Q) : Prop :=
  (Qabs (target - current) < 1 # 10 /\ current' = target)
  \/ (1 # 10 <= Qabs (target - current)
      /\ current' == current * (1 - k) + target * k).

(** The square of [Math.hypot(targetX - currentX, targetY - currentY)]. *)
Definition distance2 (b : Base) : Q :=
  (targetX b - currentX b) * (targetX b - currentX b)
  + (targetY b - currentY b) * (targetY b - currentY b).

Module Sample.

(** A focused 800 x 600 editor at scroll offset (0, 0), caret at
    (100, 50) with a line height of 20, nothing attached yet. *)
Definition host : World :=
  mkWorld 0 1 true (mkDOMRect 0 0 800 600)
          (Some (mkCaretPos 100 50 70)) 0 0 false [] EmptyString [] 0 1 [] 0.

(** The same editor with the caret outside the rendered viewport. *)
Definition host_offscreen : World :=
  mkWorld 0 1 true (mkDOMRect 0 0 800 600) None 0 0 false [] EmptyString
          [] 0 1 [] 0.

Definition comet : Sys Comet.State :=
  construct host (Comet.initial Comet.default_config).

Definition blink : Sys Blink.State :=
  construct host (Blink.initial (Blink.mkConfig true "#ff0000")).

(** An instance after its first measure request has run. *)
Definition comet_ready : Sys Comet.State := step Measure comet.
Definition blink_ready : Sys Blink.State := step Measure blink.

(** The caret target moves by [d] to the right. *)
Definition move_target {X : Type} (d : Q) (s : Sys X) : Sys X :=
  on_base (fun b => set_targetX (targetX b + d) b) s.

(** Instances in motion: the target jumped 10 to the right and some frames
    ran, so the trail and the ghost buffer are filled. *)
Definition comet_moving : Sys Comet.State :=
  run [Frame; Frame; Frame] (move_target 10 comet_ready).

Definition blink_moving : Sys Blink.State :=
  run [Frame; Frame; Frame] (move_target 10 blink_ready).

(** A session: the first sample arrives, the caret jumps to x = 400, the
    selection change is notified and sampled, and twenty frames run. *)
Definition caret_jump : list Event :=
  [Measure;
   View 1 true (mkDOMRect 0 0 800 600) (Some (mkCaretPos 400 50 70));
   Update (mkViewUpdate false true false false false);
   Measure]
  ++ repeat Frame 20.

(** The host has scrolled to (top 30, left 5); the handler has not run
    yet. *)
Definition scrolled {X : Type} (s : Sys X) : Sys X :=
  on_world (w_scroll_to 30 5) s.

End Sample.

(** ** Predicates used in the statements *)

(** A burst of scroll events, one per pair (top, left) of offsets. *)
Definition scroll_events (ps : list (Q * Q)) : list Event :=
  map (fun p => Scroll (fst p) (snd p)) ps.

(** A ghost stays in the buffer when its opacity is still positive. *)
Definition alive (g : Blink.Ghost) : bool :=
  negb (JS.leb (Blink.opacity g) 0).

(** What holds of every ghost in the buffer at any time. *)
Definition ghost_ok (g : Blink.Ghost) : Prop :=
  0 < Blink.opacity g /\ Blink.opacity g <= 4 # 10.

(** The trail length as the number the code compares with [tailLength]. *)
Definition trail_length (st : Comet.State) : Q :=
  inject_Z (Z.of_nat (List.length (Comet.trail st))).

(** The configuration is [cfg] and the trail respects its bound. *)
Definition trail_ok (cfg : Comet.CometCursorConfig) (st : Comet.State)
  : Prop :=
  Comet.config st = cfg /\ trail_length st <= Comet.tailLength cfg.


(** Where there is a canvas there is a context. *)
Definition ctx_ready {X : Type} (s : Sys X) : Prop :=
  canvas (base s) <> None -> ctx (base s) <> None.

(** ** The lifecycle view of a state *)

(** What the lifecycle of an instance is about: its canvas (by element
    id), whether it holds a context, its frame handle, its pending flag,
    and on the host's side the frames requested, the scroll listener, the
    canvases attached and the measure requests queued. *)
Record Life : Type := mkLife {
  l_canvas : option nat;
  l_ctx : bool;
  l_frame : Z;
  l_measurePending : bool;
  l_raf : list Z;
  l_listening : bool;
  l_canvases : list nat;
  l_requests : nat
}.

Definition life {X : Type} (s : Sys X) : Life :=
  mkLife (option_map canvas_id (canvas (base s)))
         (match ctx (base s) with Some _ => true | None => false end)
         (animationFrameId (base s))
         (measurePending (base s))
         (raf_pending (world s))
         (scroll_listening (world s))
         (dom_canvases (world s))
         (measure_requests (world s)).

(** Enabled: one canvas attached, a context, exactly the one frame of the
    handle requested, the listener attached.  Disabled: none of these.
    Either way one measure request is queued exactly while the pending flag
    is set. *)
Definition lifecycle_ok (v : Life) : Prop :=
  l_requests v = (if l_measurePending v then 1%nat else 0%nat)
  /\ match l_canvas v with
     | Some id =>
         l_ctx v = true /\ l_frame v <> 0%Z /\ l_raf v = [l_frame v]
         /\ l_listening v = true /\ l_canvases v = [id]
     | None =>
         l_ctx v = false /\ l_frame v = 0%Z /\ l_raf v = []
         /\ l_listening v = false /\ l_canvases v = []
     end.

(** A host on which this instance has nothing yet. *)
Definition fresh_host (w : World) : Prop :=
  raf_pending w = [] /\ scroll_listening w = false
  /\ dom_canvases w = [] /\ measure_requests w = 0%nat.

(** An effect whose members leave the lifecycle to the base class: the
    overrides of [enable] and [disable] add nothing to it, and the hooks do
    not touch it. *)
Class LifeNeutral (X : Type) `{E : Effect X} : Prop := {
  neutral_enable : forall s : Sys X, life (enable s) = life (base_enable s);
  neutral_disable :
    forall s : Sys X, life (disable s) = life (base_disable s);
  neutral_scroll :
    forall (dx dy : Q) (s : Sys X), life (onScrollChange dx dy s) = life s;
  neutral_update :
    forall (u : ViewUpdate) (s : Sys X),
      life (onViewUpdate u s) = life s
      /\ needsResize (base (onViewUpdate u s)) = needsResize (base s)
      /\ world (onViewUpdate u s) = world s;
  neutral_render :
    forall (c : Ctx) (s : Sys X),
      ctx (base s) <> None -> life (render c s) = life s
}.

(** [updateCometConfig(n)] and [updateBlinkConfig(n)] as an instance meets
    them: the module-level configuration it reads has changed. *)
Definition comet_configure (n : Comet.PartialConfig) (s : Sys Comet.State)
  : Sys Comet.State :=
  on_ext (fun st => Comet.mkState (Comet.updateCometConfig n (Comet.config st))
                                  (Comet.trail st)) s.

Definition blink_configure (n : Blink.PartialConfig) (s : Sys Blink.State)
  : Sys Blink.State :=
  on_ext (fun st =>
    Blink.mkState (Blink.updateBlinkConfig n (Blink.config st))
                  (Blink.lastActivityTime st) (Blink.ghosts st)
                  (Blink.lastX st) (Blink.lastY st)) s.

(** ** Sessions of the comet effect

    Between the events of the host the module-level configuration can be
    changed at any time through the exported [updateCometConfig]. *)






(** What [resizeCanvas] has done between two states of the plugin for the
    rectangle [r] at pixel ratio [dpr]: the backing store has the scaled
    size; if it had that size before, canvas and context are untouched,
    and otherwise the canvas has the rectangle's CSS size and the context
    is reset and scaled by [dpr]. *)
Definition resized_to (r : DOMRect) (dpr : Q) (before after : Base) : Prop :=
  exists cv1 cv2,
    canvas before = Some cv1 /\ canvas after = Some cv2
    /\ width cv2 = Z.max 1 (Qfloor (r_width r * dpr))
    /\ height cv2 = Z.max 1 (Qfloor (r_height r * dpr))
    /\ canvas_id cv2 = canvas_id cv1
    /\ className cv2 = className cv1
    /\ (width cv1 = width cv2 /\ height cv1 = height cv2
        /\ cv2 = cv1 /\ ctx after = ctx before
        \/ (width cv1 <> width cv2 \/ height cv1 <> height cv2)
           /\ style_width cv2 = Px (r_width r)
           /\ style_height cv2 = Px (r_height r)
           /\ exists c1,
                ctx before = Some c1
                /\ ctx after
                   = Some (setTransform (mkTransform dpr 0 0 dpr 0 0)
                                        (ctx_reset c1))).

(** [c'] lies between [c] and [t], ends included. *)
Definition between (c c' t : Q) : Prop :=
  (c <= c' /\ c' <= t) \/ (t <= c' /\ c' <= c).

(** ** Names for what a blink tick pushes and draws *)

(** The ghost pushed by iteration [i = 1 + j] of the spawning loop. *)
Definition spawned (lx ly dx dy h : Q) (steps : Z) (j : nat)
  : Blink.Ghost :=
  let t := inject_Z (1 + Z.of_nat j) / inject_Z steps in
  Blink.mkGhost (lx + dx * t) (ly + dy * t) h (4 # 10).

(** The rectangle a ghost is drawn with. *)
Definition ghost_call (style : string) (g : Blink.Ghost) : DrawCall :=
  FillRect (Blink.opacity g) style (Blink.x g) (Blink.y g) 4
           (Blink.height g).

(** The square of the distance between two points. *)
Definition dist2 (x1 y1 x2 y2 : Q) : Q :=
  (x1 - x2) * (x1 - x2) + (y1 - y2) * (y1 - y2).

(** Events that are no activity for the blink effect: anything but an
    update notification or the end of the instance. *)
Definition quiet (e : Event) : bool :=
  match e with
  | Update _ | Destroy => false
  | _ => true
  end.

(** The caret and its target are both within 1 of the last spawn point. *)
Definition near_spawn (s : Sys Blink.State) : Prop :=
  dist2 (currentX (base s)) (currentY (base s))
        (Blink.lastX (ext s)) (Blink.lastY (ext s)) <= 1
  /\ dist2 (targetX (base s)) (targetY (base s))
            (Blink.lastX (ext s)) (Blink.lastY (ext s)) <= 1.

(** ** The stand-alone comet beside the class-based one *)

(** What the host does to the stand-alone comet: a frame runs, or the
    write phase of a measure request runs with what was read. *)
Inductive LegacyEvent : Type :=
| LegacyFrame
| LegacyWrite (focus : bool) (coords : option Coords).

Definition legacy_step (e : LegacyEvent) (s : LegacyComet.State)
  : LegacyComet.State :=
  match e with
  | LegacyFrame => LegacyComet.loop s
  | LegacyWrite focus coords => LegacyComet.write focus coords s
  end.

Definition legacy_run (es : list LegacyEvent) (s : LegacyComet.State)
  : LegacyComet.State :=
  fold_left (fun acc e => legacy_step e acc) es s.

(** The two comets hold the same motion state. *)
Definition same_motion (l : LegacyComet.State) (t : Sys Comet.State)
  : Prop :=
  LegacyComet.initialized l = initialized (base t)
  /\ LegacyComet.hasFocus l = hasFocus (base t)
  /\ LegacyComet.targetX l = targetX (base t)
  /\ LegacyComet.targetY l = targetY (base t)
  /\ LegacyComet.currentX l = currentX (base t)
  /\ LegacyComet.currentY l = currentY (base t)
  /\ LegacyComet.currentHeight l = currentHeight (base t)
  /\ LegacyComet.trail l = Comet.trail (ext t).

(** A selection change on an editor where the hook finds nothing. *)
Definition failed_attempt (e : Main.Event) : bool :=
  match e with
  | Main.SelectionChange None => true
  | _ => false
  end.

(** * Properties *)

(** ** Facts about the number operations *)

Module JSFacts.

Lemma ltb_lt (a b : Q) : JS.ltb a b = true <-> a < b.
Proof.
  unfold JS.ltb. rewrite Qlt_alt. destruct (a ?= b); split; congruence.
Qed.

Lemma ltb_ge (a b : Q) : JS.ltb a b = false <-> b <= a.
Proof.
  split; intro H.
  - apply Qnot_lt_le. intro L. apply ltb_lt in L. congruence.
  - destruct (JS.ltb a b) eqn:E; trivial.
    apply ltb_lt in E. exfalso. apply (Qlt_not_le _ _ E H).
Qed.

Lemma leb_le (a b : Q) : JS.leb a b = true <-> a <= b.
Proof. apply Qle_bool_iff. Qed.

Lemma leb_gt (a b : Q) : JS.leb a b = false <-> b < a.
Proof.
  unfold JS.leb. split; intro H.
  - apply Qnot_le_lt. intro L. apply Qle_bool_iff in L. congruence.
  - destruct (Qle_bool a b) eqn:E; trivial.
    apply Qle_bool_iff in E. exfalso. apply (Qlt_not_le _ _ H E).
Qed.

Lemma or_else_nonzero (a d : Q) : ~ d == 0 -> ~ JS.or_else a d == 0.
Proof.
  intros Hd. unfold JS.or_else, JS.truthy.
  destruct (Qeq_bool a 0) eqn:E; simpl; trivial.
  intro H. apply Qeq_bool_iff in H. congruence.
Qed.

Lemma or_else_id (a d : Q) : ~ a == 0 -> JS.or_else a d = a.
Proof.
  intros Ha. unfold JS.or_else, JS.truthy.
  destruct (Qeq_bool a 0) eqn:E; simpl; trivial.
  apply Qeq_bool_iff in E. contradiction.
Qed.

Lemma max1_floor_pos (x : Q) : (1 <= JS.max1_floor x)%Z.
Proof. unfold JS.max1_floor. lia. Qed.

End JSFacts.

(** ** The smoothing step *)

Lemma advance_axis_spec (k current target : Q) :
  advance_spec k current target (Comet.advance_axis k current target).
Proof.
  unfold advance_spec, Comet.advance_axis, JS.abs.
  destruct (JS.ltb (Qabs (target - current)) (1 # 10)) eqn:E.
  - left. apply JSFacts.ltb_lt in E. split; [exact E | reflexivity].
  - right. apply JSFacts.ltb_ge in E. split; [exact E |].
    unfold Comet.lerp. ring.
Qed.

Lemma comet_render_base (c : Ctx) (s : Sys Comet.State) :
  base (Comet.render c s)
  = set_currentY
      (Comet.advance_axis (Comet.smoothness (Comet.config (ext s)))
                          (currentY (base s)) (targetY (base s)))
      (set_currentX
         (Comet.advance_axis (Comet.smoothness (Comet.config (ext s)))
                             (currentX (base s)) (targetX (base s)))
         (base s)).
Proof.
  unfold Comet.render.
  destruct (JS.hypot_gtb _ _ _); reflexivity.
Qed.

Lemma blink_render_motion_base (s : Sys Blink.State) :
  base (Blink.render_motion s)
  = set_currentY
      (Blink.lerp (currentY (base s)) (targetY (base s)) (25 # 100))
      (set_currentX
         (Blink.lerp (currentX (base s)) (targetX (base s)) (25 # 100))
         (base s)).
Proof.
  unfold Blink.render_motion.
  destruct (JS.hypot_gtb _ _ _); reflexivity.
Qed.

Lemma blink_render_draw_base (c : Ctx) (s : Sys Blink.State) :
  exists c', base (Blink.render_draw c s) = set_ctx (Some c') (base s).
Proof.
  unfold Blink.render_draw.
  destruct (Blink.fade_loop _ _ _) as [gs c2].
  eexists. reflexivity.
Qed.

(** C1, as the code has it: both comet renderers snap below the 0.1 gap
    and otherwise take the weighted mean with the configured factor, on each
    axis independently; the blink renderer has no snap and takes the
    weighted mean with factor 0.25 on every tick.  No renderer moves the
    target. *)
Theorem smoothing_step_by_variant :
  (forall (c : Ctx) (s : Sys Comet.State),
      let k := Comet.smoothness (Comet.config (ext s)) in
      let b := base s in
      let b' := base (Comet.render c s) in
      advance_spec k (currentX b) (targetX b) (currentX b')
      /\ advance_spec k (currentY b) (targetY b) (currentY b')
      /\ targetX b' = targetX b /\ targetY b' = targetY b)
  /\ (forall (tx ty x0 y0 h : Q) (tr : list Comet.Point),
      let s' := LegacyComet.loop
                  (LegacyComet.mkState true true tx ty x0 y0 h tr) in
      advance_spec LegacyComet.smoothness x0 tx (LegacyComet.currentX s')
      /\ advance_spec LegacyComet.smoothness y0 ty (LegacyComet.currentY s')
      /\ LegacyComet.targetX s' = tx /\ LegacyComet.targetY s' = ty)
  /\ (forall (c : Ctx) (s : Sys Blink.State),
      let b := base s in
      let b' := base (Blink.render c s) in
      currentX b' == currentX b * (1 - (25 # 100)) + targetX b * (25 # 100)
      /\ currentY b' == currentY b * (1 - (25 # 100)) + targetY b * (25 # 100)
      /\ targetX b' = targetX b /\ targetY b' = targetY b).
Proof.
  split; [| split].
  - intros c s k b b'. subst b'. rewrite comet_render_base. simpl.
    repeat split; try apply advance_axis_spec.
  - intros tx ty x0 y0 h tr. simpl.
    repeat split; apply advance_axis_spec.
  - intros c s b b'. subst b' b. unfold Blink.render.
    destruct (blink_render_draw_base c (Blink.render_motion s)) as [c' ->].
    rewrite blink_render_motion_base. simpl. unfold Blink.lerp.
    repeat split; ring.
Qed.

(** C1 as stated fails for the blink renderer: with the caret 0.05 away
    from its target the step does not land on the target. *)
Lemma blink_render_does_not_snap :
  let s := Sample.move_target (1 # 20) Sample.blink_ready in
  Qabs (targetX (base s) - currentX (base s)) < 1 # 10
  /\ ~ currentX (base (Blink.render fresh_ctx s)) == targetX (base s).
Proof.
  split.
  - vm_compute. reflexivity.
  - intro H. vm_compute in H. discriminate H.
Qed.

(** ** Scrolling *)

Lemma ltb_compat (a a' b b' : Q) :
  a == a' -> b == b' -> JS.ltb a b = JS.ltb a' b'.
Proof.
  intros Ha Hb. unfold JS.ltb.
  assert (E : (a ?= b) = (a' ?= b')) by (apply Qcompare_comp; assumption).
  rewrite E. reflexivity.
Qed.

Lemma hypot_gtb_compat (dx dx' dy dy' r : Q) :
  dx == dx' -> dy == dy' -> JS.hypot_gtb dx dy r = JS.hypot_gtb dx' dy' r.
Proof.
  intros Hx Hy. unfold JS.hypot_gtb.
  destruct (JS.ltb r 0); [reflexivity |].
  apply ltb_compat; [reflexivity |].
  rewrite Hx, Hy. reflexivity.
Qed.

(** What [onScroll] does to the shared fields once the plugin is
    initialised, whatever the effect's [onScrollChange] is, as long as that
    hook leaves the shared fields alone. *)
Lemma onScroll_base {X : Type} `{E : Effect X} (s : Sys X) :
  (forall dx dy t, base (onScrollChange dx dy t) = base t) ->
  initialized (base s) = true ->
  let dx := scrollLeft (world s) - lastScrollLeft (base s) in
  let dy := scrollTop (world s) - lastScrollTop (base s) in
  let b := base s in
  let b' := base (onScroll s) in
  targetX b' = targetX b - dx /\ targetY b' = targetY b - dy
  /\ currentX b' = currentX b - dx /\ currentY b' = currentY b - dy
  /\ lastScrollLeft b' = scrollLeft (world s)
  /\ lastScrollTop b' = scrollTop (world s)
  /\ currentHeight b' = currentHeight b
  /\ initialized b' = true.
Proof.
  intros Hhook Hinit. unfold onScroll. rewrite Hinit. simpl.
  rewrite Hhook. simpl. rewrite Hinit. repeat split.
Qed.

Lemma shifted_gap (t c d : Q) : (t - d) - (c - d) == t - c.
Proof. ring. Qed.

(** C2: once initialised, the scroll handler subtracts the scroll delta from
    target and current together, so their offset, the distance between them
    and the moving test are unchanged; every trail point (comet) and every
    ghost and the spawn point (blink) move by the same delta. *)
Theorem scroll_shifts_everything_alike
    (sc : Sys Comet.State) (sb : Sys Blink.State)
    (Hc : initialized (base sc) = true)
    (Hb : initialized (base sb) = true) :
  (let dx := scrollLeft (world sc) - lastScrollLeft (base sc) in
   let dy := scrollTop (world sc) - lastScrollTop (base sc) in
   let b := base sc in
   let b' := base (onScroll sc) in
   targetX b' = targetX b - dx /\ targetY b' = targetY b - dy
   /\ currentX b' = currentX b - dx /\ currentY b' = currentY b - dy
   /\ distance2 b' == distance2 b
   /\ (forall r, JS.hypot_gtb (targetX b' - currentX b')
                              (targetY b' - currentY b') r
                 = JS.hypot_gtb (targetX b - currentX b)
                                (targetY b - currentY b) r)
   /\ Comet.trail (ext (onScroll sc))
      = map (fun p => Comet.mkPoint (Comet.x p - dx) (Comet.y p - dy))
            (Comet.trail (ext sc)))
  /\
  (let dx := scrollLeft (world sb) - lastScrollLeft (base sb) in
   let dy := scrollTop (world sb) - lastScrollTop (base sb) in
   let b := base sb in
   let b' := base (onScroll sb) in
   targetX b' = targetX b - dx /\ targetY b' = targetY b - dy
   /\ currentX b' = currentX b - dx /\ currentY b' = currentY b - dy
   /\ distance2 b' == distance2 b
   /\ Blink.ghosts (ext (onScroll sb))
      = map (fun g => Blink.mkGhost (Blink.x g - dx) (Blink.y g - dy)
                                    (Blink.height g) (Blink.opacity g))
            (Blink.ghosts (ext sb))
   /\ Blink.lastX (ext (onScroll sb)) = Blink.lastX (ext sb) - dx
   /\ Blink.lastY (ext (onScroll sb)) = Blink.lastY (ext sb) - dy).
Proof.
  split.
  - intros dx dy b b'.
    destruct (onScroll_base (E := Comet.effect) sc
                (fun _ _ _ => eq_refl) Hc) as (Htx & Hty & Hcx & Hcy & _).
    fold dx dy b b' in Htx, Hty, Hcx, Hcy.
    repeat split; try assumption.
    + unfold distance2. rewrite Htx, Hty, Hcx, Hcy.
      rewrite !shifted_gap. reflexivity.
    + intro r. rewrite Htx, Hty, Hcx, Hcy.
      apply hypot_gtb_compat; apply shifted_gap.
    + unfold onScroll. rewrite Hc. reflexivity.
  - intros dx dy b b'.
    destruct (onScroll_base (E := Blink.effect) sb
                (fun _ _ _ => eq_refl) Hb) as (Htx & Hty & Hcx & Hcy & _).
    fold dx dy b b' in Htx, Hty, Hcx, Hcy.
    repeat split; try assumption.
    + unfold distance2. rewrite Htx, Hty, Hcx, Hcy.
      rewrite !shifted_gap. reflexivity.
    + unfold onScroll. rewrite Hb. reflexivity.
    + unfold onScroll. rewrite Hb. reflexivity.
    + unfold onScroll. rewrite Hb. reflexivity.
Qed.

Lemma scroll_shifts_everything_alike_witness :
  let sc := Sample.scrolled Sample.comet_moving in
  let sb := Sample.scrolled Sample.blink_moving in
  Comet.trail (ext (onScroll sc))
  = map (fun p =>
           Comet.mkPoint
             (Comet.x p - (scrollLeft (world sc) - lastScrollLeft (base sc)))
             (Comet.y p - (scrollTop (world sc) - lastScrollTop (base sc))))
        (Comet.trail (ext sc))
  /\ Blink.lastX (ext (onScroll sb))
     = Blink.lastX (ext sb)
       - (scrollLeft (world sb) - lastScrollLeft (base sb)).
Proof.
  intros sc sb.
  assert (Hc : initialized (base sc) = true) by (vm_compute; reflexivity).
  assert (Hb : initialized (base sb) = true) by (vm_compute; reflexivity).
  destruct (scroll_shifts_everything_alike sc sb Hc Hb) as [Kc Kb].
  split.
  - exact (proj2 (proj2 (proj2 (proj2 (proj2 (proj2 Kc)))))).
  - exact (proj1 (proj2 (proj2 (proj2 (proj2 (proj2 (proj2 Kb))))))).
Defined.

(** ** Geometry sampling: the write phase *)

Lemma on_base_id {X : Type} (s : Sys X) :
  on_base (fun b => set_ctx (ctx b) (set_canvas (canvas b) b)) s = s.
Proof. destruct s as [w [] x]. reflexivity. Qed.

(** [resizeCanvas] writes to the canvas and the context only. *)
Lemma resizeCanvas_shape {X : Type} (r : DOMRect) (s : Sys X) :
  exists cv c,
    resizeCanvas r s = on_base (fun b => set_ctx c (set_canvas cv b)) s.
Proof.
  unfold resizeCanvas.
  destruct (canvas (base s)) as [cv |] eqn:Ecv.
  - destruct ((width cv =? _)%Z && (height cv =? _)%Z).
    + exists (canvas (base s)), (ctx (base s)).
      symmetry. apply on_base_id.
    + eexists. eexists. reflexivity.
  - exists (canvas (base s)), (ctx (base s)).
    symmetry. apply on_base_id.
Qed.

(** The state after the first two steps of [write] (pending flag, focus,
    resize): canvas, context, focus and the two flags may differ from the
    state before, nothing else. *)
Lemma write_prefix_shape {X : Type} (r : option DOMRect) (f : bool)
    (s : Sys X) :
  exists cv c nr,
    match r with
    | Some r0 =>
        on_base (set_needsResize false)
          (resizeCanvas r0
             (on_base (fun b => set_hasFocus f (set_measurePending false b))
                      s))
    | None =>
        on_base (fun b => set_hasFocus f (set_measurePending false b)) s
    end
    = on_base (fun b =>
        set_needsResize nr
          (set_ctx c (set_canvas cv
             (set_hasFocus f (set_measurePending false b))))) s.
Proof.
  destruct r as [r0 |].
  - destruct (resizeCanvas_shape r0
                (on_base (fun b => set_hasFocus f
                                     (set_measurePending false b)) s))
      as (cv & c & ->).
    exists cv, c, false. reflexivity.
  - exists (canvas (base s)), (ctx (base s)), (needsResize (base s)).
    destruct s as [w [] x]. reflexivity.
Qed.

Lemma write_with_coords {X : Type} (s : Sys X)
    (r : option DOMRect) (f : bool) (c : Coords) :
  let b := base s in
  let b' := base (write (mkMeasure r (Some c) f) s) in
  targetX b' = cx c /\ targetY b' = cy c /\ currentHeight b' = cheight c
  /\ initialized b' = true
  /\ (if initialized b
      then currentX b' = currentX b /\ currentY b' = currentY b
           /\ lastScrollTop b' = lastScrollTop b
           /\ lastScrollLeft b' = lastScrollLeft b
      else currentX b' = cx c /\ currentY b' = cy c
           /\ lastScrollTop b' = scrollTop (world s)
           /\ lastScrollLeft b' = scrollLeft (world s)).
Proof.
  intros b b'. subst b b'. unfold write. simpl m_rect. simpl m_coords.
  simpl m_hasFocus.
  destruct (write_prefix_shape r f s) as (cv & c0 & nr & ->).
  simpl. destruct (initialized (base s)) eqn:Ei; simpl; rewrite ?Ei;
    repeat split.
Qed.


(** The initialisation scenario: the first sample is (100, 50) with height
    20; after the write phase current is (100, 50), with no tick run. *)
Example initialization_scenario :
  let s := step Measure Sample.comet in
  initialized (base Sample.comet) = false
  /\ currentX (base s) = 100 /\ currentY (base s) = 50
  /\ currentHeight (base s) = 20 /\ initialized (base s) = true.
Proof. vm_compute. repeat split. Qed.

Lemma read_coords_none_iff (n : bool) (w : World) :
  m_coords (read n w) = None
  <-> view_hasFocus w = false \/ view_coords w = None.
Proof.
  unfold read. simpl.
  destruct (view_hasFocus w); destruct (view_coords w);
    rewrite ?orb_true_r; simpl; split; intro H; try discriminate;
    try reflexivity; auto.
  destruct H; discriminate.
Qed.

Lemma resizeCanvas_world_ext {X : Type} (r : DOMRect) (s : Sys X) :
  world (resizeCanvas r s) = world s /\ ext (resizeCanvas r s) = ext s.
Proof.
  destruct (resizeCanvas_shape r s) as (cv & c & ->). split; reflexivity.
Qed.

Lemma write_world_ext {X : Type} (m : MeasureResult) (s : Sys X) :
  world (write m s) = world s /\ ext (write m s) = ext s.
Proof.
  unfold write.
  destruct (write_prefix_shape (m_rect m) (m_hasFocus m) s)
    as (cv & c0 & nr & ->).
  destruct (m_coords m); simpl; [| split; reflexivity].
  destruct (initialized (base s)); split; reflexivity.
Qed.

(** C8: when the read phase yields no coordinates, the write phase leaves
    target, height, the initialisation flag, current and the scroll baseline
    as they were; it still stores the focus state, clears the pending flag
    (so that a later request is queued again) and, if a rectangle was
    sampled, resizes the canvas and clears the resize flag.  [write] is a
    total function: nothing is raised. *)
Theorem missing_coords_skip_target_update {X : Type}
    (n : bool) (w : World) (s : Sys X)
    (Hnone : m_coords (read n w) = None) :
  let m := read n w in
  let b := base s in
  let b' := base (write m s) in
  targetX b' = targetX b /\ targetY b' = targetY b
  /\ currentHeight b' = currentHeight b
  /\ initialized b' = initialized b
  /\ currentX b' = currentX b /\ currentY b' = currentY b
  /\ lastScrollTop b' = lastScrollTop b
  /\ lastScrollLeft b' = lastScrollLeft b
  /\ hasFocus b' = view_hasFocus w
  /\ measurePending b' = false
  /\ match m_rect m with
     | Some r =>
         needsResize b' = false
         /\ canvas b' = canvas (base (resizeCanvas r s))
         /\ ctx b' = ctx (base (resizeCanvas r s))
     | None =>
         needsResize b' = needsResize b
         /\ canvas b' = canvas b /\ ctx b' = ctx b
     end
  /\ world (write m s) = world s /\ ext (write m s) = ext s
  /\ measure_requests (world (scheduleMeasure (write m s)))
     = S (measure_requests (world s)).
Proof.
  intros m b b'.
  assert (Hb' : b' = base
            (match m_rect m with
             | Some r0 =>
                 on_base (set_needsResize false)
                   (resizeCanvas r0
                      (on_base (fun b => set_hasFocus (m_hasFocus m)
                                           (set_measurePending false b)) s))
             | None =>
                 on_base (fun b => set_hasFocus (m_hasFocus m)
                                     (set_measurePending false b)) s
             end)).
  { subst b'. unfold write.
    change (m_coords m) with (m_coords (read n w)).
    rewrite Hnone. reflexivity. }
  assert (Hfocus : m_hasFocus m = view_hasFocus w) by reflexivity.
  repeat match goal with |- _ /\ _ => split end.
  1-10: rewrite Hb';
        destruct (write_prefix_shape (m_rect m) (m_hasFocus m) s)
          as (cv & c0 & nr & ->); simpl; auto.
  - rewrite Hb'. destruct (m_rect m) as [r0 |]; simpl.
    + unfold resizeCanvas. simpl.
      destruct (canvas (base s)) as [cv |]; simpl; [| auto].
      destruct ((width cv =? _)%Z && (height cv =? _)%Z); simpl; auto.
    + auto.
  - apply write_world_ext.
  - apply write_world_ext.
  - unfold scheduleMeasure.
    replace (measurePending (base (write m s))) with false.
    + simpl. f_equal. f_equal. apply write_world_ext.
    + fold b'. rewrite Hb'.
      destruct (write_prefix_shape (m_rect m) (m_hasFocus m) s)
        as (cv & c0 & nr & ->). reflexivity.
Qed.

Lemma missing_coords_skip_target_update_witness :
  targetX (base (write (read true Sample.host_offscreen)
                       Sample.comet_ready))
  = targetX (base Sample.comet_ready).
Proof.
  exact (proj1 (missing_coords_skip_target_update
                  true Sample.host_offscreen Sample.comet_ready eq_refl)).
Defined.

(** ** Scrolling before the first sample *)

Lemma onScroll_uninitialized {X : Type} `{E : Effect X} (s : Sys X) :
  initialized (base s) = false -> onScroll s = s.
Proof. intro H. unfold onScroll. rewrite H. reflexivity. Qed.

Lemma step_scroll_uninitialized {X : Type} `{E : Effect X}
    (t l : Q) (s : Sys X) :
  initialized (base s) = false ->
  step (Scroll t l) s = on_world (w_scroll_to t l) s.
Proof.
  intro H. simpl.
  destruct (scroll_listening (world s)); [| reflexivity].
  apply onScroll_uninitialized. exact H.
Qed.

Lemma run_snoc {X : Type} `{E : Effect X} (es : list Event) (e : Event)
    (s : Sys X) :
  run (es ++ [e]) s = step e (run es s).
Proof. unfold run. rewrite fold_left_app. reflexivity. Qed.

Lemma run_scrolls_uninitialized {X : Type} `{E : Effect X}
    (ps : list (Q * Q)) (s : Sys X) :
  initialized (base s) = false ->
  base (run (scroll_events ps) s) = base s
  /\ ext (run (scroll_events ps) s) = ext s
  /\ world (run (scroll_events ps) s)
     = match rev ps with
       | [] => world s
       | p :: _ => w_scroll_to (fst p) (snd p) (world s)
       end.
Proof.
  intro H. induction ps as [| p ps IH] using rev_ind.
  - simpl. auto.
  - unfold scroll_events in *. rewrite map_app. simpl map.
    rewrite run_snoc, rev_unit.
    destruct IH as (Hb & Hx & Hw).
    rewrite step_scroll_uninitialized by (rewrite Hb; exact H).
    simpl. rewrite Hb, Hx, Hw.
    repeat split. destruct (rev ps); reflexivity.
Qed.

(** C10: while the initialisation flag is clear the scroll handler returns
    the state as it is; a scroll event then changes nothing but the host's
    own scroll offsets, whatever number of them arrive; and the first write
    phase with coordinates records the offsets current at that moment as
    baseline, so that what was scrolled before is never applied: the delta
    the handler would compute right after that write is zero. *)
Theorem scroll_before_initialization_is_noop {X : Type} `{E : Effect X}
    (s : Sys X) (Hclear : initialized (base s) = false) :
  onScroll s = s
  /\ (forall t l : Q, step (Scroll t l) s = on_world (w_scroll_to t l) s)
  /\ (forall ps : list (Q * Q),
        let s' := run (scroll_events ps) s in
        base s' = base s /\ ext s' = ext s)
  /\ (forall (ps : list (Q * Q)) (r : option DOMRect) (f : bool)
             (c : Coords),
        let s1 := run (scroll_events ps) s in
        let s2 := write (mkMeasure r (Some c) f) s1 in
        lastScrollTop (base s2) = scrollTop (world s2)
        /\ lastScrollLeft (base s2) = scrollLeft (world s2)
        /\ scrollTop (world s2) - lastScrollTop (base s2) == 0
        /\ scrollLeft (world s2) - lastScrollLeft (base s2) == 0
        /\ currentX (base s2) = cx c /\ currentY (base s2) = cy c
        /\ targetX (base s2) = cx c /\ targetY (base s2) = cy c
        /\ initialized (base s2) = true).
Proof.
  split; [| split; [| split]].
  - apply onScroll_uninitialized. exact Hclear.
  - intros t l. apply step_scroll_uninitialized. exact Hclear.
  - intros ps s'. subst s'.
    destruct (run_scrolls_uninitialized ps s Hclear) as (Hb & Hx & _).
    split; assumption.
  - intros ps r f c s1 s2.
    destruct (run_scrolls_uninitialized ps s Hclear) as (Hb & _ & _).
    fold s1 in Hb.
    assert (Hi : initialized (base s1) = false) by (rewrite Hb; exact Hclear).
    destruct (write_with_coords s1 r f c)
      as (Htx & Hty & _ & Hinit & Hrest).
    fold s2 in Htx, Hty, Hinit, Hrest. rewrite Hi in Hrest.
    destruct Hrest as (Hcx & Hcy & Htop & Hleft).
    assert (Hw : world s2 = world s1) by apply write_world_ext.
    rewrite Hw.
    repeat split; try assumption.
    + rewrite Htop. ring.
    + rewrite Hleft. ring.
Qed.

Lemma scroll_before_initialization_is_noop_witness :
  onScroll (Sample.scrolled Sample.comet) = Sample.scrolled Sample.comet.
Proof.
  exact (proj1 (scroll_before_initialization_is_noop
                  (Sample.scrolled Sample.comet) eq_refl)).
Defined.

(** ** Resizing the overlay *)

Lemma resizeCanvas_without_canvas {X : Type} (rect : DOMRect) (s : Sys X) :
  canvas (base s) = None -> resizeCanvas rect s = s.
Proof. intro H. unfold resizeCanvas. rewrite H. reflexivity. Qed.

Lemma effective_dpr_nonzero (w : World) : ~ effective_dpr w == 0.
Proof.
  unfold effective_dpr. apply JSFacts.or_else_nonzero.
  intro H. discriminate H.
Qed.

(** C9: with a canvas in place, either the scaled sizes equal the
    backing-store sizes and [resizeCanvas] returns the state as it is, or
    they differ and it stores the scaled sizes (each at least 1) as
    backing-store size, the rectangle's sizes as CSS size, and installs the
    scale by the device pixel ratio on the context, if there is one. *)
Theorem resize_noop_when_dimensions_match {X : Type}
    (rect : DOMRect) (s : Sys X) (cv : Canvas)
    (Hcv : canvas (base s) = Some cv) :
  let dpr := effective_dpr (world s) in
  let w' := Z.max 1 (Qfloor (r_width rect * dpr)) in
  let h' := Z.max 1 (Qfloor (r_height rect * dpr)) in
  let s' := resizeCanvas rect s in
  (width cv = w' /\ height cv = h' /\ s' = s)
  \/ ((width cv <> w' \/ height cv <> h')
      /\ (1 <= w')%Z /\ (1 <= h')%Z
      /\ canvas (base s')
         = Some (mkCanvas (canvas_id cv) (className cv) w' h'
                          (Px (r_width rect)) (Px (r_height rect)))
      /\ match ctx (base s) with
         | Some c =>
             exists c', ctx (base s') = Some c'
                        /\ transform c' = mkTransform dpr 0 0 dpr 0 0
                        /\ calls c' = calls c
         | None => ctx (base s') = None
         end
      /\ ~ dpr == 0
      /\ (~ devicePixelRatio (world s) == 0
          -> dpr = devicePixelRatio (world s))
      /\ world s' = world s /\ ext s' = ext s
      /\ targetX (base s') = targetX (base s)
      /\ currentX (base s') = currentX (base s)).
Proof.
  intros dpr w' h' s'. subst s'. unfold resizeCanvas. rewrite Hcv.
  fold dpr. unfold JS.max1_floor. fold w' h'.
  destruct (width cv =? w')%Z eqn:Ew; destruct (height cv =? h')%Z eqn:Eh;
    simpl andb; cbv iota.
  1: { left. apply Z.eqb_eq in Ew, Eh. auto. }
  all: right; split;
    [ first [ left; apply Z.eqb_neq; exact Ew
            | right; apply Z.eqb_neq; exact Eh ] | ].
  all: split; [ subst w'; lia | ].
  all: split; [ subst h'; lia | ].
  all: split; [ reflexivity | ].
  all: split; [ simpl; destruct (ctx (base s)) as [c |]; simpl;
                [ eexists; repeat split | reflexivity ] | ].
  all: split; [ apply effective_dpr_nonzero | ].
  all: split; [ intro Hn; apply JSFacts.or_else_id; exact Hn | ].
  all: repeat split.
Qed.

Lemma resize_noop_when_dimensions_match_witness :
  resizeCanvas (view_rect Sample.host) Sample.comet_ready
  = Sample.comet_ready.
Proof.
  destruct (resize_noop_when_dimensions_match
              (view_rect Sample.host) Sample.comet_ready
              (mkCanvas 0 Comet.COMET_CLASS 800 600 (Px 800) (Px 600))
              eq_refl) as [(_ & _ & H) | (Hd & _)].
  - exact H.
  - exfalso. destruct Hd as [Hd | Hd]; apply Hd; vm_compute; reflexivity.
Defined.

(** The resize scenario the other way round: a fresh 300 x 150 canvas and
    an 800 x 600 editor at device pixel ratio 2. *)
Example resize_scenario :
  let s := on_world (w_set_view 2 true (mkDOMRect 0 0 800 600) None)
                    Sample.comet in
  option_map (fun cv => (width cv, height cv, style_width cv))
             (canvas (base (resizeCanvas (view_rect (world s)) s)))
  = Some (1600%Z, 1200%Z, Px 800)
  /\ option_map transform (ctx (base (resizeCanvas (view_rect (world s)) s)))
     = Some (mkTransform 2 0 0 2 0 0).
Proof. vm_compute. split; reflexivity. Qed.

(** ** Enabling and disabling *)




Lemma class_mem_add_other (c d : string) (l : list string) :
  class_mem c l = true -> class_mem c (class_add d l) = true.
Proof.
  intro H. unfold class_add. destruct (class_mem d l); [exact H |].
  unfold class_mem in *. rewrite existsb_app, H. reflexivity.
Qed.



Lemma base_enable_canvas {X : Type} (s : Sys X) :
  exists cv, canvas (base (base_enable s)) = Some cv
             /\ canvas_id cv = match canvas (base s) with
                               | Some cv0 => canvas_id cv0
                               | None => next_element (world s)
                               end.
Proof.
  unfold base_enable. destruct (canvas (base s)) as [cv |] eqn:Ecv.
  - exists cv. auto.
  - unfold scheduleMeasure. simpl.
    destruct (measurePending (base s)); simpl; eexists; split; reflexivity.
Qed.














Lemma class_remove_absent (c : string) (l : list string) :
  class_mem c l = false -> class_remove c l = l.
Proof.
  unfold class_mem, class_remove. induction l as [| d l IH]; simpl;
    [reflexivity |].
  intro H. apply orb_false_iff in H. destruct H as [Hd Hl].
  rewrite Hd. simpl. f_equal. apply IH. exact Hl.
Qed.

(** A disabled instance: no frame requested, no canvas, class absent. *)
Lemma base_disable_disabled {X : Type} (s : Sys X) :
  animationFrameId (base s) = 0%Z ->
  canvas (base s) = None ->
  class_mem ENABLED_CLASS (dom_classList (world s)) = false ->
  base_disable s = s.
Proof.
  intros Hid Hcv Hcl. unfold base_disable. rewrite Hid. simpl. rewrite Hcv.
  destruct s as [w b x]. destruct w. unfold on_world, w_class_remove. simpl.
  simpl in Hcl. rewrite (class_remove_absent _ _ Hcl). reflexivity.
Qed.



(** An instance constructed with the effect switched off is disabled, and
    [destroy] leaves it as it is. *)
Example disable_never_enabled :
  let s := construct Sample.host (Blink.initial Blink.default_config) in
  canvas (base s) = None /\ destroy s = s.
Proof. vm_compute. split; reflexivity. Qed.

(** ** The blinking main caret *)

Lemma fade_loop_fillStyle (n : nat) (gs : list Blink.Ghost) (c : Ctx) :
  fillStyle (snd (Blink.fade_loop n gs c)) = fillStyle c.
Proof.
  revert gs c. induction n as [| i IH]; intros gs c; simpl; [reflexivity |].
  destruct (nth_error gs i) as [g |]; [| apply IH].
  destruct (JS.leb _ 0); rewrite IH; reflexivity.
Qed.

Lemma blink_render_ctx (c : Ctx) (s : Sys Blink.State) :
  let s1 := Blink.render_motion s in
  let c1 := set_fillStyle (Blink.color (Blink.config (ext s1))) c in
  let c2 := snd (Blink.fade_loop (List.length (Blink.ghosts (ext s1)))
                                 (Blink.ghosts (ext s1)) c1) in
  let o := Blink.main_opacity (now (world s))
                              (Blink.lastActivityTime (ext s)) in
  ctx (base (Blink.render c s))
  = Some (if JS.gtb o 0
          then set_globalAlpha 1
                 (fillRect (currentX (base s1)) (currentY (base s1)) 4
                           (JS.or_else (currentHeight (base s)) 20)
                           (set_globalAlpha o c2))
          else c2).
Proof.
  intros s1 c1 c2 o. unfold Blink.render, Blink.render_draw.
  fold s1. fold c1. subst c2.
  destruct (Blink.fade_loop _ _ c1) as [gs c2] eqn:Efade. simpl.
  assert (Hw : world s1 = world s).
  { subst s1. unfold Blink.render_motion.
    destruct (JS.hypot_gtb _ _ _); reflexivity. }
  assert (Ht : Blink.lastActivityTime (ext s1)
               = Blink.lastActivityTime (ext s)).
  { subst s1. unfold Blink.render_motion.
    destruct (JS.hypot_gtb _ _ _); reflexivity. }
  assert (Hh : currentHeight (base s1) = currentHeight (base s)).
  { subst s1. rewrite blink_render_motion_base. reflexivity. }
  rewrite Hw, Ht, Hh. fold o. destruct (JS.gtb o 0); reflexivity.
Qed.

(** C6, as the code has it.  Up to 500 ms after the last activity the main
    caret has opacity 0.6.  Beyond that the opacity depends on the wall
    clock alone: 0 when [T mod 1060 > 530], and otherwise the same 0.6;
    it does not depend on when the idle episode began and repeats every
    1060 ms.  The value is the opacity the caret rectangle is filled with;
    with opacity 0 no caret rectangle is drawn. *)
Theorem blink_opacity_by_wall_clock (T la : Z) (HT : (0 <= T)%Z) :
  let o := Blink.main_opacity T la in
  ((T - la <= 500)%Z /\ o = 6 # 10
   \/ (500 < T - la)%Z /\ (530 < T mod 1060)%Z /\ o = 0
   \/ (500 < T - la)%Z /\ (T mod 1060 <= 530)%Z /\ o = 6 # 10)
  /\ (forall la' : Z,
        (500 < T - la)%Z -> (500 < T - la')%Z ->
        Blink.main_opacity T la' = o
        /\ Blink.main_opacity (T + 1060) la' = o)
  /\ (forall (c : Ctx) (s : Sys Blink.State),
        now (world s) = T -> Blink.lastActivityTime (ext s) = la ->
        exists c',
          ctx (base (Blink.render c s)) = Some c'
          /\ (o = 0 \/
              exists pre,
                calls c'
                = pre ++ [FillRect o (Blink.color (Blink.config (ext s)))
                            (currentX (base (Blink.render c s)))
                            (currentY (base (Blink.render c s))) 4
                            (JS.or_else (currentHeight (base s)) 20)])).
Proof.
  intro o.
  assert (Hrem : JS.rem T (Blink.blinkInterval * 2) = (T mod 1060)%Z).
  { unfold JS.rem, Blink.blinkInterval. apply Z.rem_mod_nonneg; lia. }
  assert (Hcases :
    (T - la <= 500)%Z /\ o = 6 # 10
    \/ (500 < T - la)%Z /\ (530 < T mod 1060)%Z /\ o = 0
    \/ (500 < T - la)%Z /\ (T mod 1060 <= 530)%Z /\ o = 6 # 10).
  { subst o. unfold Blink.main_opacity. rewrite Hrem.
    unfold Blink.blinkInterval.
    destruct (500 <? T - la)%Z eqn:Eidle.
    - apply Z.ltb_lt in Eidle.
      destruct (530 <? T mod 1060)%Z eqn:Ephase.
      + apply Z.ltb_lt in Ephase. right. left. auto.
      + apply Z.ltb_ge in Ephase. right. right. auto.
    - apply Z.ltb_ge in Eidle. left. auto. }
  split; [exact Hcases |]. split.
  { intros la' Hidle Hidle'. subst o. unfold Blink.main_opacity.
    assert (Hrem' : JS.rem (T + 1060) (Blink.blinkInterval * 2)
                    = (T mod 1060)%Z).
    { unfold JS.rem, Blink.blinkInterval.
      rewrite Z.rem_mod_nonneg by lia.
      replace (T + 1060)%Z with (T + 1 * (530 * 2))%Z by lia.
      rewrite Z.mod_add by lia. reflexivity. }
    rewrite Hrem, Hrem'.
    apply Z.ltb_lt in Hidle. rewrite Hidle.
    assert (E1 : (500 <? T - la')%Z = true) by (apply Z.ltb_lt; lia).
    assert (E2 : (500 <? T + 1060 - la')%Z = true) by (apply Z.ltb_lt; lia).
    rewrite E1, E2. split; reflexivity. }
  intros c s Hnow Hla.
  pose proof (blink_render_ctx c s) as Hctx. cbv zeta in Hctx.
  rewrite Hnow, Hla in Hctx. fold o in Hctx.
  eexists. split; [exact Hctx |].
  assert (Ho : o = 0 \/ o = 6 # 10)
    by (destruct Hcases as [H | [H | H]]; tauto).
  destruct Ho as [Ho | Ho]; [left; exact Ho | right].
  rewrite Ho. simpl JS.gtb. cbv iota. simpl calls.
  unfold Blink.render.
  destruct (blink_render_draw_base c (Blink.render_motion s)) as [c' ->].
  assert (Hcfg : Blink.config (ext (Blink.render_motion s))
                 = Blink.config (ext s)).
  { unfold Blink.render_motion. destruct (JS.hypot_gtb _ _ _); reflexivity. }
  rewrite Hcfg, fade_loop_fillStyle. eexists. reflexivity.
Qed.

Lemma blink_opacity_by_wall_clock_witness :
  (2200 - 0 <= 500)%Z /\ Blink.main_opacity 2200 0 = 6 # 10
  \/ (500 < 2200 - 0)%Z /\ (530 < 2200 mod 1060)%Z
     /\ Blink.main_opacity 2200 0 = 0
  \/ (500 < 2200 - 0)%Z /\ (2200 mod 1060 <= 530)%Z
     /\ Blink.main_opacity 2200 0 = 6 # 10.
Proof.
  assert (HT : (0 <= 2200)%Z) by lia.
  exact (proj1 (blink_opacity_by_wall_clock 2200 0 HT)).
Defined.

(** C6 as stated fails in the visible half of the cycle: idle for 2200 ms at
    wall-clock time 2200, phase 80, the caret has opacity 0.6, not 1. *)
Lemma blink_visible_phase_is_translucent :
  (500 < 2200 - 0)%Z /\ (2200 mod 1060 <= 530)%Z
  /\ Blink.main_opacity 2200 0 == 6 # 10
  /\ ~ Blink.main_opacity 2200 0 == 1.
Proof.
  repeat split; try (vm_compute; congruence).
Qed.

(** The idle scenario: no activity for 600 ms at wall-clock time 600; the
    phase is 600, beyond 530, so the caret is hidden. *)
Example blink_idle_scenario :
  Blink.main_opacity 600 0 = 0
  /\ Blink.main_opacity 500 0 = 6 # 10
  /\ Blink.main_opacity 1061 0 = 6 # 10
  /\ Blink.main_opacity 1591 0 = 0.
Proof. vm_compute. repeat split. Qed.

(** ** Invariants of the effect-specific state over event sequences *)

Lemma scheduleMeasure_ext {X : Type} (s : Sys X) :
  ext (scheduleMeasure s) = ext s.
Proof. unfold scheduleMeasure. destruct (measurePending _); reflexivity. Qed.

Lemma base_enable_ext {X : Type} (s : Sys X) :
  ext (base_enable s) = ext s.
Proof.
  unfold base_enable. destruct (canvas (base s)); [reflexivity |].
  simpl. rewrite scheduleMeasure_ext. reflexivity.
Qed.

Lemma base_disable_ext {X : Type} (s : Sys X) :
  ext (base_disable s) = ext s.
Proof.
  unfold base_disable. simpl.
  destruct (animationFrameId (base s) =? 0)%Z; simpl;
    match goal with |- context [canvas ?b] => destruct (canvas b) end;
    reflexivity.
Qed.

(** A property of the subclass's fields that every overridable member
    keeps is kept by every event. *)
Lemma step_ext_invariant {X : Type} `{E : Effect X} (P : X -> Prop) :
  (forall s, P (ext s) -> P (ext (enable s))) ->
  (forall s, P (ext s) -> P (ext (disable s))) ->
  (forall dx dy s, P (ext s) -> P (ext (onScrollChange dx dy s))) ->
  (forall u s, P (ext s) -> P (ext (onViewUpdate u s))) ->
  (forall c s, P (ext s) -> P (ext (render c s))) ->
  forall (e : Event) (s : Sys X), P (ext s) -> P (ext (step e s)).
Proof.
  intros Hen Hdis Hscr Hupd Hren e s HP.
  destruct e as [| t l | u | | t | dpr focus r c |]; simpl.
  - destruct (raf_pending (world s)); [exact HP |].
    unfold loop. simpl.
    destruct (canvas (base s)); [| exact HP].
    destruct (ctx (base s)); [| exact HP].
    simpl. apply Hren. exact HP.
  - destruct (scroll_listening (world s)); [| exact HP].
    unfold onScroll. simpl.
    destruct (initialized (base s)); simpl; [| exact HP].
    apply Hscr. exact HP.
  - unfold update. destruct (config_enabled (ext s)).
    + assert (H1 : P (ext match canvas (base s) with
                          | Some _ => s
                          | None => enable s
                          end)).
      { destruct (canvas (base s)); [exact HP | apply Hen; exact HP]. }
      set (s1 := match canvas (base s) with
                 | Some _ => s
                 | None => enable s
                 end) in *.
      assert (H2 : P (ext (if geometryChanged u
                           then on_base (set_needsResize true) s1 else s1))).
      { destruct (geometryChanged u); exact H1. }
      set (s2 := if geometryChanged u
                 then on_base (set_needsResize true) s1 else s1) in *.
      destruct (docChanged u || selectionSet u || viewportChanged u
                || geometryChanged u || focusChanged u).
      * rewrite scheduleMeasure_ext. apply Hupd. exact H2.
      * apply Hupd. exact H2.
    + destruct (canvas (base s)); [apply Hdis |]; exact HP.
  - destruct (measure_requests (world s)); [exact HP |].
    match goal with
    | |- P (ext (write ?m ?t)) =>
        replace (ext (write m t)) with (ext t)
          by (symmetry; apply write_world_ext)
    end.
    exact HP.
  - exact HP.
  - exact HP.
  - unfold destroy. apply Hdis. exact HP.
Qed.

Lemma run_ext_invariant {X : Type} `{E : Effect X} (P : X -> Prop) :
  (forall e s, P (ext s) -> P (ext (step e s))) ->
  forall (es : list Event) (s : Sys X), P (ext s) -> P (ext (run es s)).
Proof.
  intros Hstep es. induction es as [| e es IH] using rev_ind; intros s HP.
  - exact HP.
  - rewrite run_snoc. apply Hstep. apply IH. exact HP.
Qed.

(** ** Ghosts of the blink effect *)

Lemma alive_pos (g : Blink.Ghost) : alive g = true <-> 0 < Blink.opacity g.
Proof.
  unfold alive. rewrite negb_true_iff. apply JSFacts.leb_gt.
Qed.

Lemma nth_error_at_length {A : Type} (l1 l2 : list A) (a : A) :
  nth_error (l1 ++ a :: l2) (List.length l1) = Some a.
Proof. induction l1 as [| b l1 IH]; simpl; [reflexivity | exact IH]. Qed.

Lemma firstn_at_length {A : Type} (l1 l2 : list A) :
  firstn (List.length l1) (l1 ++ l2) = l1.
Proof.
  induction l1 as [| b l1 IH]; simpl; [reflexivity | rewrite IH; reflexivity].
Qed.

Lemma skipn_after_length {A : Type} (l1 l2 : list A) (a : A) :
  skipn (S (List.length l1)) (l1 ++ a :: l2) = l2.
Proof. induction l1 as [| b l1 IH]; simpl; [reflexivity | exact IH]. Qed.

(** The downward loop with [splice] computes a filter: every ghost fades
    once, the expired ones go, the order stays. *)
Lemma fade_loop_ghosts (l1 l2 : list Blink.Ghost) (c : Ctx) :
  fst (Blink.fade_loop (List.length l1) (l1 ++ l2) c)
  = filter alive (map Blink.fade l1) ++ l2.
Proof.
  revert l2 c. induction l1 as [| g l1 IH] using rev_ind; intros l2 c.
  - reflexivity.
  - rewrite length_app, Nat.add_comm. simpl List.length. simpl Nat.add.
    rewrite <- app_assoc. simpl app.
    simpl Blink.fade_loop. rewrite nth_error_at_length.
    unfold Blink.remove_at, Blink.replace_at.
    rewrite firstn_at_length, skipn_after_length.
    rewrite map_app, filter_app. simpl map. simpl filter.
    unfold alive at 2.
    change (Blink.opacity (Blink.fade g)) with (Blink.opacity g - (3 # 100)).
    destruct (JS.leb (Blink.opacity g - (3 # 100)) 0); simpl negb; cbv iota.
    + rewrite IH, app_nil_r. reflexivity.
    + rewrite IH, <- app_assoc. reflexivity.
Qed.

Lemma spawn_loop_appends (n : nat) (i steps : Z) (lx ly dx dy h : Q)
    (gs : list Blink.Ghost) :
  exists new,
    Blink.spawn_loop n i steps lx ly dx dy h gs = gs ++ new
    /\ List.length new = n
    /\ Forall (fun g => Blink.opacity g = 4 # 10 /\ Blink.height g = h) new.
Proof.
  revert i gs. induction n as [| n IH]; intros i gs; simpl.
  - exists []. rewrite app_nil_r. auto.
  - destruct (IH (i + 1)%Z
                (gs ++ [Blink.mkGhost
                          (lx + dx * (inject_Z i / inject_Z steps))
                          (ly + dy * (inject_Z i / inject_Z steps))
                          h (4 # 10)]))
      as (new & Heq & Hlen & Hall).
    eexists. rewrite Heq, <- app_assoc. split; [reflexivity |].
    simpl. split; [f_equal; exact Hlen |].
    constructor; [split; reflexivity | exact Hall].
Qed.

Lemma blink_render_motion_ghosts (s : Sys Blink.State) :
  exists new,
    Blink.ghosts (ext (Blink.render_motion s))
    = Blink.ghosts (ext s) ++ new
    /\ Forall (fun g => Blink.opacity g = 4 # 10) new.
Proof.
  unfold Blink.render_motion.
  destruct (JS.hypot_gtb _ _ _).
  - simpl.
    match goal with
    | |- context [Blink.spawn_loop ?n ?i ?st ?lx ?ly ?dx ?dy ?h ?gs] =>
        destruct (spawn_loop_appends n i st lx ly dx dy h gs)
          as (new & Heq & _ & Hall)
    end.
    exists new. split; [exact Heq |].
    eapply Forall_impl; [| exact Hall]. intros g [Ho _]. exact Ho.
  - exists []. rewrite app_nil_r. split; [reflexivity | constructor].
Qed.

Lemma blink_render_draw_ghosts (c : Ctx) (s : Sys Blink.State) :
  Blink.ghosts (ext (Blink.render_draw c s))
  = filter alive (map Blink.fade (Blink.ghosts (ext s))).
Proof.
  unfold Blink.render_draw.
  pose proof (fade_loop_ghosts (Blink.ghosts (ext s)) []
                (set_fillStyle (Blink.color (Blink.config (ext s))) c))
    as H.
  rewrite !app_nil_r in H.
  destruct (Blink.fade_loop _ _ _) as [gs c2]. simpl in *. exact H.
Qed.

Lemma fade_opacity (g : Blink.Ghost) :
  Blink.opacity (Blink.fade g) < Blink.opacity g.
Proof. unfold Blink.fade. simpl. lra. Qed.

Lemma blink_render_motion_ok (s : Sys Blink.State) :
  Forall ghost_ok (Blink.ghosts (ext s)) ->
  Forall ghost_ok (Blink.ghosts (ext (Blink.render_motion s))).
Proof.
  intro H. destruct (blink_render_motion_ghosts s) as (new & -> & Hnew).
  apply Forall_app. split; [exact H |].
  eapply Forall_impl; [| exact Hnew].
  intros g Ho. unfold ghost_ok. rewrite Ho. split; lra.
Qed.

Lemma blink_render_draw_ok (c : Ctx) (s : Sys Blink.State) :
  Forall ghost_ok (Blink.ghosts (ext s)) ->
  Forall ghost_ok (Blink.ghosts (ext (Blink.render_draw c s))).
Proof.
  intro H. rewrite blink_render_draw_ghosts.
  apply Forall_forall. intros g' Hin.
  apply filter_In in Hin. destruct Hin as [Hin Halive].
  apply in_map_iff in Hin. destruct Hin as (g & <- & Hg).
  rewrite Forall_forall in H. destruct (H g Hg) as [_ Hle].
  split.
  - apply alive_pos. exact Halive.
  - pose proof (fade_opacity g). lra.
Qed.

Lemma blink_render_ok (c : Ctx) (s : Sys Blink.State) :
  Forall ghost_ok (Blink.ghosts (ext s)) ->
  Forall ghost_ok (Blink.ghosts (ext (Blink.render c s))).
Proof.
  intro H. unfold Blink.render.
  apply blink_render_draw_ok, blink_render_motion_ok. exact H.
Qed.

Lemma blink_enable_ghosts (s : Sys Blink.State) :
  Blink.ghosts (ext (Blink.enable s)) = Blink.ghosts (ext s).
Proof.
  unfold Blink.enable. simpl.
  destruct (canvas (base (base_enable s))); simpl;
    rewrite base_enable_ext; reflexivity.
Qed.

Lemma blink_step_ok (e : Event) (s : Sys Blink.State) :
  Forall ghost_ok (Blink.ghosts (ext s)) ->
  Forall ghost_ok (Blink.ghosts (ext (step e s))).
Proof.
  apply (step_ext_invariant
           (fun st => Forall ghost_ok (Blink.ghosts st))).
  - intros t H.
    change (Forall ghost_ok (Blink.ghosts (ext (Blink.enable t)))).
    rewrite blink_enable_ghosts. exact H.
  - intros t H. constructor.
  - intros dx dy t H.
    change (Forall ghost_ok
              (map (Blink.shift_ghost dx dy) (Blink.ghosts (ext t)))).
    apply Forall_map.
    eapply Forall_impl; [| exact H]. intros g Hg. exact Hg.
  - intros u t H.
    change (Forall ghost_ok (Blink.ghosts (ext (Blink.onViewUpdate u t)))).
    unfold Blink.onViewUpdate.
    destruct (docChanged u || selectionSet u); [| exact H].
    cbv zeta.
    destruct (initialized
                (base (on_ext (Blink.set_lastActivityTime (now (world t)))
                              t))); [| exact H].
    destruct (ctx (base (on_ext (Blink.set_lastActivityTime
                                   (now (world t))) t))).
    + apply blink_render_ok. exact H.
    + apply blink_render_motion_ok. exact H.
  - intros c t H. apply blink_render_ok. exact H.
Qed.

(** C5: a tick first appends the ghosts spawned in it, each with opacity
    0.4, then lowers the opacity of every ghost by 0.03 and removes those
    that are not positive any more, keeping the order; position and height
    of a ghost never change.  So after a tick every ghost left is positive,
    and in every state reached from a fresh instance every ghost has an
    opacity above 0 and at most 0.4. *)
Theorem ghosts_fade_and_expire (c : Ctx) (s : Sys Blink.State)
    (w : World) (cfg : Blink.BlinkCursorConfig) (es : list Event) :
  (exists new,
      Forall (fun g => Blink.opacity g = 4 # 10) new
      /\ Blink.ghosts (ext (Blink.render c s))
         = filter (fun g => negb (JS.leb (Blink.opacity g) 0))
                  (map Blink.fade (Blink.ghosts (ext s) ++ new)))
  /\ (forall g : Blink.Ghost,
         Blink.x (Blink.fade g) = Blink.x g
         /\ Blink.y (Blink.fade g) = Blink.y g
         /\ Blink.height (Blink.fade g) = Blink.height g
         /\ Blink.opacity (Blink.fade g) = Blink.opacity g - (3 # 100)
         /\ Blink.opacity (Blink.fade g) < Blink.opacity g)
  /\ Forall (fun g => 0 < Blink.opacity g)
            (Blink.ghosts (ext (Blink.render c s)))
  /\ Forall (fun g => 0 < Blink.opacity g /\ Blink.opacity g <= 4 # 10)
            (Blink.ghosts
               (ext (run es (construct w (Blink.initial cfg))))).
Proof.
  repeat match goal with |- _ /\ _ => split end.
  - destruct (blink_render_motion_ghosts s) as (new & Heq & Hnew).
    exists new. split; [exact Hnew |].
    unfold Blink.render. rewrite blink_render_draw_ghosts, Heq. reflexivity.
  - intro g. repeat split. apply fade_opacity.
  - unfold Blink.render. rewrite blink_render_draw_ghosts.
    apply Forall_forall. intros g Hin. apply filter_In in Hin.
    apply alive_pos. apply Hin.
  - apply (run_ext_invariant
             (fun st => Forall ghost_ok (Blink.ghosts st))).
    + apply blink_step_ok.
    + constructor.
Qed.

(** A ghost lives for thirteen ticks: 0.4 - 13 * 0.03 is still positive,
    0.4 - 14 * 0.03 is not. *)
Example ghost_lifetime :
  let g := Blink.mkGhost 0 0 20 (4 # 10) in
  alive (Nat.iter 13 Blink.fade g) = true
  /\ alive (Nat.iter 14 Blink.fade g) = false.
Proof. vm_compute. split; reflexivity. Qed.

(** ** The comet trail *)

Lemma length_tl_snoc {A : Type} (t : list A) (p : A) :
  List.length (tl (t ++ [p])) = List.length t.
Proof.
  destruct t as [| a t]; simpl; [reflexivity |].
  rewrite length_app. simpl. lia.
Qed.

Lemma inject_nat_succ (n : nat) :
  inject_Z (Z.of_nat (S n)) == inject_Z (Z.of_nat n) + 1.
Proof.
  rewrite Nat2Z.inj_succ. unfold Z.succ. rewrite inject_Z_plus. reflexivity.
Qed.

Lemma push_bounded_length (maxLen : Q) (p : Comet.Point)
    (t : list Comet.Point) :
  inject_Z (Z.of_nat (List.length t)) <= maxLen ->
  inject_Z (Z.of_nat (List.length (Comet.push_bounded maxLen p t)))
  <= maxLen.
Proof.
  intro H. unfold Comet.push_bounded, JS.gtb.
  destruct (JS.ltb maxLen _) eqn:E.
  - rewrite length_tl_snoc. exact H.
  - apply JSFacts.ltb_ge in E. exact E.
Qed.

(** On overflow the oldest point goes and the new one is the last. *)
Lemma push_bounded_overflow (maxLen : Q) (p o : Comet.Point)
    (t : list Comet.Point) :
  maxLen < inject_Z (Z.of_nat (List.length (o :: t))) + 1 ->
  Comet.push_bounded maxLen p (o :: t) = t ++ [p].
Proof.
  intro H. unfold Comet.push_bounded, JS.gtb.
  destruct (JS.ltb maxLen _) eqn:E; [reflexivity |].
  apply JSFacts.ltb_ge in E. exfalso.
  rewrite length_app in E. simpl List.length in E.
  rewrite Nat.add_comm in E. simpl Nat.add in E.
  rewrite inject_nat_succ in E. simpl List.length in H. lra.
Qed.

Lemma comet_render_ok (cfg : Comet.CometCursorConfig) (c : Ctx)
    (s : Sys Comet.State) :
  0 <= Comet.tailLength cfg ->
  trail_ok cfg (ext s) -> trail_ok cfg (ext (Comet.render c s)).
Proof.
  intros H0 [Hcfg Hlen]. unfold Comet.render.
  destruct (JS.hypot_gtb _ _ _); simpl; split; try exact Hcfg.
  - unfold trail_length. simpl. rewrite Hcfg.
    apply push_bounded_length. exact Hlen.
  - exact H0.
Qed.

Lemma comet_step_ok (cfg : Comet.CometCursorConfig) (e : Event)
    (s : Sys Comet.State) :
  0 <= Comet.tailLength cfg ->
  trail_ok cfg (ext s) -> trail_ok cfg (ext (step e s)).
Proof.
  intro H0. apply (step_ext_invariant (trail_ok cfg)).
  - intros t H.
    change (trail_ok cfg (ext (Comet.enable t))).
    unfold Comet.enable.
    destruct (canvas (base (base_enable t))); simpl;
      rewrite base_enable_ext; exact H.
  - intros t H.
    change (trail_ok cfg (ext (base_disable t))).
    rewrite base_disable_ext. exact H.
  - intros dx dy t [Hcfg Hlen]. split; [exact Hcfg |].
    unfold trail_length.
    change (inject_Z (Z.of_nat
              (List.length (map (Comet.shift_point dx dy)
                                (Comet.trail (ext t)))))
            <= Comet.tailLength cfg).
    rewrite length_map. exact Hlen.
  - intros u t H. exact H.
  - intros c t H. apply comet_render_ok; assumption.
Qed.

Lemma square_nonneg (a : Q) : 0 <= a * a.
Proof.
  destruct a as [n d]. unfold Qle, Qmult. simpl. rewrite Z.mul_1_r.
  apply Z.square_nonneg.
Qed.


Lemma comet_render_settled (c : Ctx) (s : Sys Comet.State) :
  distance2 (base (Comet.render c s)) <= (2 # 10) * (2 # 10) ->
  Comet.trail (ext (Comet.render c s)) = [].
Proof.
  rewrite comet_render_base. unfold distance2. simpl. intro H.
  unfold Comet.render, JS.hypot_gtb.
  change (JS.ltb (2 # 10) 0) with false. cbv iota.
  apply JSFacts.ltb_ge in H. rewrite H. reflexivity.
Qed.











(** The motion scenario: the target jumps from (0, 0) to (10, 0) with
    smoothing factor 0.2; after one tick current.x is 2 and the trail has
    one entry. *)
Example comet_motion_scenario :
  let b := mkBase None None 0 false false true true 10 0 0 0 20 0 0 in
  let s := mkSys Sample.host b (Comet.initial Comet.default_config) in
  currentX (base (Comet.render fresh_ctx s)) == 2
  /\ List.length (Comet.trail (ext (Comet.render fresh_ctx s))) = 1%nat.
Proof. vm_compute. split; reflexivity. Qed.

(** With twelve points at most, a long glide keeps exactly twelve. *)
Example comet_long_glide :
  List.length (Comet.trail (ext (run Sample.caret_jump Sample.comet)))
  = 12%nat.
Proof. vm_compute. reflexivity. Qed.

(** ** The initialisation latch *)












(** ** The context is there whenever the canvas is *)

Lemma scheduleMeasure_ctx_ready {X : Type} (s : Sys X) :
  ctx_ready s -> ctx_ready (scheduleMeasure s).
Proof.
  unfold ctx_ready, scheduleMeasure.
  destruct (measurePending (base s)); intro H; exact H.
Qed.

Lemma resizeCanvas_ctx_ready {X : Type} (r : DOMRect) (s : Sys X) :
  ctx_ready s -> ctx_ready (resizeCanvas r s).
Proof.
  unfold ctx_ready, resizeCanvas. intro H.
  destruct (canvas (base s)) as [cv |] eqn:Ecv; [| rewrite Ecv; exact H].
  destruct ((width cv =? _)%Z && (height cv =? _)%Z);
    [rewrite Ecv; exact H |].
  simpl. intros _. destruct (ctx (base s)); [discriminate |].
  exfalso. apply H; [discriminate | reflexivity].
Qed.

Lemma write_ctx_ready {X : Type} (m : MeasureResult) (s : Sys X) :
  ctx_ready s -> ctx_ready (write m s).
Proof.
  intro H. unfold write.
  set (s1 := on_base (fun b => set_hasFocus (m_hasFocus m)
                                 (set_measurePending false b)) s).
  assert (H1 : ctx_ready s1) by exact H.
  assert (H2 : ctx_ready match m_rect m with
                         | Some r => on_base (set_needsResize false)
                                       (resizeCanvas r s1)
                         | None => s1
                         end).
  { destruct (m_rect m) as [r |]; [| exact H1].
    exact (resizeCanvas_ctx_ready r s1 H1). }
  destruct (m_coords m) as [c |]; [| exact H2].
  match goal with
  | |- ctx_ready (if initialized (base ?t) then _ else _) =>
      destruct (initialized (base t))
  end; exact H2.
Qed.

Lemma base_enable_ctx_ready {X : Type} (s : Sys X) :
  ctx_ready s -> ctx_ready (base_enable s).
Proof.
  unfold ctx_ready, base_enable. intro H.
  destruct (canvas (base s)) eqn:Ecv; [rewrite Ecv; exact H |].
  unfold scheduleMeasure. simpl.
  destruct (measurePending (base s)); simpl; intros _; discriminate.
Qed.

Lemma base_disable_ctx_ready {X : Type} (s : Sys X) :
  ctx_ready s -> ctx_ready (base_disable s).
Proof.
  unfold ctx_ready. intro H. destruct s as [w b x].
  destruct b as [cvo co fid mp nr ini hf tx ty ux uy ch st sl].
  unfold base_disable. simpl in *.
  destruct (fid =? 0)%Z; destruct cvo; simpl; auto.
Qed.

Lemma step_ctx_ready {X : Type} `{E : Effect X} :
  (forall s, ctx_ready s -> ctx_ready (enable s)) ->
  (forall s, ctx_ready s -> ctx_ready (disable s)) ->
  (forall dx dy s, ctx_ready s -> ctx_ready (onScrollChange dx dy s)) ->
  (forall u s, ctx_ready s -> ctx_ready (onViewUpdate u s)) ->
  (forall c s, ctx_ready s -> ctx_ready (render c s)) ->
  forall (e : Event) (s : Sys X), ctx_ready s -> ctx_ready (step e s).
Proof.
  intros Hen Hdis Hscr Hupd Hren e s HR.
  destruct e as [| t l | u | | t | dpr focus r c |]; simpl.
  - destruct (raf_pending (world s)); [exact HR |].
    unfold loop. simpl.
    destruct (canvas (base s)) eqn:Ecv; [| exact HR].
    destruct (ctx (base s)) as [c0 |] eqn:Ectx; [| exact HR].
    match goal with
    | |- ctx_ready (on_base _ (on_world _ (render ?c ?t))) =>
        assert (H1 : ctx_ready (render c t))
          by (apply Hren; intros _; discriminate);
        exact H1
    end.
  - destruct (scroll_listening (world s)); [| exact HR].
    unfold onScroll. simpl.
    destruct (initialized (base s)); simpl; [| exact HR].
    apply Hscr. exact HR.
  - unfold update. destruct (config_enabled (ext s)).
    + assert (H1 : ctx_ready match canvas (base s) with
                             | Some _ => s
                             | None => enable s
                             end).
      { destruct (canvas (base s)); [exact HR | apply Hen; exact HR]. }
      set (s1 := match canvas (base s) with
                 | Some _ => s
                 | None => enable s
                 end) in *.
      assert (H2 : ctx_ready (if geometryChanged u
                              then on_base (set_needsResize true) s1
                              else s1)).
      { destruct (geometryChanged u); exact H1. }
      set (s2 := if geometryChanged u
                 then on_base (set_needsResize true) s1 else s1) in *.
      destruct (docChanged u || selectionSet u || viewportChanged u
                || geometryChanged u || focusChanged u).
      * apply scheduleMeasure_ctx_ready, Hupd. exact H2.
      * apply Hupd. exact H2.
    + destruct (canvas (base s)); [apply Hdis |]; exact HR.
  - destruct (measure_requests (world s)); [exact HR |].
    apply write_ctx_ready. exact HR.
  - exact HR.
  - exact HR.
  - unfold destroy. apply Hdis. exact HR.
Qed.

Lemma blink_enable_ctx_ready (s : Sys Blink.State) :
  ctx_ready s -> ctx_ready (Blink.enable s).
Proof.
  intro H. pose proof (base_enable_ctx_ready s H) as H1.
  unfold Blink.enable, ctx_ready in *.
  destruct (canvas (base (base_enable s))) eqn:Ecv; simpl.
  - intros _. apply H1. discriminate.
  - intro K. exfalso. apply K. exact Ecv.
Qed.

Lemma blink_render_ctx_ready (c : Ctx) (s : Sys Blink.State) :
  ctx_ready (Blink.render c s).
Proof.
  unfold ctx_ready. intros _. rewrite blink_render_ctx. discriminate.
Qed.

Lemma blink_step_ctx_ready (e : Event) (s : Sys Blink.State) :
  ctx_ready s -> ctx_ready (step e s).
Proof.
  apply step_ctx_ready.
  - apply blink_enable_ctx_ready.
  - intros t H. apply (base_disable_ctx_ready t H).
  - intros dx dy t H. exact H.
  - intros u t H. change (ctx_ready (Blink.onViewUpdate u t)).
    unfold Blink.onViewUpdate.
    destruct (docChanged u || selectionSet u); [| exact H].
    cbv zeta.
    destruct (initialized
                (base (on_ext (Blink.set_lastActivityTime (now (world t)))
                              t))); [| exact H].
    destruct (ctx (base (on_ext (Blink.set_lastActivityTime
                                   (now (world t))) t))) eqn:Ectx.
    + apply blink_render_ctx_ready.
    + unfold ctx_ready. rewrite blink_render_motion_base. simpl.
      exact H.
  - intros c t H. apply blink_render_ctx_ready.
Qed.

Lemma blink_construct_ctx_ready (w : World) (x0 : Blink.State) :
  ctx_ready (construct w x0).
Proof.
  set (s0 := mkSys w (mkBase None None 0 false true false true 0 0 0 0 0
                             (scrollTop w) (scrollLeft w)) x0).
  assert (H0 : ctx_ready s0) by (intro K; exfalso; apply K; reflexivity).
  assert (H1 : ctx_ready (if Blink.enabled (Blink.config x0)
                          then Blink.enable s0 else s0)).
  { destruct (Blink.enabled (Blink.config x0)); [| exact H0].
    apply blink_enable_ctx_ready. exact H0. }
  exact H1.
Qed.

(** In every state reached from a fresh instance, the state that [update]
    hands to [onViewUpdate] has a context: the call [render(this.ctx)] of
    the blink effect never sees [null]. *)
Lemma blink_update_has_ctx (w : World) (cfg : Blink.BlinkCursorConfig)
    (es : list Event) :
  let s := run es (construct w (Blink.initial cfg)) in
  ctx_ready s
  /\ (let s1 := match canvas (base s) with
                | None => Blink.enable s
                | Some _ => s
                end in
      ctx (base s1) <> None).
Proof.
  intro s.
  assert (HR : ctx_ready s).
  { subst s. induction es as [| e es IH] using rev_ind.
    - apply blink_construct_ctx_ready.
    - rewrite run_snoc. apply blink_step_ctx_ready. exact IH. }
  split; [exact HR |].
  destruct (canvas (base s)) eqn:Ecv.
  - apply HR. rewrite Ecv. discriminate.
  - pose proof (blink_enable_ctx_ready s HR) as H1.
    apply H1. unfold Blink.enable.
    destruct (base_enable_canvas s) as (cv & Hcv & _).
    rewrite Hcv. simpl. discriminate.
Qed.

(** ** The two uses of [Math.hypot] *)

(** For a threshold that is not negative, [hypot > r] compares the
    squares. *)
Lemma hypot_gtb_spec (dx dy r : Q) :
  0 <= r ->
  (JS.hypot_gtb dx dy r = true <-> r * r < dx * dx + dy * dy).
Proof.
  intro Hr. unfold JS.hypot_gtb.
  assert (E : JS.ltb r 0 = false) by (apply JSFacts.ltb_ge; exact Hr).
  rewrite E. apply JSFacts.ltb_lt.
Qed.

(** [ceil_hypot dx dy] is the least integer that is at least the square
    root of [dx * dx + dy * dy]. *)
Lemma ceil_hypot_spec (dx dy : Q) :
  let n := JS.ceil_hypot dx dy in
  (0 <= n)%Z
  /\ dx * dx + dy * dy <= inject_Z n * inject_Z n
  /\ (forall m : Z,
        (0 <= m)%Z -> dx * dx + dy * dy <= inject_Z m * inject_Z m ->
        (n <= m)%Z).
Proof.
  intro n. subst n. unfold JS.ceil_hypot.
  set (q := dx * dx + dy * dy).
  assert (Hq : 0 <= q).
  { subst q. pose proof (square_nonneg dx). pose proof (square_nonneg dy).
    lra. }
  assert (Ha : (0 <= Qceiling q)%Z).
  { change 0%Z with (Qceiling 0). apply Qceiling_resp_le. exact Hq. }
  split; [apply Z.sqrt_up_nonneg |]. split.
  - apply Qle_trans with (inject_Z (Qceiling q)); [apply Qle_ceiling |].
    rewrite <- inject_Z_mult. rewrite <- Zle_Qle.
    destruct (Z.eq_dec (Qceiling q) 0) as [E | E].
    + rewrite E. simpl. lia.
    + pose proof (Z.sqrt_up_spec (Qceiling q)) as H.
      cbv zeta in H. unfold Z.square in H.
      assert (0 < Qceiling q)%Z by lia. apply H. assumption.
  - intros m Hm Hle.
    assert (Hc : (Qceiling q <= m * m)%Z).
    { rewrite <- inject_Z_mult in Hle.
      rewrite <- (Qceiling_Z (m * m)). apply Qceiling_resp_le. exact Hle. }
    rewrite <- (Z.sqrt_up_square m Hm).
    apply Z.sqrt_up_le_mono. unfold Z.square. exact Hc.
Qed.

(** ** The lifecycle over event sequences *)

Lemma life_resizeCanvas {X : Type} (r : DOMRect) (s : Sys X) :
  life (resizeCanvas r s) = life s.
Proof.
  unfold resizeCanvas.
  destruct (canvas (base s)) as [cv |] eqn:Ecv; [| reflexivity].
  destruct ((width cv =? _)%Z && (height cv =? _)%Z); [reflexivity |].
  unfold life. simpl. rewrite Ecv.
  destruct (ctx (base s)); reflexivity.
Qed.

Lemma life_write {X : Type} (m : MeasureResult) (s : Sys X) :
  life (write m s)
  = mkLife (l_canvas (life s)) (l_ctx (life s)) (l_frame (life s)) false
           (l_raf (life s)) (l_listening (life s)) (l_canvases (life s))
           (l_requests (life s)).
Proof.
  unfold write.
  set (s1 := on_base (fun b => set_hasFocus (m_hasFocus m)
                                 (set_measurePending false b)) s).
  assert (H2 : life match m_rect m with
                    | Some r => on_base (set_needsResize false)
                                  (resizeCanvas r s1)
                    | None => s1
                    end
               = mkLife (l_canvas (life s)) (l_ctx (life s))
                        (l_frame (life s)) false (l_raf (life s))
                        (l_listening (life s)) (l_canvases (life s))
                        (l_requests (life s))).
  { destruct (m_rect m) as [r |]; [| reflexivity].
    change (life (on_base (set_needsResize false) (resizeCanvas r s1)))
      with (life (resizeCanvas r s1)).
    rewrite life_resizeCanvas. reflexivity. }
  destruct (m_coords m) as [c |]; [| exact H2].
  match goal with
  | |- life (if initialized (base ?t) then _ else _) = _ =>
      destruct (initialized (base t))
  end; exact H2.
Qed.

Lemma life_scheduleMeasure {X : Type} (s : Sys X) :
  life (scheduleMeasure s)
  = mkLife (l_canvas (life s)) (l_ctx (life s)) (l_frame (life s)) true
           (l_raf (life s)) (l_listening (life s)) (l_canvases (life s))
           (if measurePending (base s) then measure_requests (world s)
            else S (measure_requests (world s))).
Proof.
  unfold scheduleMeasure. destruct (measurePending (base s)) eqn:E.
  - unfold life. rewrite E. reflexivity.
  - reflexivity.
Qed.

Lemma scheduleMeasure_lifecycle {X : Type} (s : Sys X) :
  lifecycle_ok (life s) -> lifecycle_ok (life (scheduleMeasure s)).
Proof.
  intros [Hreq Hrest]. rewrite life_scheduleMeasure.
  split; [| exact Hrest]. simpl in *.
  destruct (measurePending (base s)); [exact Hreq | rewrite Hreq; reflexivity].
Qed.

Lemma base_enable_lifecycle {X : Type} (s : Sys X) :
  lifecycle_ok (life s) -> lifecycle_ok (life (base_enable s)).
Proof.
  intros Hok. unfold base_enable.
  destruct (canvas (base s)) as [cv |] eqn:Ecv; [exact Hok |].
  destruct Hok as [Hreq Hrest]. unfold life in Hrest. simpl in Hrest.
  rewrite Ecv in Hrest. simpl in Hrest.
  destruct Hrest as (_ & _ & Hraf & _ & Hcs).
  simpl in Hreq.
  unfold scheduleMeasure. simpl.
  destruct (measurePending (base s)) eqn:Emp; unfold life; simpl;
    rewrite ?Emp, Hraf, Hcs, Hreq; simpl;
    (split; [reflexivity |]); repeat split; discriminate.
Qed.

Lemma base_disable_lifecycle {X : Type} (s : Sys X) :
  lifecycle_ok (life s) ->
  lifecycle_ok (life (base_disable s))
  /\ canvas (base (base_disable s)) = None.
Proof.
  destruct s as [w b x].
  destruct b as [cvo co fid mp nr ini hf tx ty ux uy ch st sl].
  destruct w as [nw dpr vf vr vc stp slf lis cl pos cvs ne rn rp mr].
  unfold lifecycle_ok, life, base_disable. simpl.
  intros [Hreq Hrest].
  destruct cvo as [cv |]; simpl in *.
  - destruct Hrest as (_ & Hfid & Hraf & _ & Hcs).
    destruct (fid =? 0)%Z eqn:Efid; [apply Z.eqb_eq in Efid; contradiction |].
    simpl. rewrite Hraf, Hcs. simpl.
    rewrite Z.eqb_refl, Nat.eqb_refl. simpl. auto 10.
  - destruct Hrest as (Hc & Hfid & Hraf & Hl & Hcs).
    subst fid. simpl. rewrite Hraf, Hcs. auto 10.
Qed.

Lemma step_lifecycle {X : Type} `{N : LifeNeutral X} (e : Event)
    (s : Sys X) :
  lifecycle_ok (life s) -> lifecycle_ok (life (step e s)).
Proof.
  intro Hok.
  destruct e as [| t l | u | | t | dpr focus r c |]; simpl.
  - destruct (raf_pending (world s)) as [| h rest] eqn:Eraf; [exact Hok |].
    unfold loop. simpl.
    destruct Hok as [Hreq Hrest]. unfold life in Hrest. simpl in Hrest.
    destruct (canvas (base s)) as [cv |] eqn:Ecv; simpl in Hrest.
    + destruct Hrest as (Hctx & Hfid & Hraf & Hl & Hcs).
      destruct (ctx (base s)) as [c0 |] eqn:Ectx; [| discriminate].
      rewrite Eraf in Hraf. injection Hraf as _ Hrest'. subst rest.
      set (c1 := clearRect 0 0 _ _ c0).
      set (s0 := on_base (set_ctx (Some c1))
                   (on_world (w_set_raf_pending []) s)).
      assert (Hr : life (render c1 s0) = life s0)
        by (apply neutral_render; discriminate).
      unfold life in Hr. simpl in Hr. injection Hr as H1 H2 H3 H4 H5 H6 H7 H8.
      unfold lifecycle_ok, life. simpl.
      rewrite H1, H2, H4, H5, H6, H7, H8. rewrite Ecv. simpl.
      simpl in Hreq. split; [exact Hreq |].
      repeat split; try assumption; discriminate.
    + destruct Hrest as (_ & _ & Hraf & _). rewrite Eraf in Hraf.
      discriminate.
  - destruct (scroll_listening (world s)); [| exact Hok].
    unfold onScroll. simpl.
    destruct (initialized (base s)); simpl; [| exact Hok].
    rewrite neutral_scroll. exact Hok.
  - unfold update. destruct (config_enabled (ext s)).
    + set (s1 := match canvas (base s) with
                 | Some _ => s
                 | None => enable s
                 end).
      assert (H1 : lifecycle_ok (life s1)).
      { subst s1. destruct (canvas (base s)); [exact Hok |].
        rewrite neutral_enable. apply base_enable_lifecycle. exact Hok. }
      set (s2 := if geometryChanged u
                 then on_base (set_needsResize true) s1 else s1).
      assert (H2 : lifecycle_ok (life s2)).
      { subst s2. destruct (geometryChanged u); exact H1. }
      assert (H3 : lifecycle_ok (life (onViewUpdate u s2))).
      { destruct (neutral_update u s2) as [-> _]. exact H2. }
      destruct (docChanged u || selectionSet u || viewportChanged u
                || geometryChanged u || focusChanged u);
        [apply scheduleMeasure_lifecycle |]; exact H3.
    + destruct (canvas (base s)); [| exact Hok].
      rewrite neutral_disable. apply base_disable_lifecycle. exact Hok.
  - destruct (measure_requests (world s)) as [| n] eqn:Ereq; [exact Hok |].
    rewrite life_write. destruct Hok as [Hreq Hrest].
    simpl in Hreq. rewrite Ereq in Hreq.
    destruct (measurePending (base s)); [| discriminate].
    injection Hreq as ->.
    split; [reflexivity | exact Hrest].
  - exact Hok.
  - exact Hok.
  - unfold destroy. rewrite neutral_disable.
    apply base_disable_lifecycle. exact Hok.
Qed.

Lemma run_lifecycle {X : Type} `{N : LifeNeutral X} (es : list Event)
    (s : Sys X) :
  lifecycle_ok (life s) -> lifecycle_ok (life (run es s)).
Proof.
  intro H. induction es as [| e es IH] using rev_ind; [exact H |].
  rewrite run_snoc. apply step_lifecycle. exact IH.
Qed.

Lemma construct_lifecycle {X : Type} `{N : LifeNeutral X} (w : World)
    (x0 : X) :
  fresh_host w -> lifecycle_ok (life (construct w x0)).
Proof.
  intros (Hraf & Hl & Hcs & Hreq).
  set (s0 := mkSys w (mkBase None None 0 false true false true 0 0 0 0 0
                             (scrollTop w) (scrollLeft w)) x0).
  assert (H0 : lifecycle_ok (life s0)).
  { unfold lifecycle_ok, life. simpl. auto 10. }
  assert (H1 : lifecycle_ok (life (if config_enabled x0
                                   then enable s0 else s0))).
  { destruct (config_enabled x0); [| exact H0].
    rewrite neutral_enable. apply base_enable_lifecycle. exact H0. }
  exact H1.
Qed.

Lemma blink_render_motion_world (s : Sys Blink.State) :
  world (Blink.render_motion s) = world s.
Proof.
  unfold Blink.render_motion. destruct (JS.hypot_gtb _ _ _); reflexivity.
Qed.

Lemma blink_render_world (c : Ctx) (s : Sys Blink.State) :
  world (Blink.render c s) = world s.
Proof.
  unfold Blink.render, Blink.render_draw.
  destruct (Blink.fade_loop _ _ _) as [gs c2]. simpl.
  apply blink_render_motion_world.
Qed.

Lemma blink_render_base (c : Ctx) (s : Sys Blink.State) :
  exists c',
    base (Blink.render c s)
    = set_ctx (Some c')
        (set_currentY
           (Blink.lerp (currentY (base s)) (targetY (base s)) (25 # 100))
           (set_currentX
              (Blink.lerp (currentX (base s)) (targetX (base s)) (25 # 100))
              (base s))).
Proof.
  unfold Blink.render.
  destruct (blink_render_draw_base c (Blink.render_motion s)) as [c' ->].
  rewrite blink_render_motion_base. exists c'. reflexivity.
Qed.

Lemma blink_render_life (c : Ctx) (s : Sys Blink.State) :
  ctx (base s) <> None -> life (Blink.render c s) = life s.
Proof.
  intro H. unfold life. rewrite blink_render_world.
  destruct (blink_render_base c s) as [c' ->]. simpl.
  destruct (ctx (base s)); [reflexivity | contradiction].
Qed.

#[global] Instance comet_neutral : LifeNeutral Comet.State.
Proof.
  constructor.
  - intro s. change (life (Comet.enable s) = life (base_enable s)).
    unfold Comet.enable.
    destruct (canvas (base (base_enable s))) eqn:Ecv; [| reflexivity].
    unfold life. simpl. rewrite Ecv. reflexivity.
  - intro s. reflexivity.
  - intros dx dy s. reflexivity.
  - intros u s. repeat split.
  - intros c s _. change (life (Comet.render c s) = life s).
    unfold Comet.render. destruct (JS.hypot_gtb _ _ _); reflexivity.
Qed.

#[global] Instance blink_neutral : LifeNeutral Blink.State.
Proof.
  constructor.
  - intro s. change (life (Blink.enable s) = life (base_enable s)).
    unfold Blink.enable.
    destruct (canvas (base (base_enable s))) eqn:Ecv; [| reflexivity].
    unfold life. simpl. rewrite Ecv. reflexivity.
  - intro s. reflexivity.
  - intros dx dy s. reflexivity.
  - intros u s.
    change (life (Blink.onViewUpdate u s) = life s
            /\ needsResize (base (Blink.onViewUpdate u s))
               = needsResize (base s)
            /\ world (Blink.onViewUpdate u s) = world s).
    unfold Blink.onViewUpdate.
    destruct (docChanged u || selectionSet u); [| repeat split].
    cbv zeta.
    set (s1 := on_ext (Blink.set_lastActivityTime (now (world s))) s).
    destruct (initialized (base s1)); [| repeat split].
    destruct (ctx (base s1)) as [c |] eqn:Ectx.
    + split; [| split].
      * rewrite blink_render_life by (rewrite Ectx; discriminate).
        reflexivity.
      * destruct (blink_render_base c s1) as [c' ->]. reflexivity.
      * rewrite blink_render_world. reflexivity.
    + split; [| split].
      * unfold life. rewrite blink_render_motion_world,
          blink_render_motion_base. reflexivity.
      * rewrite blink_render_motion_base. reflexivity.
      * rewrite blink_render_motion_world. reflexivity.
  - intros c s H. apply blink_render_life. exact H.
Qed.

Lemma reachable_lifecycle {X : Type} `{N : LifeNeutral X} (w : World)
    (x0 : X) (es : list Event) :
  fresh_host w -> lifecycle_ok (life (run es (construct w x0))).
Proof.
  intro H. apply run_lifecycle, construct_lifecycle. exact H.
Qed.

Lemma lifecycle_requests {X : Type} (s : Sys X) :
  lifecycle_ok (life s) ->
  measure_requests (world s)
  = (if measurePending (base s) then 1%nat else 0%nat)
  /\ (measure_requests (world s) <= 1)%nat.
Proof.
  intros [Hreq _]. simpl in Hreq. split; [exact Hreq |].
  rewrite Hreq. destruct (measurePending (base s)); lia.
Qed.

Lemma lifecycle_resources {X : Type} (s : Sys X) :
  lifecycle_ok (life s) ->
  match canvas (base s) with
  | Some cv =>
      ctx (base s) <> None /\ animationFrameId (base s) <> 0%Z
      /\ raf_pending (world s) = [animationFrameId (base s)]
      /\ scroll_listening (world s) = true
      /\ dom_canvases (world s) = [canvas_id cv]
  | None =>
      ctx (base s) = None /\ animationFrameId (base s) = 0%Z
      /\ raf_pending (world s) = []
      /\ scroll_listening (world s) = false
      /\ dom_canvases (world s) = []
  end.
Proof.
  intros [_ Hrest]. unfold life in Hrest. simpl in Hrest.
  destruct (canvas (base s)) as [cv |]; simpl in Hrest;
    destruct Hrest as (Hc & Hf & Hr & Hl & Hcs);
    destruct (ctx (base s)); try discriminate; repeat split;
    try assumption; discriminate.
Qed.

Lemma scheduleMeasure_requests {X : Type} (s : Sys X) :
  lifecycle_ok (life s) ->
  measure_requests (world (scheduleMeasure s)) = 1%nat.
Proof.
  intros [Hreq _]. simpl in Hreq. unfold scheduleMeasure.
  destruct (measurePending (base s)); simpl; rewrite Hreq; reflexivity.
Qed.

Lemma scheduleMeasure_pending {X : Type} (s : Sys X) :
  measurePending (base (scheduleMeasure s)) = true.
Proof.
  unfold scheduleMeasure.
  destruct (measurePending (base s)) eqn:E; [exact E | reflexivity].
Qed.

(** X1: from construction on a host with nothing queued, and whatever
    events follow, the host holds one measure request of the instance
    exactly while its pending flag is set, and never more than one: further
    requests made while one is in flight are dropped. *)
Theorem measure_requests_coalesced (w : World) (Hfresh : fresh_host w)
    (xc : Comet.State) (xb : Blink.State) (es : list Event) :
  (let s := run es (construct w xc) in
   measure_requests (world s)
   = (if measurePending (base s) then 1%nat else 0%nat)
   /\ (measure_requests (world s) <= 1)%nat
   /\ measure_requests (world (scheduleMeasure (scheduleMeasure s)))
      = 1%nat)
  /\ (let s := run es (construct w xb) in
      measure_requests (world s)
      = (if measurePending (base s) then 1%nat else 0%nat)
      /\ (measure_requests (world s) <= 1)%nat
      /\ measure_requests (world (scheduleMeasure (scheduleMeasure s)))
         = 1%nat).
Proof.
  split; intro s.
  - pose proof (reachable_lifecycle w xc es Hfresh) as Hok. fold s in Hok.
    destruct (lifecycle_requests s Hok) as [H1 H2].
    repeat split; try assumption.
    apply scheduleMeasure_requests, scheduleMeasure_lifecycle. exact Hok.
  - pose proof (reachable_lifecycle w xb es Hfresh) as Hok. fold s in Hok.
    destruct (lifecycle_requests s Hok) as [H1 H2].
    repeat split; try assumption.
    apply scheduleMeasure_requests, scheduleMeasure_lifecycle. exact Hok.
Qed.

Lemma measure_requests_coalesced_witness :
  (measure_requests
     (world (run Sample.caret_jump
               (construct Sample.host
                  (Comet.initial Comet.default_config)))) <= 1)%nat.
Proof.
  assert (Hf : fresh_host Sample.host) by (repeat split).
  exact (proj1 (proj2 (proj1
           (measure_requests_coalesced
              Sample.host Hf (Comet.initial Comet.default_config)
              (Blink.initial Blink.default_config) Sample.caret_jump)))).
Defined.

(** X2: from construction on a host where the instance has nothing, and
    whatever events follow, the instance is in one of two states.  With a
    canvas: it has a context, its frame handle is not zero and is the one
    frame the host has pending, its scroll listener is attached and its
    canvas is the one canvas in the DOM.  Without a canvas: no context,
    handle zero, no frame pending, no listener, no canvas in the DOM. *)
Theorem one_overlay_one_loop (w : World) (Hfresh : fresh_host w)
    (xc : Comet.State) (xb : Blink.State) (es : list Event) :
  (let s := run es (construct w xc) in
   match canvas (base s) with
   | Some cv =>
       ctx (base s) <> None /\ animationFrameId (base s) <> 0%Z
       /\ raf_pending (world s) = [animationFrameId (base s)]
       /\ scroll_listening (world s) = true
       /\ dom_canvases (world s) = [canvas_id cv]
   | None =>
       ctx (base s) = None /\ animationFrameId (base s) = 0%Z
       /\ raf_pending (world s) = []
       /\ scroll_listening (world s) = false
       /\ dom_canvases (world s) = []
   end)
  /\ (let s := run es (construct w xb) in
      match canvas (base s) with
      | Some cv =>
          ctx (base s) <> None /\ animationFrameId (base s) <> 0%Z
          /\ raf_pending (world s) = [animationFrameId (base s)]
          /\ scroll_listening (world s) = true
          /\ dom_canvases (world s) = [canvas_id cv]
      | None =>
          ctx (base s) = None /\ animationFrameId (base s) = 0%Z
          /\ raf_pending (world s) = []
          /\ scroll_listening (world s) = false
          /\ dom_canvases (world s) = []
      end).
Proof.
  split; intro s; apply lifecycle_resources; subst s;
    apply reachable_lifecycle; exact Hfresh.
Qed.

Lemma one_overlay_one_loop_witness :
  let s := run Sample.caret_jump
             (construct Sample.host (Comet.initial Comet.default_config)) in
  match canvas (base s) with
  | Some cv =>
      ctx (base s) <> None /\ animationFrameId (base s) <> 0%Z
      /\ raf_pending (world s) = [animationFrameId (base s)]
      /\ scroll_listening (world s) = true
      /\ dom_canvases (world s) = [canvas_id cv]
  | None =>
      ctx (base s) = None /\ animationFrameId (base s) = 0%Z
      /\ raf_pending (world s) = []
      /\ scroll_listening (world s) = false
      /\ dom_canvases (world s) = []
  end.
Proof.
  assert (Hf : fresh_host Sample.host) by (repeat split).
  exact (proj1 (one_overlay_one_loop
                  Sample.host Hf (Comet.initial Comet.default_config)
                  (Blink.initial Blink.default_config) Sample.caret_jump)).
Defined.

Lemma class_mem_remove (c : string) (l : list string) :
  class_mem c (class_remove c l) = false.
Proof.
  unfold class_mem, class_remove. induction l as [| d l IH]; simpl;
    [reflexivity |].
  destruct (String.eqb c d) eqn:E; simpl; [exact IH |].
  rewrite E. simpl. exact IH.
Qed.


Lemma base_disable_class {X : Type} (s : Sys X) :
  class_mem ENABLED_CLASS (dom_classList (world (base_disable s))) = false.
Proof.
  unfold base_disable. simpl. apply class_mem_remove.
Qed.





Lemma base_disable_canvas {X : Type} (s : Sys X) :
  canvas (base (base_disable s)) = None.
Proof.
  destruct s as [w b x].
  destruct b as [cvo co fid mp nr ini hf tx ty ux uy ch st sl].
  unfold base_disable. simpl.
  destruct (fid =? 0)%Z; destruct cvo; reflexivity.
Qed.

Lemma life_canvas_some {X : Type} (s : Sys X) :
  l_canvas (life s) <> None <-> canvas (base s) <> None.
Proof.
  unfold life. simpl. destruct (canvas (base s)); simpl; split; intro H;
    try discriminate; exfalso; apply H; reflexivity.
Qed.

(** After an update notification the overlay is there exactly when the
    configuration says so. *)
Lemma update_canvas_iff {X : Type} `{N : LifeNeutral X} (u : ViewUpdate)
    (s : Sys X) :
  canvas (base (update u s)) <> None <-> config_enabled (ext s) = true.
Proof.
  rewrite <- life_canvas_some. unfold update.
  destruct (config_enabled (ext s)).
  - set (s1 := match canvas (base s) with
               | Some _ => s
               | None => enable s
               end).
    assert (H1 : l_canvas (life s1) <> None).
    { subst s1. destruct (canvas (base s)) eqn:Ecv.
      - apply life_canvas_some. rewrite Ecv. discriminate.
      - rewrite neutral_enable. apply life_canvas_some.
        destruct (base_enable_canvas s) as (cv & -> & _). discriminate. }
    set (s2 := if geometryChanged u
               then on_base (set_needsResize true) s1 else s1).
    assert (H2 : l_canvas (life s2) <> None).
    { subst s2. destruct (geometryChanged u); exact H1. }
    assert (H3 : l_canvas (life (onViewUpdate u s2)) <> None).
    { destruct (neutral_update u s2) as [-> _]. exact H2. }
    split; [reflexivity | intros _].
    destruct (docChanged u || selectionSet u || viewportChanged u
              || geometryChanged u || focusChanged u); [| exact H3].
    rewrite life_scheduleMeasure. exact H3.
  - split; [| discriminate]. intro H. exfalso. apply H.
    destruct (canvas (base s)) eqn:Ecv.
    + rewrite neutral_disable. unfold life. cbn [l_canvas].
      rewrite base_disable_canvas. reflexivity.
    + unfold life. cbn [l_canvas]. rewrite Ecv. reflexivity.
Qed.

(** X4: after an update notification the overlay canvas exists exactly
    when the configuration has [enabled] set, whatever the state was
    before; so a configuration update that changes [enabled] takes effect
    at the next notification, and leaving [enabled] out of the update keeps
    the old setting. *)
Theorem update_follows_configuration (u : ViewUpdate)
    (sc : Sys Comet.State) (nc : Comet.PartialConfig)
    (sb : Sys Blink.State) (nb : Blink.PartialConfig) :
  (canvas (base (update u sc)) <> None
   <-> Comet.enabled (Comet.config (ext sc)) = true)
  /\ (canvas (base (update u (comet_configure nc sc))) <> None
      <-> match Comet.p_enabled nc with
          | Some e => e = true
          | None => Comet.enabled (Comet.config (ext sc)) = true
          end)
  /\ (canvas (base (update u sb)) <> None
      <-> Blink.enabled (Blink.config (ext sb)) = true)
  /\ (canvas (base (update u (blink_configure nb sb))) <> None
      <-> match Blink.p_enabled nb with
          | Some e => e = true
          | None => Blink.enabled (Blink.config (ext sb)) = true
          end).
Proof.
  split; [| split; [| split]].
  - exact (update_canvas_iff u sc).
  - rewrite (update_canvas_iff u (comet_configure nc sc)). simpl.
    destruct (Comet.p_enabled nc); reflexivity.
  - exact (update_canvas_iff u sb).
  - rewrite (update_canvas_iff u (blink_configure nb sb)). simpl.
    destruct (Blink.p_enabled nb); reflexivity.
Qed.

Lemma resizeCanvas_dims {X : Type} (r : DOMRect) (s : Sys X) (cv : Canvas) :
  canvas (base s) = Some cv ->
  exists cv',
    canvas (base (resizeCanvas r s)) = Some cv'
    /\ width cv' = JS.max1_floor (r_width r * effective_dpr (world s))
    /\ height cv' = JS.max1_floor (r_height r * effective_dpr (world s)).
Proof.
  intro Hcv. unfold resizeCanvas. rewrite Hcv.
  destruct ((width cv =? _)%Z && (height cv =? _)%Z) eqn:E.
  - apply andb_true_iff in E. destruct E as [Ew Eh].
    apply Z.eqb_eq in Ew, Eh. exists cv. auto.
  - eexists. simpl. repeat split.
Qed.

Lemma write_with_rect {X : Type} (m : MeasureResult) (r : DOMRect)
    (s : Sys X) (cv : Canvas) :
  m_rect m = Some r -> canvas (base s) = Some cv ->
  needsResize (base (write m s)) = false
  /\ exists cv',
       canvas (base (write m s)) = Some cv'
       /\ width cv' = JS.max1_floor (r_width r * effective_dpr (world s))
       /\ height cv' = JS.max1_floor (r_height r * effective_dpr (world s)).
Proof.
  intros Hr Hcv. unfold write. rewrite Hr.
  set (s1 := on_base (fun b => set_hasFocus (m_hasFocus m)
                                 (set_measurePending false b)) s).
  destruct (resizeCanvas_dims r s1 cv Hcv) as (cv' & Hcv' & Hw & Hh).
  assert (H2 : needsResize
                 (base (on_base (set_needsResize false) (resizeCanvas r s1)))
               = false
               /\ canvas
                    (base (on_base (set_needsResize false)
                                   (resizeCanvas r s1))) = Some cv').
  { split; [reflexivity | exact Hcv']. }
  destruct H2 as [Hn Hc].
  destruct (m_coords m) as [c |].
  - match goal with
    | |- context [if initialized (base ?t) then _ else _] =>
        destruct (initialized (base t))
    end; (split; [exact Hn | exists cv'; auto]).
  - split; [exact Hn | exists cv'; auto].
Qed.

Lemma resizeCanvas_cases {X : Type} (r : DOMRect) (s : Sys X)
    (cv : Canvas) (c : Ctx) :
  canvas (base s) = Some cv -> ctx (base s) = Some c ->
  resized_to r (effective_dpr (world s)) (base s)
             (base (resizeCanvas r s)).
Proof.
  intros Hcv Hctx. unfold resized_to, resizeCanvas. rewrite Hcv.
  cbv zeta. unfold JS.max1_floor.
  destruct ((width cv =? _)%Z && (height cv =? _)%Z) eqn:E.
  - apply andb_true_iff in E. destruct E as [Ew Eh].
    apply Z.eqb_eq in Ew, Eh.
    exists cv, cv. rewrite Hcv. repeat split; try assumption.
    left. repeat split.
  - exists cv. eexists. split; [reflexivity |].
    unfold on_base. cbn [base canvas ctx set_ctx set_canvas].
    split; [reflexivity |].
    cbn [width height canvas_id className style_width style_height].
    repeat split.
    right. split.
    + apply andb_false_iff in E. destruct E as [E | E];
        apply Z.eqb_neq in E; [left | right]; exact E.
    + split; [reflexivity |]. split; [reflexivity |].
      exists c. rewrite Hctx. split; reflexivity.
Qed.

(** The coordinate part of [write] leaves canvas and context alone. *)
Lemma write_canvas_ctx {X : Type} (m : MeasureResult) (r : DOMRect)
    (s : Sys X) :
  m_rect m = Some r ->
  let s1 := on_base (fun b => set_hasFocus (m_hasFocus m)
                                (set_measurePending false b)) s in
  canvas (base (write m s)) = canvas (base (resizeCanvas r s1))
  /\ ctx (base (write m s)) = ctx (base (resizeCanvas r s1))
  /\ needsResize (base (write m s)) = false.
Proof.
  intros Hr s1. unfold write. rewrite Hr. fold s1.
  destruct (m_coords m) as [c |].
  - match goal with
    | |- context [if initialized (base ?t) then _ else _] =>
        destruct (initialized (base t))
    end; repeat split.
  - repeat split.
Qed.

(** An update notification with [geometryChanged] is followed by a resize
    at the next measure, focused or not. *)
Lemma geometry_change_resizes {X : Type} `{N : LifeNeutral X}
    (u : ViewUpdate) (s : Sys X) :
  lifecycle_ok (life s) -> config_enabled (ext s) = true ->
  geometryChanged u = true ->
  let s1 := update u s in
  let s2 := step Measure s1 in
  needsResize (base s1) = true
  /\ measure_requests (world s1) = 1%nat
  /\ needsResize (base s2) = false
  /\ resized_to (view_rect (world s1)) (effective_dpr (world s1))
                (base s1) (base s2).
Proof.
  intros Hok Hen Hgeo s1 s2.
  assert (Hok1 : lifecycle_ok (life s1))
    by (apply (step_lifecycle (Update u)); exact Hok).
  assert (Hcv1 : canvas (base s1) <> None)
    by (apply update_canvas_iff; exact Hen).
  assert (Hshape : exists t,
             s1 = scheduleMeasure (onViewUpdate u t)
             /\ needsResize (base t) = true).
  { subst s1. unfold update. rewrite Hen, Hgeo.
    replace (docChanged u || selectionSet u || viewportChanged u
             || true || focusChanged u) with true
      by (destruct (docChanged u), (selectionSet u), (viewportChanged u),
            (focusChanged u); reflexivity).
    eexists. split; reflexivity. }
  destruct Hshape as (t & Hs1 & Ht).
  assert (Hnr : needsResize (base s1) = true).
  { rewrite Hs1. unfold scheduleMeasure.
    destruct (neutral_update u t) as (_ & Hn & _).
    destruct (measurePending (base (onViewUpdate u t))); simpl;
      rewrite Hn; exact Ht. }
  assert (Hreq : measure_requests (world s1) = 1%nat).
  { destruct (lifecycle_requests s1 Hok1) as [H _]. rewrite H.
    rewrite Hs1, scheduleMeasure_pending. reflexivity. }
  split; [exact Hnr |]. split; [exact Hreq |].
  pose proof (lifecycle_resources s1 Hok1) as Hres.
  destruct (canvas (base s1)) as [cv |] eqn:Ecv;
    [| exfalso; apply Hcv1; reflexivity].
  destruct Hres as (Hctx & _).
  destruct (ctx (base s1)) as [c |] eqn:Ectx;
    [| exfalso; apply Hctx; reflexivity].
  subst s2. unfold step. rewrite Hreq, Hnr.
  set (m := read true (world s1)).
  set (s1' := on_world (w_set_measure_requests 0) s1).
  assert (Hr : m_rect m = Some (view_rect (world s1))) by reflexivity.
  destruct (write_canvas_ctx m (view_rect (world s1)) s1' Hr)
    as (Hc2 & Hx2 & Hn2).
  cbv zeta in Hc2, Hx2.
  split; [exact Hn2 |].
  pose proof (resizeCanvas_cases (view_rect (world s1))
                (on_base (fun b => set_hasFocus (m_hasFocus m)
                                     (set_measurePending false b)) s1')
                cv c Ecv Ectx) as Hres.
  unfold resized_to in *.
  destruct Hres as (cv1 & cv2 & H1 & H2 & Hrest).
  exists cv1, cv2.
  rewrite Hc2, Hx2.
  split; [| split; [exact H2 | exact Hrest]].
  exact H1.
Qed.

(** X5: when an enabled instance, in any state reached from construction
    on a fresh host, is notified of a geometry change, the resize flag is
    set and one measure is queued; that measure samples the editor's
    rectangle whether or not the editor has focus, clears the flag, and
    leaves the backing store at max(1, floor(size * dpr)).  If the
    backing store had that size already, canvas and context are left as
    they were, so the CSS size is not brought up to date; otherwise the
    canvas gets the rectangle's CSS size and the context is reset and
    scaled by dpr. *)
Theorem geometry_change_leads_to_resize (w : World) (Hfresh : fresh_host w)
    (xc : Comet.State) (xb : Blink.State) (es : list Event)
    (u : ViewUpdate) (Hgeo : geometryChanged u = true)
    (Hc : Comet.enabled (Comet.config (ext (run es (construct w xc))))
          = true)
    (Hb : Blink.enabled (Blink.config (ext (run es (construct w xb))))
          = true) :
  (let s1 := update u (run es (construct w xc)) in
   let s2 := step Measure s1 in
   needsResize (base s1) = true
   /\ measure_requests (world s1) = 1%nat
   /\ needsResize (base s2) = false
   /\ resized_to (view_rect (world s1)) (effective_dpr (world s1))
                 (base s1) (base s2))
  /\ (let s1 := update u (run es (construct w xb)) in
      let s2 := step Measure s1 in
      needsResize (base s1) = true
      /\ measure_requests (world s1) = 1%nat
      /\ needsResize (base s2) = false
      /\ resized_to (view_rect (world s1)) (effective_dpr (world s1))
                    (base s1) (base s2)).
Proof.
  split.
  - exact (geometry_change_resizes u _
             (reachable_lifecycle w xc es Hfresh) Hc Hgeo).
  - exact (geometry_change_resizes u _
             (reachable_lifecycle w xb es Hfresh) Hb Hgeo).
Qed.

Lemma geometry_change_leads_to_resize_witness :
  let s1 := update (mkViewUpdate false false false true false)
              (run []
                 (construct Sample.host
                    (Comet.initial Comet.default_config))) in
  let s2 := step Measure s1 in
  needsResize (base s1) = true
  /\ measure_requests (world s1) = 1%nat
  /\ needsResize (base s2) = false
  /\ resized_to (view_rect (world s1)) (effective_dpr (world s1))
                (base s1) (base s2).
Proof.
  assert (Hf : fresh_host Sample.host) by (repeat split).
  assert (Hc : Comet.enabled
                 (Comet.config
                    (ext (run []
                            (construct Sample.host
                               (Comet.initial Comet.default_config)))))
               = true) by (vm_compute; reflexivity).
  assert (Hb : Blink.enabled
                 (Blink.config
                    (ext (run []
                            (construct Sample.host
                               (Blink.initial
                                  (Blink.mkConfig true "#ff0000"))))))
               = true) by (vm_compute; reflexivity).
  exact (proj1 (geometry_change_leads_to_resize
                  Sample.host Hf (Comet.initial Comet.default_config)
                  (Blink.initial (Blink.mkConfig true "#ff0000"))
                  []
                  (mkViewUpdate false false false true false) eq_refl
                  Hc Hb)).
Defined.

(** The first measure of the sample editor resizes the fresh 300 x 150
    canvas to 800 x 600 with that CSS size.  When the editor then grows to
    800.5 x 600.5, the scaled size is the same, nothing is assigned, and
    the CSS size stays at 800 x 600. *)
Example css_size_lags_behind :
  let grow := [View 1 true (mkDOMRect 0 0 (1601 # 2) (1201 # 2))
                    (Some (mkCaretPos 100 50 70));
               Update (mkViewUpdate false false false true false);
               Measure] in
  let s1 := run [Measure] Sample.comet in
  let s2 := run grow s1 in
  option_map style_width (canvas (base Sample.comet)) = Some (Percent 100)
  /\ option_map style_width (canvas (base s1)) = Some (Px 800)
  /\ option_map style_height (canvas (base s1)) = Some (Px 600)
  /\ needsResize (base s2) = false
  /\ r_width (view_rect (world s2)) = 1601 # 2
  /\ option_map style_width (canvas (base s2)) = Some (Px 800)
  /\ option_map style_height (canvas (base s2)) = Some (Px 600).
Proof. vm_compute. repeat split. Qed.

(** ** Scrolling: only the final offsets matter *)

Lemma run_cons {X : Type} `{E : Effect X} (e : Event) (es : list Event)
    (s : Sys X) :
  run (e :: es) s = run es (step e s).
Proof. reflexivity. Qed.

Lemma step_scroll_initialized {X : Type} `{E : Effect X} (t l : Q)
    (s : Sys X) :
  initialized (base s) = true -> scroll_listening (world s) = true ->
  step (Scroll t l) s = onScroll (on_world (w_scroll_to t l) s).
Proof. intros _ Hl. simpl. rewrite Hl. reflexivity. Qed.

(** The shared fields after one scroll event that the handler takes. *)
Lemma step_scroll_base {X : Type} `{E : Effect X}
    (Hhook : forall dx dy (t : Sys X),
        base (onScrollChange dx dy t) = base t
        /\ world (onScrollChange dx dy t) = world t)
    (p : Q * Q) (s : Sys X) :
  initialized (base s) = true -> scroll_listening (world s) = true ->
  let s1 := step (Scroll (fst p) (snd p)) s in
  targetX (base s1) = targetX (base s) - (snd p - lastScrollLeft (base s))
  /\ targetY (base s1) = targetY (base s) - (fst p - lastScrollTop (base s))
  /\ currentX (base s1)
     = currentX (base s) - (snd p - lastScrollLeft (base s))
  /\ currentY (base s1)
     = currentY (base s) - (fst p - lastScrollTop (base s))
  /\ lastScrollLeft (base s1) = snd p
  /\ lastScrollTop (base s1) = fst p
  /\ initialized (base s1) = true
  /\ scroll_listening (world s1) = true.
Proof.
  intros Hi Hl s1. subst s1.
  rewrite step_scroll_initialized by assumption.
  set (s0 := on_world (w_scroll_to (fst p) (snd p)) s).
  destruct (onScroll_base s0 (fun dx dy t => proj1 (Hhook dx dy t)) Hi)
    as (Htx & Hty & Hcx & Hcy & Hll & Hlt & _ & Hini).
  cbv zeta in *.
  repeat split; try assumption.
  unfold onScroll.
  change (initialized (base s0)) with (initialized (base s)).
  rewrite Hi. simpl negb. cbv iota.
  match goal with
  | |- scroll_listening (world (onScrollChange ?a ?b ?t)) = true =>
      destruct (Hhook a b t) as [_ Hw]; rewrite Hw
  end.
  exact Hl.
Qed.

(** The shared fields after a burst of scroll events. *)
Lemma scrolls_base {X : Type} `{E : Effect X}
    (Hhook : forall dx dy (t : Sys X),
        base (onScrollChange dx dy t) = base t
        /\ world (onScrollChange dx dy t) = world t)
    (ps : list (Q * Q)) :
  forall (p : Q * Q) (s : Sys X),
    initialized (base s) = true -> scroll_listening (world s) = true ->
    let s' := run (scroll_events (ps ++ [p])) s in
    let dx := snd p - lastScrollLeft (base s) in
    let dy := fst p - lastScrollTop (base s) in
    targetX (base s') == targetX (base s) - dx
    /\ targetY (base s') == targetY (base s) - dy
    /\ currentX (base s') == currentX (base s) - dx
    /\ currentY (base s') == currentY (base s) - dy
    /\ lastScrollLeft (base s') = snd p
    /\ lastScrollTop (base s') = fst p
    /\ initialized (base s') = true
    /\ scroll_listening (world s') = true.
Proof.
  induction ps as [| p1 ps IH]; intros p s Hi Hl.
  - simpl app. unfold scroll_events. simpl map.
    change (run [Scroll (fst p) (snd p)] s)
      with (step (Scroll (fst p) (snd p)) s).
    destruct (step_scroll_base Hhook p s Hi Hl)
      as (Htx & Hty & Hcx & Hcy & Hll & Hlt & Hini & Hlis).
    cbv zeta in *. rewrite Htx, Hty, Hcx, Hcy.
    repeat split; try assumption; reflexivity.
  - simpl app. unfold scroll_events in *. simpl map. rewrite run_cons.
    set (s1 := step (Scroll (fst p1) (snd p1)) s).
    destruct (step_scroll_base Hhook p1 s Hi Hl)
      as (Htx & Hty & Hcx & Hcy & Hll & Hlt & Hini & Hlis).
    fold s1 in Htx, Hty, Hcx, Hcy, Hll, Hlt, Hini, Hlis.
    destruct (IH p s1 Hini Hlis)
      as (Ktx & Kty & Kcx & Kcy & Kll & Klt & Kini & Klis).
    cbv zeta in *.
    rewrite Htx, Hty, Hcx, Hcy, Hll, Hlt in *.
    repeat split; try assumption.
    + rewrite Ktx. ring.
    + rewrite Kty. ring.
    + rewrite Kcx. ring.
    + rewrite Kcy. ring.
Qed.

Lemma Forall2_map_self {A : Type} (R : A -> A -> Prop) (f : A -> A)
    (l : list A) :
  (forall b, R (f b) b) -> Forall2 R (map f l) l.
Proof.
  intro H. induction l as [| b l IH]; simpl; constructor; auto.
Qed.

Lemma Forall2_through_map {A : Type} (R R' : A -> A -> Prop) (f : A -> A)
    (l : list A) :
  (forall a b, R' a (f b) -> R a b) ->
  forall l', Forall2 R' l' (map f l) -> Forall2 R l' l.
Proof.
  intro H. induction l as [| b l IH]; intros l' HF; simpl in HF;
    inversion HF; subst; constructor; auto.
Qed.

Lemma comet_scroll_hook (dx dy : Q) (t : Sys Comet.State) :
  base (onScrollChange dx dy t) = base t
  /\ world (onScrollChange dx dy t) = world t.
Proof. split; reflexivity. Qed.

Lemma blink_scroll_hook (dx dy : Q) (t : Sys Blink.State) :
  base (onScrollChange dx dy t) = base t
  /\ world (onScrollChange dx dy t) = world t.
Proof. split; reflexivity. Qed.

Lemma comet_step_scroll_trail (p : Q * Q) (s : Sys Comet.State) :
  initialized (base s) = true -> scroll_listening (world s) = true ->
  Comet.trail (ext (step (Scroll (fst p) (snd p)) s))
  = map (Comet.shift_point (snd p - lastScrollLeft (base s))
                           (fst p - lastScrollTop (base s)))
        (Comet.trail (ext s)).
Proof.
  intros Hi Hl. rewrite step_scroll_initialized by assumption.
  unfold onScroll.
  change (initialized (base (on_world (w_scroll_to (fst p) (snd p)) s)))
    with (initialized (base s)).
  rewrite Hi. reflexivity.
Qed.

Lemma comet_scrolls_trail (ps : list (Q * Q)) :
  forall (p : Q * Q) (s : Sys Comet.State),
    initialized (base s) = true -> scroll_listening (world s) = true ->
    Forall2 (fun q q0 =>
               Comet.x q == Comet.x q0 - (snd p - lastScrollLeft (base s))
               /\ Comet.y q
                  == Comet.y q0 - (fst p - lastScrollTop (base s)))
            (Comet.trail (ext (run (scroll_events (ps ++ [p])) s)))
            (Comet.trail (ext s)).
Proof.
  induction ps as [| p1 ps IH]; intros p s Hi Hl.
  - simpl app. unfold scroll_events. simpl map.
    change (run [Scroll (fst p) (snd p)] s)
      with (step (Scroll (fst p) (snd p)) s).
    rewrite comet_step_scroll_trail by assumption.
    apply Forall2_map_self. intro b. simpl. split; reflexivity.
  - simpl app. unfold scroll_events in *. simpl map. rewrite run_cons.
    set (s1 := step (Scroll (fst p1) (snd p1)) s).
    destruct (step_scroll_base comet_scroll_hook p1 s Hi Hl)
      as (_ & _ & _ & _ & Hll & Hlt & Hini & Hlis).
    fold s1 in Hll, Hlt, Hini, Hlis.
    pose proof (IH p s1 Hini Hlis) as HF.
    rewrite Hll, Hlt in HF.
    assert (Ht : Comet.trail (ext s1)
                 = map (Comet.shift_point
                          (snd p1 - lastScrollLeft (base s))
                          (fst p1 - lastScrollTop (base s)))
                       (Comet.trail (ext s)))
      by (apply comet_step_scroll_trail; assumption).
    rewrite Ht in HF.
    eapply Forall2_through_map; [| exact HF].
    intros a b [Hx Hy]. simpl in Hx, Hy. split.
    + rewrite Hx. ring.
    + rewrite Hy. ring.
Qed.

Lemma blink_step_scroll_ext (p : Q * Q) (s : Sys Blink.State) :
  initialized (base s) = true -> scroll_listening (world s) = true ->
  let dx := snd p - lastScrollLeft (base s) in
  let dy := fst p - lastScrollTop (base s) in
  let s1 := step (Scroll (fst p) (snd p)) s in
  Blink.ghosts (ext s1) = map (Blink.shift_ghost dx dy) (Blink.ghosts (ext s))
  /\ Blink.lastX (ext s1) = Blink.lastX (ext s) - dx
  /\ Blink.lastY (ext s1) = Blink.lastY (ext s) - dy.
Proof.
  intros Hi Hl dx dy s1. subst s1.
  rewrite step_scroll_initialized by assumption.
  unfold onScroll.
  change (initialized (base (on_world (w_scroll_to (fst p) (snd p)) s)))
    with (initialized (base s)).
  rewrite Hi. repeat split.
Qed.

Lemma blink_scrolls_ext (ps : list (Q * Q)) :
  forall (p : Q * Q) (s : Sys Blink.State),
    initialized (base s) = true -> scroll_listening (world s) = true ->
    let dx := snd p - lastScrollLeft (base s) in
    let dy := fst p - lastScrollTop (base s) in
    let s' := run (scroll_events (ps ++ [p])) s in
    Forall2 (fun g g0 =>
               Blink.x g == Blink.x g0 - dx /\ Blink.y g == Blink.y g0 - dy
               /\ Blink.height g = Blink.height g0
               /\ Blink.opacity g = Blink.opacity g0)
            (Blink.ghosts (ext s')) (Blink.ghosts (ext s))
    /\ Blink.lastX (ext s') == Blink.lastX (ext s) - dx
    /\ Blink.lastY (ext s') == Blink.lastY (ext s) - dy.
Proof.
  induction ps as [| p1 ps IH]; intros p s Hi Hl.
  - simpl app. unfold scroll_events. simpl map.
    change (run [Scroll (fst p) (snd p)] s)
      with (step (Scroll (fst p) (snd p)) s).
    destruct (blink_step_scroll_ext p s Hi Hl) as (Hg & Hx & Hy).
    cbv zeta in *. rewrite Hg, Hx, Hy.
    split; [| split; reflexivity].
    apply Forall2_map_self. intro b. simpl. repeat split; reflexivity.
  - simpl app. unfold scroll_events in *. simpl map. rewrite run_cons.
    set (s1 := step (Scroll (fst p1) (snd p1)) s).
    destruct (step_scroll_base blink_scroll_hook p1 s Hi Hl)
      as (_ & _ & _ & _ & Hll & Hlt & Hini & Hlis).
    fold s1 in Hll, Hlt, Hini, Hlis.
    destruct (blink_step_scroll_ext p1 s Hi Hl) as (Hg & Hx & Hy).
    fold s1 in Hg, Hx, Hy.
    destruct (IH p s1 Hini Hlis) as (KF & Kx & Ky).
    cbv zeta in *.
    rewrite Hll, Hlt in *. rewrite Hg in KF. rewrite Hx in Kx.
    rewrite Hy in Ky.
    split; [| split].
    + eapply Forall2_through_map; [| exact KF].
      intros a b (Ha & Hb & Hh & Ho). simpl in Ha, Hb, Hh, Ho.
      repeat split; try assumption.
      * rewrite Ha. ring.
      * rewrite Hb. ring.
    + rewrite Kx. ring.
    + rewrite Ky. ring.
Qed.

(** X6: while the plugin is initialised and listening, a burst of scroll
    events has the effect of one jump from the recorded baseline to the
    last offsets: target, current, every trail point (comet), every ghost
    and the spawn point (blink) end at their old value minus (last offsets
    minus baseline), whatever route the scrolling took, and the baseline
    ends at the last offsets.  Scrolling away and back to the baseline
    therefore puts everything back. *)
Theorem scrolling_is_path_independent
    (sc : Sys Comet.State) (sb : Sys Blink.State)
    (ps : list (Q * Q)) (p : Q * Q)
    (Hci : initialized (base sc) = true)
    (Hcl : scroll_listening (world sc) = true)
    (Hbi : initialized (base sb) = true)
    (Hbl : scroll_listening (world sb) = true) :
  (let s' := run (scroll_events (ps ++ [p])) sc in
   let dx := snd p - lastScrollLeft (base sc) in
   let dy := fst p - lastScrollTop (base sc) in
   targetX (base s') == targetX (base sc) - dx
   /\ targetY (base s') == targetY (base sc) - dy
   /\ currentX (base s') == currentX (base sc) - dx
   /\ currentY (base s') == currentY (base sc) - dy
   /\ lastScrollLeft (base s') = snd p /\ lastScrollTop (base s') = fst p
   /\ Forall2 (fun q q0 =>
                 Comet.x q == Comet.x q0 - dx /\ Comet.y q == Comet.y q0 - dy)
              (Comet.trail (ext s')) (Comet.trail (ext sc)))
  /\ (let s' := run (scroll_events (ps ++ [p])) sb in
      let dx := snd p - lastScrollLeft (base sb) in
      let dy := fst p - lastScrollTop (base sb) in
      targetX (base s') == targetX (base sb) - dx
      /\ targetY (base s') == targetY (base sb) - dy
      /\ currentX (base s') == currentX (base sb) - dx
      /\ currentY (base s') == currentY (base sb) - dy
      /\ lastScrollLeft (base s') = snd p /\ lastScrollTop (base s') = fst p
      /\ Forall2 (fun g g0 =>
                    Blink.x g == Blink.x g0 - dx
                    /\ Blink.y g == Blink.y g0 - dy
                    /\ Blink.height g = Blink.height g0
                    /\ Blink.opacity g = Blink.opacity g0)
                 (Blink.ghosts (ext s')) (Blink.ghosts (ext sb))
      /\ Blink.lastX (ext s') == Blink.lastX (ext sb) - dx
      /\ Blink.lastY (ext s') == Blink.lastY (ext sb) - dy).
Proof.
  split; cbv zeta.
  - destruct (scrolls_base comet_scroll_hook ps p sc Hci Hcl)
      as (H1 & H2 & H3 & H4 & H5 & H6 & _).
    repeat split; try assumption.
    apply comet_scrolls_trail; assumption.
  - destruct (scrolls_base blink_scroll_hook ps p sb Hbi Hbl)
      as (H1 & H2 & H3 & H4 & H5 & H6 & _).
    destruct (blink_scrolls_ext ps p sb Hbi Hbl) as (K1 & K2 & K3).
    repeat split; assumption.
Qed.

Lemma scrolling_is_path_independent_witness :
  let s' := run (scroll_events ([(30, 5)] ++ [(0, 0)])) Sample.comet_moving in
  let dx := snd (0, 0) - lastScrollLeft (base Sample.comet_moving) in
  let dy := fst (0, 0) - lastScrollTop (base Sample.comet_moving) in
  targetX (base s') == targetX (base Sample.comet_moving) - dx
  /\ targetY (base s') == targetY (base Sample.comet_moving) - dy
  /\ currentX (base s') == currentX (base Sample.comet_moving) - dx
  /\ currentY (base s') == currentY (base Sample.comet_moving) - dy
  /\ lastScrollLeft (base s') = snd (0, 0)
  /\ lastScrollTop (base s') = fst (0, 0)
  /\ Forall2 (fun q q0 =>
                Comet.x q == Comet.x q0 - dx /\ Comet.y q == Comet.y q0 - dy)
             (Comet.trail (ext s')) (Comet.trail (ext Sample.comet_moving)).
Proof.
  assert (Hci : initialized (base Sample.comet_moving) = true)
    by (vm_compute; reflexivity).
  assert (Hcl : scroll_listening (world Sample.comet_moving) = true)
    by (vm_compute; reflexivity).
  assert (Hbi : initialized (base Sample.blink_moving) = true)
    by (vm_compute; reflexivity).
  assert (Hbl : scroll_listening (world Sample.blink_moving) = true)
    by (vm_compute; reflexivity).
  exact (proj1 (scrolling_is_path_independent
                  Sample.comet_moving Sample.blink_moving
                  [(30, 5)] (0, 0) Hci Hcl Hbi Hbl)).
Defined.

(** ** The comet's motion *)

Lemma advance_axis_fixed (k t : Q) : Comet.advance_axis k t t = t.
Proof.
  unfold Comet.advance_axis, JS.abs.
  assert (H : JS.ltb (Qabs (t - t)) (1 # 10) = true).
  { apply JSFacts.ltb_lt.
    assert (E : t - t == 0) by ring. rewrite E. reflexivity. }
  rewrite H. reflexivity.
Qed.

Lemma iter_fixed {A : Type} (f : A -> A) (t : A) (n : nat) :
  f t = t -> Nat.iter n f t = t.
Proof.
  intro H. induction n as [| n IH]; simpl; [reflexivity |].
  rewrite IH. exact H.
Qed.

Lemma iter_shift {A : Type} (f : A -> A) (x : A) (n : nat) :
  Nat.iter n f (f x) = f (Nat.iter n f x).
Proof.
  induction n as [| n IH]; simpl; [reflexivity | rewrite IH; reflexivity].
Qed.

Lemma iter_reached {A : Type} (f : A -> A) (x t : A) (n m : nat) :
  f t = t -> Nat.iter n f x = t -> (n <= m)%nat -> Nat.iter m f x = t.
Proof.
  intros Hf Hn Hle.
  replace m with ((m - n) + n)%nat by lia.
  rewrite Nat.iter_add, Hn. apply iter_fixed. exact Hf.
Qed.

Lemma lerp_gap (k c t : Q) :
  t - Comet.lerp c t k == (1 - k) * (t - c).
Proof. unfold Comet.lerp. ring. Qed.

(** Below a gap of [(1 + N k) / 10] the axis is on the target after at most
    [N + 1] steps. *)
Lemma advance_axis_within (k t : Q) :
  0 < k -> k <= 1 ->
  forall (N : nat) (c : Q),
    Qabs (t - c) < (1 # 10) * (1 + inject_Z (Z.of_nat N) * k) ->
    Nat.iter (S N) (fun x => Comet.advance_axis k x t) c = t.
Proof.
  intros Hk0 Hk1. induction N as [| N IH]; intros c Hc.
  - simpl. unfold Comet.advance_axis, JS.abs.
    assert (H : JS.ltb (Qabs (t - c)) (1 # 10) = true).
    { apply JSFacts.ltb_lt.
      change (inject_Z (Z.of_nat 0)) with 0 in Hc. lra. }
    rewrite H. reflexivity.
  - change (Nat.iter (S (S N)) (fun x => Comet.advance_axis k x t) c)
      with ((fun x => Comet.advance_axis k x t)
              (Nat.iter (S N) (fun x => Comet.advance_axis k x t) c)).
    rewrite <- iter_shift.
    unfold Comet.advance_axis at 2. unfold JS.abs.
    destruct (JS.ltb (Qabs (t - c)) (1 # 10)) eqn:E.
    + apply iter_fixed, advance_axis_fixed.
    + apply IH.
      rewrite lerp_gap, Qabs_Qmult.
      assert (Hk : Qabs (1 - k) == 1 - k) by (apply Qabs_pos; lra).
      rewrite Hk.
      pose proof (Qabs_nonneg (t - c)) as Hg.
      set (g := Qabs (t - c)) in *.
      rewrite inject_nat_succ in Hc.
      set (n := inject_Z (Z.of_nat N)) in *.
      assert (Hn : 0 <= n).
      { subst n. change 0 with (inject_Z 0). rewrite <- Zle_Qle. lia. }
      assert (H1 : g * (1 - k)
                   <= (1 # 10) * (1 + (n + 1) * k) * (1 - k)).
      { apply Qmult_le_compat_r; lra. }
      assert (H2 : 0 < k * k) by (apply Qmult_lt_0_compat; exact Hk0).
      assert (H3 : 0 <= n * (k * k))
        by (apply Qmult_le_0_compat; lra).
      assert (H4 : (1 - k) * ((1 # 10) * (1 + (n + 1) * k))
                   == (1 # 10) * (1 + n * k)
                      - (1 # 10) * (n * (k * k) + k * k)) by ring.
      lra.
Qed.

Lemma advance_axis_reaches (k t c : Q) :
  0 < k -> k <= 1 ->
  exists n : nat,
    forall m : nat, (n <= m)%nat ->
      Nat.iter m (fun x => Comet.advance_axis k x t) c = t.
Proof.
  intros Hk0 Hk1.
  set (g := Qabs (t - c)).
  set (z := Qceiling (10 * g / k)).
  assert (Hg : 0 <= g) by apply Qabs_nonneg.
  assert (Hx : 0 <= 10 * g / k) by (apply Qle_shift_div_l; lra).
  assert (Hz : (0 <= z)%Z).
  { subst z. change 0%Z with (Qceiling 0). apply Qceiling_resp_le.
    exact Hx. }
  assert (Hzk : 10 * g <= inject_Z z * k).
  { assert (E : 10 * g == 10 * g / k * k) by (field; lra).
    rewrite E. apply Qmult_le_compat_r; [apply Qle_ceiling | lra]. }
  exists (S (Z.to_nat z)). intros m Hm.
  apply (iter_reached _ c t (S (Z.to_nat z)) m);
    [apply advance_axis_fixed | | exact Hm].
  apply advance_axis_within; try assumption.
  rewrite Z2Nat.id by exact Hz. fold g. lra.
Qed.

Lemma comet_render_config (c : Ctx) (s : Sys Comet.State) :
  Comet.config (ext (Comet.render c s)) = Comet.config (ext s).
Proof.
  unfold Comet.render. destruct (JS.hypot_gtb _ _ _); reflexivity.
Qed.

Lemma comet_iter_render (c : Ctx) (s : Sys Comet.State) (m : nat) :
  let s' := Nat.iter m (Comet.render c) s in
  let k := Comet.smoothness (Comet.config (ext s)) in
  targetX (base s') = targetX (base s)
  /\ targetY (base s') = targetY (base s)
  /\ Comet.config (ext s') = Comet.config (ext s)
  /\ currentX (base s')
     = Nat.iter m (fun x => Comet.advance_axis k x (targetX (base s)))
                (currentX (base s))
  /\ currentY (base s')
     = Nat.iter m (fun y => Comet.advance_axis k y (targetY (base s)))
                (currentY (base s)).
Proof.
  induction m as [| m IH]; [simpl; auto |].
  cbv zeta in *. simpl Nat.iter.
  destruct IH as (Htx & Hty & Hcfg & Hcx & Hcy).
  rewrite comet_render_base, comet_render_config. simpl.
  rewrite Hcfg, Htx, Hty, Hcx, Hcy. auto.
Qed.

(** X7: with a smoothing factor above 0 and at most 1, and the target left
    alone, the comet caret is exactly on its target after finitely many
    ticks and stays there; from then on every tick leaves the trail
    empty. *)
Theorem comet_settles_on_target (c : Ctx) (s : Sys Comet.State)
    (Hk0 : 0 < Comet.smoothness (Comet.config (ext s)))
    (Hk1 : Comet.smoothness (Comet.config (ext s)) <= 1) :
  exists n : nat,
    forall m : nat, (n <= m)%nat ->
      let s' := Nat.iter m (Comet.render c) s in
      currentX (base s') = targetX (base s)
      /\ currentY (base s') = targetY (base s)
      /\ targetX (base s') = targetX (base s)
      /\ targetY (base s') = targetY (base s)
      /\ Comet.trail (ext s') = [].
Proof.
  destruct (advance_axis_reaches _ (targetX (base s)) (currentX (base s))
              Hk0 Hk1) as [nx Hx].
  destruct (advance_axis_reaches _ (targetY (base s)) (currentY (base s))
              Hk0 Hk1) as [ny Hy].
  exists (S (Nat.max nx ny)). intros m Hm s'.
  destruct (comet_iter_render c s m) as (Htx & Hty & _ & Hcx & Hcy).
  fold s' in Htx, Hty, Hcx, Hcy.
  rewrite Hx in Hcx by lia. rewrite Hy in Hcy by lia.
  repeat split; try assumption.
  destruct m as [| m]; [lia |].
  subst s'. simpl Nat.iter in *. apply comet_render_settled.
  unfold distance2. rewrite Hcx, Hcy, Htx, Hty.
  assert (E : (targetX (base s) - targetX (base s))
              * (targetX (base s) - targetX (base s))
              + (targetY (base s) - targetY (base s))
                * (targetY (base s) - targetY (base s)) == 0) by ring.
  rewrite E. unfold Qle. simpl. lia.
Qed.

Lemma comet_settles_on_target_witness :
  exists n : nat,
    forall m : nat, (n <= m)%nat ->
      let s' := Nat.iter m (Comet.render fresh_ctx)
                  (Sample.move_target 10 Sample.comet_ready) in
      currentX (base s')
      = targetX (base (Sample.move_target 10 Sample.comet_ready))
      /\ currentY (base s')
         = targetY (base (Sample.move_target 10 Sample.comet_ready))
      /\ targetX (base s')
         = targetX (base (Sample.move_target 10 Sample.comet_ready))
      /\ targetY (base s')
         = targetY (base (Sample.move_target 10 Sample.comet_ready))
      /\ Comet.trail (ext s') = [].
Proof.
  assert (Hk0 : 0 < Comet.smoothness
                      (Comet.config
                         (ext (Sample.move_target 10 Sample.comet_ready))))
    by (vm_compute; reflexivity).
  assert (Hk1 : Comet.smoothness
                  (Comet.config
                     (ext (Sample.move_target 10 Sample.comet_ready))) <= 1)
    by (vm_compute; discriminate).
  exact (comet_settles_on_target fresh_ctx
           (Sample.move_target 10 Sample.comet_ready) Hk0 Hk1).
Defined.

(** In the sample glide of 10 px the caret is on its target after 22
    ticks, and not after 21. *)
Example comet_settles_in_22_ticks :
  let s := Sample.move_target 10 Sample.comet_ready in
  currentX (base (Nat.iter 22 (Comet.render fresh_ctx) s)) = targetX (base s)
  /\ ~ currentX (base (Nat.iter 21 (Comet.render fresh_ctx) s))
       == targetX (base s).
Proof.
  split.
  - vm_compute. reflexivity.
  - intro H. vm_compute in H. discriminate H.
Qed.

Lemma advance_axis_between (k c t : Q) :
  0 <= k -> k <= 1 -> between c (Comet.advance_axis k c t) t.
Proof.
  intros Hk0 Hk1. unfold between, Comet.advance_axis.
  destruct (JS.ltb _ _).
  - destruct (Qlt_le_dec t c); [right | left]; lra.
  - unfold Comet.lerp.
    assert (E1 : (1 - k) * c + k * t - c == k * (t - c)) by ring.
    assert (E2 : t - ((1 - k) * c + k * t) == (1 - k) * (t - c)) by ring.
    destruct (Qlt_le_dec t c) as [Hlt | Hle].
    + right.
      assert (H1 : 0 <= k * (c - t)) by (apply Qmult_le_0_compat; lra).
      assert (H2 : 0 <= (1 - k) * (c - t))
        by (apply Qmult_le_0_compat; lra).
      lra.
    + left.
      assert (H1 : 0 <= k * (t - c)) by (apply Qmult_le_0_compat; lra).
      assert (H2 : 0 <= (1 - k) * (t - c))
        by (apply Qmult_le_0_compat; lra).
      lra.
Qed.

Lemma blink_lerp_between (c t : Q) :
  between c (Blink.lerp c t (25 # 100)) t.
Proof.
  unfold between, Blink.lerp.
  destruct (Qlt_le_dec t c); [right | left]; lra.
Qed.

(** X8: the smoothing step never overshoots.  After a comet tick with a
    smoothing factor between 0 and 1, and after every blink tick, current
    lies between where it was and the target on each axis (ends
    included). *)
Theorem smoothing_never_overshoots (c : Ctx)
    (sc : Sys Comet.State) (sb : Sys Blink.State)
    (Hk0 : 0 <= Comet.smoothness (Comet.config (ext sc)))
    (Hk1 : Comet.smoothness (Comet.config (ext sc)) <= 1) :
  between (currentX (base sc)) (currentX (base (Comet.render c sc)))
          (targetX (base sc))
  /\ between (currentY (base sc)) (currentY (base (Comet.render c sc)))
             (targetY (base sc))
  /\ between (currentX (base sb)) (currentX (base (Blink.render c sb)))
             (targetX (base sb))
  /\ between (currentY (base sb)) (currentY (base (Blink.render c sb)))
             (targetY (base sb)).
Proof.
  rewrite comet_render_base.
  destruct (blink_render_base c sb) as [c' ->]. simpl.
  repeat split; try (apply advance_axis_between; assumption);
    apply blink_lerp_between.
Qed.

Lemma smoothing_never_overshoots_witness :
  between (currentX (base (Sample.move_target 10 Sample.comet_ready)))
          (currentX (base (Comet.render fresh_ctx
                             (Sample.move_target 10 Sample.comet_ready))))
          (targetX (base (Sample.move_target 10 Sample.comet_ready))).
Proof.
  assert (Hk0 : 0 <= Comet.smoothness
                       (Comet.config
                          (ext (Sample.move_target 10 Sample.comet_ready))))
    by (vm_compute; discriminate).
  assert (Hk1 : Comet.smoothness
                  (Comet.config
                     (ext (Sample.move_target 10 Sample.comet_ready))) <= 1)
    by (vm_compute; discriminate).
  exact (proj1 (smoothing_never_overshoots fresh_ctx
                  (Sample.move_target 10 Sample.comet_ready)
                  (Sample.move_target 10 Sample.blink_ready) Hk0 Hk1)).
Defined.

(** X9: a comet tick either finds the caret moving (more than 0.2 from
    the target after the smoothing step) and then appends the caret's new
    position to the trail, dropping the oldest point if that makes the
    trail longer than [tailLength]; or it finds the caret settled and
    empties the trail.  So a trail that is not empty after a tick ends at
    the caret, and a tick never shortens the trail of a moving caret. *)
Theorem comet_trail_follows_caret (c : Ctx) (s : Sys Comet.State) :
  let s' := Comet.render c s in
  let old := Comet.trail (ext s) in
  let p := Comet.mkPoint (currentX (base s')) (currentY (base s')) in
  let maxLen := Comet.tailLength (Comet.config (ext s)) in
  ((2 # 10) * (2 # 10) < distance2 (base s')
   /\ (maxLen < inject_Z (Z.of_nat (S (List.length old)))
       /\ Comet.trail (ext s') = tl (old ++ [p])
       \/ inject_Z (Z.of_nat (S (List.length old))) <= maxLen
          /\ Comet.trail (ext s') = old ++ [p])
   /\ (List.length old <= List.length (Comet.trail (ext s')))%nat
   \/ distance2 (base s') <= (2 # 10) * (2 # 10)
      /\ Comet.trail (ext s') = [])
  /\ (Comet.trail (ext s') = []
      \/ forall d, last (Comet.trail (ext s')) d = p).
Proof.
  intros s' old p maxLen.
  assert (Hp : p = Comet.mkPoint
                     (Comet.advance_axis
                        (Comet.smoothness (Comet.config (ext s)))
                        (currentX (base s)) (targetX (base s)))
                     (Comet.advance_axis
                        (Comet.smoothness (Comet.config (ext s)))
                        (currentY (base s)) (targetY (base s)))).
  { subst p s'. rewrite comet_render_base. reflexivity. }
  assert (Hd : distance2 (base s')
               = (targetX (base s) - Comet.x p) * (targetX (base s) - Comet.x p)
                 + (targetY (base s) - Comet.y p)
                   * (targetY (base s) - Comet.y p)).
  { subst p s'. rewrite comet_render_base. reflexivity. }
  rewrite Hd. rewrite Hp. simpl Comet.x. simpl Comet.y.
  subst s'. unfold Comet.render, JS.hypot_gtb.
  change (JS.ltb (2 # 10) 0) with false. cbv iota.
  destruct (JS.ltb _ _) eqn:Emove.
  - apply JSFacts.ltb_lt in Emove. simpl Comet.trail. fold old maxLen.
    unfold Comet.push_bounded, JS.gtb.
    rewrite length_app. simpl List.length.
    rewrite Nat.add_comm. simpl Nat.add.
    destruct (JS.ltb maxLen _) eqn:Efull.
    + apply JSFacts.ltb_lt in Efull. split.
      * left. split; [exact Emove |]. split; [left; auto |].
        rewrite length_tl_snoc. lia.
      * destruct old as [| a t]; [left; reflexivity |].
        right. intro d. simpl. apply last_last.
    + apply JSFacts.ltb_ge in Efull. split.
      * left. split; [exact Emove |]. split; [right; auto |].
        rewrite length_app. simpl. lia.
      * right. intro d. apply last_last.
  - apply JSFacts.ltb_ge in Emove. split; [right | left]; auto.
Qed.

(** ** Ghost spawning *)

Lemma spawn_loop_closed (n : nat) (i steps : Z) (lx ly dx dy h : Q)
    (gs : list Blink.Ghost) :
  Blink.spawn_loop n i steps lx ly dx dy h gs
  = gs ++ map (fun j =>
                 Blink.mkGhost
                   (lx + dx * (inject_Z (i + Z.of_nat j) / inject_Z steps))
                   (ly + dy * (inject_Z (i + Z.of_nat j) / inject_Z steps))
                   h (4 # 10))
              (seq 0 n).
Proof.
  revert i gs. induction n as [| n IH]; intros i gs.
  - simpl. rewrite app_nil_r. reflexivity.
  - simpl Blink.spawn_loop. rewrite IH, <- app_assoc.
    f_equal. rewrite <- cons_seq, <- seq_shift, map_cons, map_map.
    simpl app.
    replace (i + Z.of_nat 0)%Z with i by lia. f_equal.
    apply map_ext. intro j.
    replace (i + 1 + Z.of_nat j)%Z with (i + Z.of_nat (S j))%Z by lia.
    reflexivity.
Qed.

Lemma blink_render_draw_ext (c : Ctx) (s : Sys Blink.State) :
  ext (Blink.render_draw c s)
  = Blink.set_ghosts (filter alive (map Blink.fade (Blink.ghosts (ext s))))
                     (ext s).
Proof.
  pose proof (blink_render_draw_ghosts c s) as H.
  unfold Blink.render_draw in *.
  destruct (Blink.fade_loop _ _ _) as [gs c2]. simpl in *.
  rewrite H. reflexivity.
Qed.

Lemma filter_all {A : Type} (f : A -> bool) (l : list A) :
  Forall (fun a => f a = true) l -> filter f l = l.
Proof.
  induction 1 as [| a l Ha _ IH]; simpl; [reflexivity |].
  rewrite Ha, IH. reflexivity.
Qed.

Lemma spawned_survive (lx ly dx dy h : Q) (steps : Z) (js : list nat) :
  filter alive (map Blink.fade (map (spawned lx ly dx dy h steps) js))
  = map (fun j => Blink.fade (spawned lx ly dx dy h steps j)) js.
Proof.
  rewrite map_map. apply filter_all.
  apply Forall_forall. intros g Hin.
  apply in_map_iff in Hin. destruct Hin as (j & <- & _). reflexivity.
Qed.

Lemma inject_Z_two (z : Z) : (2 <= z)%Z -> ~ inject_Z z == 0.
Proof.
  intros H E. unfold Qeq in E. simpl in E. lia.
Qed.

(** More than 1 apart means at least two steps. *)
Lemma ceil_hypot_two (dx dy : Q) :
  1 < dx * dx + dy * dy -> (2 <= JS.ceil_hypot dx dy)%Z.
Proof.
  intro H. destruct (ceil_hypot_spec dx dy) as (H0 & Hle & _).
  cbv zeta in *.
  destruct (Z_lt_le_dec (JS.ceil_hypot dx dy) 2) as [Hlt | Hge];
    [| exact Hge].
  exfalso.
  assert (Hn : (JS.ceil_hypot dx dy * JS.ceil_hypot dx dy <= 1)%Z) by nia.
  rewrite Zle_Qle, inject_Z_mult in Hn.
  change (inject_Z 1) with 1 in Hn. lra.
Qed.

(** The spacing of the spawned ghosts is at most 1. *)
Lemma spawn_spacing (dx dy : Q) :
  1 < dx * dx + dy * dy ->
  let n := inject_Z (JS.ceil_hypot dx dy) in
  (dx / n) * (dx / n) + (dy / n) * (dy / n) <= 1.
Proof.
  intros H n.
  pose proof (ceil_hypot_two dx dy H) as H2.
  destruct (ceil_hypot_spec dx dy) as (_ & Hle & _). cbv zeta in Hle.
  fold n in Hle.
  assert (Hn : 0 < n).
  { subst n. change 0 with (inject_Z 0). rewrite <- Zlt_Qlt. lia. }
  assert (Ha : 0 < / n) by (apply Qinv_lt_0_compat; exact Hn).
  assert (Haa : 0 <= / n * / n)
    by (apply Qmult_le_0_compat; apply Qlt_le_weak; exact Ha).
  assert (E1 : (dx / n) * (dx / n) + (dy / n) * (dy / n)
               == (dx * dx + dy * dy) * (/ n * / n))
    by (unfold Qdiv; ring).
  assert (E2 : (n * n) * (/ n * / n) == 1) by (field; lra).
  rewrite E1, <- E2. apply Qmult_le_compat_r; assumption.
Qed.

(** What one blink tick does to the ghost buffer and the spawn point. *)
Lemma blink_render_spawn (c : Ctx) (s : Sys Blink.State) :
  let s' := Blink.render c s in
  let lx := Blink.lastX (ext s) in
  let ly := Blink.lastY (ext s) in
  let dx := currentX (base s') - lx in
  let dy := currentY (base s') - ly in
  let steps := JS.ceil_hypot dx dy in
  let h := JS.or_else (currentHeight (base s)) 20 in
  let kept := filter alive (map Blink.fade (Blink.ghosts (ext s))) in
  (1 < dx * dx + dy * dy
   /\ Blink.ghosts (ext s')
      = kept ++ map (fun j => Blink.fade (spawned lx ly dx dy h steps j))
                    (seq 0 (Z.to_nat steps))
   /\ Blink.lastX (ext s') = currentX (base s')
   /\ Blink.lastY (ext s') = currentY (base s'))
  \/ (dx * dx + dy * dy <= 1
      /\ Blink.ghosts (ext s') = kept
      /\ Blink.lastX (ext s') = lx
      /\ Blink.lastY (ext s') = ly).
Proof.
  cbv zeta.
  destruct (blink_render_base c s) as [c' Hb]. rewrite Hb.
  cbn [currentX currentY set_ctx set_currentX set_currentY].
  unfold Blink.render. rewrite blink_render_draw_ext.
  cbn [Blink.ghosts Blink.lastX Blink.lastY Blink.set_ghosts].
  unfold Blink.render_motion. cbv zeta.
  set (X' := Blink.lerp (currentX (base s)) (targetX (base s)) (25 # 100)).
  set (Y' := Blink.lerp (currentY (base s)) (targetY (base s)) (25 # 100)).
  set (dx := X' - Blink.lastX (ext s)).
  set (dy := Y' - Blink.lastY (ext s)).
  destruct (JS.hypot_gtb dx dy 1) eqn:Efar.
  - left. apply hypot_gtb_spec in Efar; [| lra].
    split; [lra |]. unfold on_ext, on_base.
    cbn [ext base Blink.ghosts Blink.lastX Blink.lastY Blink.set_ghosts
         Blink.set_last].
    rewrite spawn_loop_closed, map_app, filter_app.
    change (fun j : nat =>
              Blink.mkGhost
                (Blink.lastX (ext s)
                 + dx * (inject_Z (1 + Z.of_nat j)
                         / inject_Z (JS.ceil_hypot dx dy)))
                (Blink.lastY (ext s)
                 + dy * (inject_Z (1 + Z.of_nat j)
                         / inject_Z (JS.ceil_hypot dx dy)))
                (JS.or_else (currentHeight (base s)) 20) (4 # 10))
      with (spawned (Blink.lastX (ext s)) (Blink.lastY (ext s)) dx dy
                    (JS.or_else (currentHeight (base s)) 20)
                    (JS.ceil_hypot dx dy)).
    rewrite spawned_survive. auto.
  - right.
    assert (Hnear : ~ 1 * 1 < dx * dx + dy * dy).
    { intro Hlt. apply hypot_gtb_spec in Hlt; [| lra]. congruence. }
    split; [lra |]. unfold on_base.
    cbn [ext base Blink.ghosts Blink.lastX Blink.lastY].
    auto.
Qed.

Lemma spawned_position (lx ly dx dy h : Q) (steps : Z) (j : nat) :
  ~ inject_Z steps == 0 ->
  Blink.x (spawned lx ly dx dy h steps j)
  == lx + inject_Z (Z.of_nat (S j)) * (dx / inject_Z steps)
  /\ Blink.y (spawned lx ly dx dy h steps j)
     == ly + inject_Z (Z.of_nat (S j)) * (dy / inject_Z steps)
  /\ Blink.height (Blink.fade (spawned lx ly dx dy h steps j)) = h
  /\ Blink.opacity (Blink.fade (spawned lx ly dx dy h steps j)) == 37 # 100.
Proof.
  intro Hn. unfold spawned. cbv zeta. cbn [Blink.x Blink.y].
  replace (1 + Z.of_nat j)%Z with (Z.of_nat (S j)) by lia.
  revert Hn. generalize (inject_Z (Z.of_nat (S j))) as i.
  generalize (inject_Z steps) as n. intros n i Hn.
  split; [field; exact Hn |]. split; [field; exact Hn |].
  split; reflexivity.
Qed.

Lemma spawned_last (lx ly X Y h : Q) (steps : Z) :
  (2 <= steps)%Z ->
  Blink.x (spawned lx ly (X - lx) (Y - ly) h steps (Z.to_nat steps - 1))
  == X
  /\ Blink.y (spawned lx ly (X - lx) (Y - ly) h steps (Z.to_nat steps - 1))
     == Y.
Proof.
  intro H2. pose proof (inject_Z_two steps H2) as Hn.
  unfold spawned. cbv zeta. cbn [Blink.x Blink.y].
  replace (1 + Z.of_nat (Z.to_nat steps - 1))%Z with steps by lia.
  revert Hn. generalize (inject_Z steps) as n. intros n Hn.
  split; field; exact Hn.
Qed.

(** X10: ghost spawning of the blink effect.  With (dx, dy) the offset
    from the last spawn point to the caret after the smoothing step of a
    tick: when the caret is more than 1 away, the tick appends
    ceil(hypot(dx, dy)) ghosts, at least two, evenly spaced on the segment
    from the spawn point to the caret at most 1 apart, the last one on the
    caret, each with the caret's height (20 when that is 0); they have
    faded once, to 0.37, when the tick ends, and the caret is the new spawn
    point.  Otherwise no ghost is appended and the spawn point stays. *)
Theorem spawning_fills_the_gap (c : Ctx) (s : Sys Blink.State) :
  let s' := Blink.render c s in
  let lx := Blink.lastX (ext s) in
  let ly := Blink.lastY (ext s) in
  let dx := currentX (base s') - lx in
  let dy := currentY (base s') - ly in
  let steps := JS.ceil_hypot dx dy in
  let h := JS.or_else (currentHeight (base s)) 20 in
  let kept := filter alive (map Blink.fade (Blink.ghosts (ext s))) in
  (1 < dx * dx + dy * dy
   /\ (2 <= steps)%Z
   /\ Blink.ghosts (ext s')
      = kept ++ map (fun j => Blink.fade (spawned lx ly dx dy h steps j))
                    (seq 0 (Z.to_nat steps))
   /\ (forall j : nat,
         Blink.x (spawned lx ly dx dy h steps j)
         == lx + inject_Z (Z.of_nat (S j)) * (dx / inject_Z steps)
         /\ Blink.y (spawned lx ly dx dy h steps j)
            == ly + inject_Z (Z.of_nat (S j)) * (dy / inject_Z steps)
         /\ Blink.height (Blink.fade (spawned lx ly dx dy h steps j)) = h
         /\ Blink.opacity (Blink.fade (spawned lx ly dx dy h steps j))
            == 37 # 100)
   /\ (dx / inject_Z steps) * (dx / inject_Z steps)
      + (dy / inject_Z steps) * (dy / inject_Z steps) <= 1
   /\ Blink.x (spawned lx ly dx dy h steps (Z.to_nat steps - 1))
      == currentX (base s')
   /\ Blink.y (spawned lx ly dx dy h steps (Z.to_nat steps - 1))
      == currentY (base s')
   /\ Blink.lastX (ext s') = currentX (base s')
   /\ Blink.lastY (ext s') = currentY (base s'))
  \/ (dx * dx + dy * dy <= 1
      /\ Blink.ghosts (ext s') = kept
      /\ Blink.lastX (ext s') = lx
      /\ Blink.lastY (ext s') = ly).
Proof.
  intros s' lx ly dx dy steps h kept.
  destruct (blink_render_spawn c s) as [(Hfar & Hg & Hlx & Hly) | Hnear];
    [left | right; exact Hnear].
  change (1 < dx * dx + dy * dy) in Hfar.
  change (Blink.ghosts (ext s')
          = kept ++ map (fun j => Blink.fade (spawned lx ly dx dy h steps j))
                        (seq 0 (Z.to_nat steps))) in Hg.
  change (Blink.lastX (ext s') = currentX (base s')) in Hlx.
  change (Blink.lastY (ext s') = currentY (base s')) in Hly.
  assert (H2 : (2 <= steps)%Z) by exact (ceil_hypot_two dx dy Hfar).
  assert (Hn : ~ inject_Z steps == 0) by exact (inject_Z_two steps H2).
  split; [exact Hfar |]. split; [exact H2 |]. split; [exact Hg |].
  split; [intro j; apply spawned_position; exact Hn |].
  split; [exact (spawn_spacing dx dy Hfar) |].
  destruct (spawned_last lx ly (currentX (base s')) (currentY (base s')) h
              steps H2) as [Hex Hey].
  repeat split; assumption.
Qed.

(** ** What a blink frame draws *)

Lemma fade_loop_transform (n : nat) (gs : list Blink.Ghost) (c : Ctx) :
  transform (snd (Blink.fade_loop n gs c)) = transform c.
Proof.
  revert gs c. induction n as [| i IH]; intros gs c; simpl; [reflexivity |].
  destruct (nth_error gs i) as [g |]; [| apply IH].
  destruct (JS.leb _ 0); rewrite IH; reflexivity.
Qed.

(** The downward loop draws the ghosts that stay, the last one first. *)
Lemma fade_loop_calls (l1 l2 : list Blink.Ghost) (c : Ctx) :
  calls (snd (Blink.fade_loop (List.length l1) (l1 ++ l2) c))
  = calls c
    ++ map (ghost_call (fillStyle c)) (rev (filter alive (map Blink.fade l1))).
Proof.
  revert l2 c. induction l1 as [| g l1 IH] using rev_ind; intros l2 c.
  - simpl. rewrite app_nil_r. reflexivity.
  - rewrite length_app, Nat.add_comm. simpl List.length. simpl Nat.add.
    rewrite <- app_assoc. simpl app.
    simpl Blink.fade_loop. rewrite nth_error_at_length.
    unfold Blink.remove_at, Blink.replace_at.
    rewrite firstn_at_length, skipn_after_length.
    rewrite map_app, filter_app. simpl map. simpl filter.
    unfold alive at 2.
    change (Blink.opacity (Blink.fade g)) with (Blink.opacity g - (3 # 100)).
    destruct (JS.leb (Blink.opacity g - (3 # 100)) 0); simpl negb; cbv iota.
    + rewrite IH, app_nil_r. reflexivity.
    + rewrite IH, rev_app_distr. simpl rev. simpl app. simpl map.
      unfold fillRect. cbn [calls fillStyle set_globalAlpha globalAlpha].
      rewrite <- app_assoc. reflexivity.
Qed.

Lemma blink_render_motion_config (s : Sys Blink.State) :
  Blink.config (ext (Blink.render_motion s)) = Blink.config (ext s).
Proof.
  unfold Blink.render_motion. destruct (JS.hypot_gtb _ _ _); reflexivity.
Qed.

(** The drawing calls of one [render]: the ghosts left in the buffer, the
    newest first, then the main caret unless its opacity is 0. *)
Lemma blink_render_calls (c : Ctx) (s : Sys Blink.State) :
  let s' := Blink.render c s in
  let color := Blink.color (Blink.config (ext s)) in
  let o := Blink.main_opacity (now (world s))
                              (Blink.lastActivityTime (ext s)) in
  exists c',
    ctx (base s') = Some c'
    /\ calls c'
       = calls c
         ++ map (ghost_call color) (rev (Blink.ghosts (ext s')))
         ++ (if JS.gtb o 0
             then [FillRect o color (currentX (base s')) (currentY (base s'))
                            4 (JS.or_else (currentHeight (base s)) 20)]
             else [])
    /\ fillStyle c' = color
    /\ transform c' = transform c.
Proof.
  intros s' color o.
  pose proof (blink_render_ctx c s) as Hctx. cbv zeta in Hctx.
  fold o in Hctx. rewrite blink_render_motion_config in Hctx.
  fold color in Hctx.
  assert (Hg : Blink.ghosts (ext s')
               = filter alive
                   (map Blink.fade
                      (Blink.ghosts (ext (Blink.render_motion s))))).
  { subst s'. unfold Blink.render. apply blink_render_draw_ghosts. }
  assert (Hx : currentX (base s')
               = currentX (base (Blink.render_motion s))
               /\ currentY (base s')
                  = currentY (base (Blink.render_motion s))).
  { subst s'. unfold Blink.render.
    destruct (blink_render_draw_base c (Blink.render_motion s)) as [c' ->].
    split; reflexivity. }
  destruct Hx as [Hx Hy].
  pose proof (fade_loop_calls (Blink.ghosts (ext (Blink.render_motion s)))
                [] (set_fillStyle color c)) as Hcalls.
  rewrite app_nil_r in Hcalls. rewrite <- Hg in Hcalls.
  simpl fillStyle in Hcalls. simpl calls in Hcalls.
  eexists. split; [exact Hctx |].
  rewrite Hx, Hy.
  destruct (JS.gtb o 0).
  - simpl calls. simpl fillStyle. simpl transform.
    rewrite Hcalls, fade_loop_fillStyle, fade_loop_transform.
    simpl. rewrite <- app_assoc. auto.
  - rewrite Hcalls, fade_loop_fillStyle, fade_loop_transform.
    simpl. rewrite app_nil_r. auto.
Qed.

Lemma blink_loop_calls (s : Sys Blink.State) (cv : Canvas) (c : Ctx) :
  canvas (base s) = Some cv -> ctx (base s) = Some c ->
  let s' := loop s in
  let color := Blink.color (Blink.config (ext s)) in
  let dpr := effective_dpr (world s) in
  let o := Blink.main_opacity (now (world s))
                              (Blink.lastActivityTime (ext s)) in
  exists c',
    ctx (base s') = Some c'
    /\ calls c'
       = calls c
         ++ [ClearRect 0 0 (inject_Z (width cv) / dpr)
                       (inject_Z (height cv) / dpr)]
         ++ map (ghost_call color) (rev (Blink.ghosts (ext s')))
         ++ (if JS.gtb o 0
             then [FillRect o color (currentX (base s')) (currentY (base s'))
                            4 (JS.or_else (currentHeight (base s)) 20)]
             else [])
    /\ fillStyle c' = color
    /\ transform c' = transform c.
Proof.
  intros Hcv Hctx s' color dpr o. subst s'.
  unfold loop. rewrite Hcv, Hctx.
  cbv zeta. cbn [on_base on_world base ext world].
  change (@render Blink.State Blink.effect) with Blink.render.
  match goal with
  | |- context [Blink.render ?c1 ?s1] =>
      destruct (blink_render_calls c1 s1) as (c' & H1 & H2 & H3 & H4);
      cbv zeta in H1, H2, H3, H4;
      cbn [ext world base now currentHeight set_ctx] in H2, H3
  end.
  exists c'. split; [exact H1 |]. split; [| split].
  - rewrite H2. unfold clearRect. simpl calls. rewrite <- app_assoc.
    reflexivity.
  - exact H3.
  - rewrite H4. reflexivity.
Qed.

(** X11: what a frame of the blink effect paints.  When a frame runs on
    an instance that has its canvas and context, the calls it adds are:
    one [clearRect] over the whole canvas in CSS pixels, then one
    rectangle of width 4 for every ghost left in the buffer after the
    tick, the newest first, each with its own opacity, position and
    height, then the main caret at the smoothed position unless its
    opacity is 0; all in the configured colour, and the scale transform
    is kept. *)
Theorem blink_frame_paints (s : Sys Blink.State) (cv : Canvas) (c : Ctx)
    (handle : Z) (rest : list Z)
    (Hcv : canvas (base s) = Some cv) (Hctx : ctx (base s) = Some c)
    (Hraf : raf_pending (world s) = handle :: rest) :
  let s' := step Frame s in
  let color := Blink.color (Blink.config (ext s)) in
  let dpr := effective_dpr (world s) in
  let o := Blink.main_opacity (now (world s))
                              (Blink.lastActivityTime (ext s)) in
  exists c',
    ctx (base s') = Some c'
    /\ calls c'
       = calls c
         ++ [ClearRect 0 0 (inject_Z (width cv) / dpr)
                       (inject_Z (height cv) / dpr)]
         ++ map (ghost_call color) (rev (Blink.ghosts (ext s')))
         ++ (if JS.gtb o 0
             then [FillRect o color (currentX (base s')) (currentY (base s'))
                            4 (JS.or_else (currentHeight (base s)) 20)]
             else [])
    /\ fillStyle c' = color
    /\ transform c' = transform c.
Proof.
  intros s' color dpr o. subst s'. unfold step. rewrite Hraf.
  exact (blink_loop_calls (on_world (w_set_raf_pending rest) s) cv c
           Hcv Hctx).
Qed.

Lemma blink_frame_paints_witness :
  exists c',
    ctx (base (step Frame Sample.blink_ready)) = Some c'
    /\ fillStyle c' = "#ff0000"%string.
Proof.
  assert (Hcv : canvas (base Sample.blink_ready)
                = Some (mkCanvas 0 Blink.BLINK_CLASS 800 600
                                 (Px 800) (Px 600)))
    by (vm_compute; reflexivity).
  assert (Hctx : ctx (base Sample.blink_ready)
                 = Some (mkCtx (mkTransform 1 0 0 1 0 0) 1 "#000000"%string
                               []))
    by (vm_compute; reflexivity).
  assert (Hraf : raf_pending (world Sample.blink_ready) = [1%Z])
    by (vm_compute; reflexivity).
  destruct (blink_frame_paints Sample.blink_ready _ _ _ _ Hcv Hctx Hraf)
    as (c' & H1 & _ & H3 & _).
  exists c'. split; [exact H1 | exact H3].
Defined.

(** ** Activity and the main caret *)

Lemma blink_render_activity (c : Ctx) (s : Sys Blink.State) :
  Blink.lastActivityTime (ext (Blink.render c s))
  = Blink.lastActivityTime (ext s)
  /\ Blink.config (ext (Blink.render c s)) = Blink.config (ext s).
Proof.
  unfold Blink.render. rewrite blink_render_draw_ext.
  unfold Blink.render_motion. destruct (JS.hypot_gtb _ _ _);
    split; reflexivity.
Qed.

Lemma blink_render_canvas (c : Ctx) (s : Sys Blink.State) :
  canvas (base (Blink.render c s)) = canvas (base s).
Proof. destruct (blink_render_base c s) as [c' ->]. reflexivity. Qed.

Lemma blink_config_constant (es : list Event) (s : Sys Blink.State) :
  Blink.config (ext (run es s)) = Blink.config (ext s).
Proof.
  apply (run_ext_invariant
           (fun st => Blink.config st = Blink.config (ext s)));
    [| reflexivity].
  apply (step_ext_invariant
           (fun st => Blink.config st = Blink.config (ext s))).
  - intros t H.
    change (Blink.config (ext (Blink.enable t)) = Blink.config (ext s)).
    rewrite <- H. unfold Blink.enable. cbv zeta.
    destruct (canvas (base (base_enable t))); simpl;
      rewrite base_enable_ext; reflexivity.
  - intros t H.
    change (Blink.config (ext (Blink.disable t)) = Blink.config (ext s)).
    rewrite <- H. unfold Blink.disable, on_ext, on_world.
    cbn [ext Blink.config Blink.set_ghosts].
    rewrite base_disable_ext. reflexivity.
  - intros dx dy t H. exact H.
  - intros u t H.
    change (Blink.config (ext (Blink.onViewUpdate u t))
            = Blink.config (ext s)).
    rewrite <- H. unfold Blink.onViewUpdate.
    destruct (docChanged u || selectionSet u); [| reflexivity].
    cbv zeta.
    destruct (initialized _); [| reflexivity].
    destruct (ctx _) as [c |].
    + exact (proj2 (blink_render_activity c _)).
    + unfold Blink.render_motion.
      destruct (JS.hypot_gtb _ _ _); reflexivity.
  - intros c t H.
    change (Blink.config (ext (Blink.render c t)) = Blink.config (ext s)).
    rewrite <- H. exact (proj2 (blink_render_activity c t)).
Qed.

Lemma base_enable_now {X : Type} (s : Sys X) :
  now (world (base_enable s)) = now (world s).
Proof.
  unfold base_enable. destruct (canvas (base s)); [reflexivity |].
  cbv zeta. unfold scheduleMeasure. cbn [on_base on_world base world].
  cbn [measurePending set_ctx set_canvas].
  destruct (measurePending (base s)); reflexivity.
Qed.

Lemma blink_enable_now (s : Sys Blink.State) :
  now (world (Blink.enable s)) = now (world s).
Proof.
  unfold Blink.enable. cbv zeta. cbn [on_ext world].
  rewrite <- (base_enable_now s).
  destruct (canvas (base (base_enable s))); reflexivity.
Qed.

(** An update that changes the document or the selection stamps the
    activity time with the current time. *)
Lemma blink_update_stamps (u : ViewUpdate) (s : Sys Blink.State) :
  Blink.enabled (Blink.config (ext s)) = true ->
  docChanged u || selectionSet u = true ->
  Blink.lastActivityTime (ext (step (Update u) s)) = now (world s)
  /\ now (world (step (Update u) s)) = now (world s).
Proof.
  intros Hen Hu. unfold step, update.
  change (@config_enabled Blink.State Blink.effect (ext s))
    with (Blink.enabled (Blink.config (ext s))).
  rewrite Hen.
  change (@enable Blink.State Blink.effect) with Blink.enable.
  change (@onViewUpdate Blink.State Blink.effect) with Blink.onViewUpdate.
  set (s1 := match canvas (base s) with
             | Some _ => s
             | None => Blink.enable s
             end).
  assert (Hnow1 : now (world s1) = now (world s)).
  { subst s1. destruct (canvas (base s)); [reflexivity |].
    apply blink_enable_now. }
  set (s2 := if geometryChanged u
             then on_base (set_needsResize true) s1 else s1).
  assert (Hnow2 : now (world s2) = now (world s)).
  { subst s2. destruct (geometryChanged u); exact Hnow1. }
  assert (H3 : Blink.lastActivityTime (ext (Blink.onViewUpdate u s2))
               = now (world s)
               /\ now (world (Blink.onViewUpdate u s2)) = now (world s)).
  { unfold Blink.onViewUpdate. rewrite Hu. cbv zeta.
    destruct (initialized _).
    - destruct (ctx _) as [c |].
      + destruct (blink_render_activity c
                    (on_ext (Blink.set_lastActivityTime (now (world s2)))
                            s2)) as [-> _].
        rewrite blink_render_world. simpl. auto.
      + unfold Blink.render_motion.
        destruct (JS.hypot_gtb _ _ _); simpl; auto.
    - simpl. auto. }
  destruct (docChanged u || selectionSet u || viewportChanged u
            || geometryChanged u || focusChanged u); [| exact H3].
  unfold scheduleMeasure.
  destruct (measurePending _); [exact H3 |]. simpl. exact H3.
Qed.

(** Events that are no activity leave the activity time and the canvas
    alone. *)
Lemma blink_quiet_step (e : Event) (s : Sys Blink.State) :
  quiet e = true ->
  Blink.lastActivityTime (ext (step e s)) = Blink.lastActivityTime (ext s)
  /\ (canvas (base s) <> None -> canvas (base (step e s)) <> None).
Proof.
  intro Hq. destruct e as [| t l | u | | t | d f r cp |];
    try discriminate Hq.
  - unfold step. destruct (raf_pending (world s)) as [| h rest];
      [split; auto |].
    unfold loop. cbn [on_world base].
    destruct (canvas (base s)) as [cv |] eqn:Hcv; [| split; auto].
    destruct (ctx (base s)) as [c |]; [| simpl; rewrite Hcv; split; auto].
    cbv zeta. cbn [on_base on_world base ext].
    change (@render Blink.State Blink.effect) with Blink.render.
    split.
    + match goal with
      | |- context [Blink.render ?c1 ?s1] =>
          exact (proj1 (blink_render_activity c1 s1))
      end.
    + intros _. cbn [canvas set_animationFrameId].
      rewrite blink_render_canvas. simpl. rewrite Hcv. discriminate.
  - unfold step. cbv zeta.
    destruct (scroll_listening _); [| split; auto].
    unfold onScroll. destruct (negb _); [split; auto |].
    split; [reflexivity | intro H; exact H].
  - unfold step. destruct (measure_requests (world s)) as [| n];
      [split; auto |].
    destruct (write_world_ext (read (needsResize (base s)) (world s))
                (on_world (w_set_measure_requests n) s)) as [_ ->].
    split; [reflexivity |]. intro H.
    apply life_canvas_some. rewrite life_write. simpl l_canvas.
    destruct (canvas (base s)); [discriminate | contradiction].
  - split; auto.
  - split; auto.
Qed.

Lemma blink_quiet_run (es : list Event) (s : Sys Blink.State) :
  forallb quiet es = true ->
  Blink.lastActivityTime (ext (run es s)) = Blink.lastActivityTime (ext s)
  /\ (canvas (base s) <> None -> canvas (base (run es s)) <> None).
Proof.
  revert s. induction es as [| e es IH]; intros s Hq; [split; auto |].
  simpl in Hq. apply andb_true_iff in Hq. destruct Hq as [He Hes].
  rewrite run_cons.
  destruct (blink_quiet_step e s He) as [Ht Hc].
  destruct (IH (step e s) Hes) as [Ht' Hc'].
  rewrite Ht', Ht. auto.
Qed.

(** X12: activity keeps the main caret solid.  After an update that
    changes the document or the selection on an enabled blink instance,
    and any events besides updates and the end of the instance, a frame
    that runs at most 500 ms later than that update draws the main caret
    as the last call of the frame, with opacity 0.6, in the configured
    colour, at the smoothed position: there is no blinking while the user
    types or moves the caret. *)
Theorem activity_keeps_caret_solid (w : World)
    (cfg : Blink.BlinkCursorConfig) (es : list Event) (u : ViewUpdate)
    (mid : list Event)
    (Hfresh : fresh_host w)
    (Hen : Blink.enabled cfg = true)
    (Hu : docChanged u || selectionSet u = true)
    (Hquiet : forallb quiet mid = true)
    (Ht : (now (world (run mid
                        (step (Update u)
                           (run es (construct w (Blink.initial cfg))))))
           - now (world (run es (construct w (Blink.initial cfg))))
           <= 500)%Z) :
  let s1 := run mid (step (Update u)
                       (run es (construct w (Blink.initial cfg)))) in
  exists c' pre,
    ctx (base (step Frame s1)) = Some c'
    /\ calls c'
       = pre ++ [FillRect (6 # 10) (Blink.color cfg)
                          (currentX (base (step Frame s1)))
                          (currentY (base (step Frame s1))) 4
                          (JS.or_else (currentHeight (base s1)) 20)].
Proof.
  intro s1.
  set (s0 := run es (construct w (Blink.initial cfg))) in *.
  assert (Hcfg0 : Blink.config (ext s0) = cfg).
  { subst s0. rewrite blink_config_constant. unfold construct.
    reflexivity. }
  assert (Hcfg1 : Blink.config (ext s1) = cfg).
  { subst s1. rewrite blink_config_constant.
    change (step (Update u) s0) with (run [Update u] s0).
    rewrite blink_config_constant. exact Hcfg0. }
  assert (Hen0 : Blink.enabled (Blink.config (ext s0)) = true)
    by (rewrite Hcfg0; exact Hen).
  destruct (blink_update_stamps u s0 Hen0 Hu) as [Hstamp _].
  assert (Hcv : canvas (base (step (Update u) s0)) <> None).
  { apply (update_canvas_iff u s0). exact Hen0. }
  destruct (blink_quiet_run mid (step (Update u) s0) Hquiet)
    as [Hla Hcv1].
  fold s1 in Hla, Hcv1, Ht. specialize (Hcv1 Hcv).
  rewrite Hstamp in Hla.
  assert (Hlife : lifecycle_ok (life s1)).
  { subst s1 s0.
    apply run_lifecycle. apply step_lifecycle.
    apply reachable_lifecycle. exact Hfresh. }
  pose proof (lifecycle_resources s1 Hlife) as Hres.
  destruct (canvas (base s1)) as [cv |] eqn:Ecv; [| contradiction].
  destruct Hres as (Hctx & _ & Hraf & _).
  destruct (ctx (base s1)) as [c |] eqn:Ectx; [| contradiction].
  unfold step at 1 2 3. rewrite Hraf.
  destruct (blink_loop_calls
              (on_world (w_set_raf_pending []) s1) cv c Ecv Ectx)
    as (c' & H1 & H2 & _).
  cbv zeta in H1, H2. cbn [on_world world ext base] in H2.
  rewrite Hla, Hcfg1 in H2.
  assert (Ho : Blink.main_opacity (now (world s1)) (now (world s0))
               = 6 # 10).
  { unfold Blink.main_opacity. cbv zeta.
    destruct (500 <? now (world s1) - now (world s0))%Z eqn:E;
      [| reflexivity].
    apply Z.ltb_lt in E. lia. }
  change (now (w_set_raf_pending [] (world s1))) with (now (world s1))
    in H2.
  rewrite Ho in H2. simpl JS.gtb in H2. cbv iota in H2.
  exists c'. eexists. split; [exact H1 |].
  rewrite H2. rewrite !app_assoc. reflexivity.
Qed.

Lemma activity_keeps_caret_solid_witness :
  let s1 := run [Clock 300; Measure]
              (step (Update (mkViewUpdate true false false false false))
                 (run [Measure]
                    (construct Sample.host
                       (Blink.initial (Blink.mkConfig true "#ff0000"))))) in
  exists c' pre,
    ctx (base (step Frame s1)) = Some c'
    /\ calls c'
       = pre ++ [FillRect (6 # 10)
                          (Blink.color (Blink.mkConfig true "#ff0000"))
                          (currentX (base (step Frame s1)))
                          (currentY (base (step Frame s1))) 4
                          (JS.or_else (currentHeight (base s1)) 20)].
Proof.
  assert (Hfresh : fresh_host Sample.host)
    by (vm_compute; repeat split; reflexivity).
  assert (Hen : Blink.enabled (Blink.mkConfig true "#ff0000") = true)
    by reflexivity.
  assert (Hu : docChanged (mkViewUpdate true false false false false)
               || selectionSet (mkViewUpdate true false false false false)
               = true) by reflexivity.
  assert (Hquiet : forallb quiet [Clock 300; Measure] = true)
    by reflexivity.
  assert (Ht : (now (world (run [Clock 300; Measure]
                        (step (Update (mkViewUpdate true false false false
                                                    false))
                           (run [Measure]
                              (construct Sample.host
                                 (Blink.initial
                                    (Blink.mkConfig true "#ff0000")))))))
           - now (world (run [Measure]
                           (construct Sample.host
                              (Blink.initial
                                 (Blink.mkConfig true "#ff0000")))))
           <= 500)%Z) by (vm_compute; discriminate).
  exact (activity_keeps_caret_solid Sample.host
           (Blink.mkConfig true "#ff0000") [Measure]
           (mkViewUpdate true false false false false)
           [Clock 300; Measure] Hfresh Hen Hu Hquiet Ht).
Defined.

(** ** Frames of the blink effect *)

(** A frame that runs is one [render]: the smoothing step, and the
    spawning and fading of [blink_render_spawn]. *)
Lemma blink_frame_motion (s : Sys Blink.State) (cv : Canvas) (c : Ctx)
    (handle : Z) (rest : list Z) :
  canvas (base s) = Some cv -> ctx (base s) = Some c ->
  raf_pending (world s) = handle :: rest ->
  let s' := step Frame s in
  let lx := Blink.lastX (ext s) in
  let ly := Blink.lastY (ext s) in
  let dx := currentX (base s') - lx in
  let dy := currentY (base s') - ly in
  let steps := JS.ceil_hypot dx dy in
  let h := JS.or_else (currentHeight (base s)) 20 in
  let kept := filter alive (map Blink.fade (Blink.ghosts (ext s))) in
  (currentX (base s')
   = Blink.lerp (currentX (base s)) (targetX (base s)) (25 # 100)
   /\ currentY (base s')
      = Blink.lerp (currentY (base s)) (targetY (base s)) (25 # 100)
   /\ targetX (base s') = targetX (base s)
   /\ targetY (base s') = targetY (base s))
  /\ ((1 < dx * dx + dy * dy
       /\ Blink.ghosts (ext s')
          = kept ++ map (fun j => Blink.fade (spawned lx ly dx dy h steps j))
                        (seq 0 (Z.to_nat steps))
       /\ Blink.lastX (ext s') = currentX (base s')
       /\ Blink.lastY (ext s') = currentY (base s'))
      \/ (dx * dx + dy * dy <= 1
          /\ Blink.ghosts (ext s') = kept
          /\ Blink.lastX (ext s') = lx
          /\ Blink.lastY (ext s') = ly)).
Proof.
  intros Hcv Hctx Hraf. cbv zeta. unfold step. rewrite Hraf.
  unfold loop. cbn [on_world base]. rewrite Hcv, Hctx.
  cbv zeta. cbn [on_base on_world base ext].
  change (@render Blink.State Blink.effect) with Blink.render.
  match goal with
  | |- context [Blink.render ?c1 ?s1] =>
      pose proof (blink_render_spawn c1 s1) as Hspawn;
      destruct (blink_render_base c1 s1) as [c' Hb];
      cbv zeta in Hspawn;
      cbn [ext base currentHeight set_ctx] in Hspawn;
      cbn [base currentX currentY targetX targetY set_ctx] in Hb
  end.
  cbn [currentX currentY targetX targetY set_animationFrameId].
  split; [| exact Hspawn].
  rewrite Hb. repeat split; reflexivity.
Qed.

(** The square is convex: a quarter of the way from [a] to [b]. *)
Lemma quarter_step_square (a b : Q) :
  (a + (b - a) * (25 # 100)) * (a + (b - a) * (25 # 100))
  <= (75 # 100) * (a * a) + (25 # 100) * (b * b).
Proof.
  pose proof (square_nonneg (a - b)) as H.
  assert (E : (75 # 100) * (a * a) + (25 # 100) * (b * b)
              - (a + (b - a) * (25 # 100)) * (a + (b - a) * (25 # 100))
              == (3 # 16) * ((a - b) * (a - b))) by ring.
  lra.
Qed.

(** A smoothing step between two points of the unit disc around the
    spawn point stays in the disc. *)
Lemma lerp_stays_near (cx cy tx ty lx ly : Q) :
  dist2 cx cy lx ly <= 1 -> dist2 tx ty lx ly <= 1 ->
  dist2 (Blink.lerp cx tx (25 # 100)) (Blink.lerp cy ty (25 # 100)) lx ly
  <= 1.
Proof.
  unfold dist2, Blink.lerp. intros Hc Ht.
  pose proof (quarter_step_square (cx - lx) (tx - lx)) as Hx.
  pose proof (quarter_step_square (cy - ly) (ty - ly)) as Hy.
  assert (Ex : cx + (tx - cx) * (25 # 100) - lx
               == (cx - lx) + ((tx - lx) - (cx - lx)) * (25 # 100)) by ring.
  assert (Ey : cy + (ty - cy) * (25 # 100) - ly
               == (cy - ly) + ((ty - ly) - (cy - ly)) * (25 # 100)) by ring.
  rewrite Ex, Ey. lra.
Qed.

(** One frame on an instance whose caret and target are near the spawn
    point: no ghost is spawned, the others fade, and all stays near. *)
Lemma blink_frame_near (s : Sys Blink.State) :
  lifecycle_ok (life s) -> canvas (base s) <> None -> near_spawn s ->
  let s' := step Frame s in
  lifecycle_ok (life s') /\ canvas (base s') <> None /\ near_spawn s'
  /\ Blink.ghosts (ext s')
     = filter alive (map Blink.fade (Blink.ghosts (ext s)))
  /\ Blink.lastX (ext s') = Blink.lastX (ext s)
  /\ Blink.lastY (ext s') = Blink.lastY (ext s).
Proof.
  intros Hlife Hcv [Hc Ht] s'.
  pose proof (lifecycle_resources s Hlife) as Hres.
  destruct (canvas (base s)) as [cv |] eqn:Ecv; [| contradiction].
  destruct Hres as (Hctx & _ & Hraf & _).
  destruct (ctx (base s)) as [c |] eqn:Ectx; [| contradiction].
  destruct (blink_frame_motion s cv c _ _ Ecv Ectx Hraf)
    as [(Hx & Hy & Htx & Hty) Hspawn].
  fold s' in Hx, Hy, Htx, Hty, Hspawn.
  pose proof (lerp_stays_near _ _ _ _ _ _ Hc Ht) as Hnear.
  rewrite <- Hx, <- Hy in Hnear. unfold dist2 in Hnear.
  assert (Hq : quiet Frame = true) by reflexivity.
  destruct (blink_quiet_step Frame s Hq) as [_ Hcv'].
  fold s' in Hcv'.
  split; [apply step_lifecycle; exact Hlife |].
  split; [apply Hcv'; rewrite Ecv; discriminate |].
  destruct Hspawn as [(Hfar & _) | (_ & Hg & Hlx & Hly)]; [lra |].
  split; [| auto].
  unfold near_spawn. rewrite Hlx, Hly, Htx, Hty.
  split; [exact Hnear | exact Ht].
Qed.

Lemma fade_all_bound (B : Q) (gs : list Blink.Ghost) :
  Forall (fun g => Blink.opacity g <= B) gs ->
  Forall (fun g => 0 < Blink.opacity g /\ Blink.opacity g <= B - (3 # 100))
         (filter alive (map Blink.fade gs)).
Proof.
  intro H. apply Forall_forall. intros g' Hin.
  apply filter_In in Hin. destruct Hin as [Hin Halive].
  apply in_map_iff in Hin. destruct Hin as (g & <- & Hg).
  rewrite Forall_forall in H. specialize (H g Hg).
  split; [apply alive_pos; exact Halive |].
  unfold Blink.fade. simpl. lra.
Qed.

Lemma filter_length_le {A : Type} (f : A -> bool) (l : list A) :
  (List.length (filter f l) <= List.length l)%nat.
Proof.
  induction l as [| a l IH]; simpl; [lia |].
  destruct (f a); simpl; lia.
Qed.

(** [n] frames near the spawn point: [n] fading steps and nothing else. *)
Lemma blink_frames_near (n : nat) (B : Q) (s : Sys Blink.State) :
  lifecycle_ok (life s) -> canvas (base s) <> None -> near_spawn s ->
  Forall (fun g => Blink.opacity g <= B) (Blink.ghosts (ext s)) ->
  let s' := run (repeat Frame n) s in
  near_spawn s'
  /\ Forall (fun g => Blink.opacity g <= B - inject_Z (Z.of_nat n) * (3 # 100))
            (Blink.ghosts (ext s'))
  /\ (n <> 0%nat ->
      Forall (fun g => 0 < Blink.opacity g) (Blink.ghosts (ext s')))
  /\ (List.length (Blink.ghosts (ext s'))
      <= List.length (Blink.ghosts (ext s)))%nat
  /\ Blink.lastX (ext s') = Blink.lastX (ext s)
  /\ Blink.lastY (ext s') = Blink.lastY (ext s).
Proof.
  revert B s. induction n as [| n IH]; intros B s Hlife Hcv Hnear HB s'.
  - subst s'. change (run (repeat Frame 0) s) with s.
    split; [exact Hnear |]. split.
    + eapply Forall_impl; [| exact HB]. intros g Hg. cbv beta in Hg.
      change (inject_Z (Z.of_nat 0)) with 0. lra.
    + split; [intro H; contradiction H; reflexivity |]. auto.
  - subst s'. change (repeat Frame (S n)) with (Frame :: repeat Frame n).
    rewrite run_cons.
    destruct (blink_frame_near s Hlife Hcv Hnear)
      as (Hlife' & Hcv' & Hnear' & Hg & Hlx & Hly).
    pose proof (fade_all_bound B _ HB) as Hfade. rewrite <- Hg in Hfade.
    assert (HB' : Forall (fun g => Blink.opacity g <= B - (3 # 100))
                         (Blink.ghosts (ext (step Frame s)))).
    { eapply Forall_impl; [| exact Hfade]. intros g [_ H]. exact H. }
    destruct (IH (B - (3 # 100)) (step Frame s) Hlife' Hcv' Hnear' HB')
      as (Hn & Hb & Hpos & Hlen & Hlx' & Hly').
    split; [exact Hn |]. split.
    { eapply Forall_impl; [| exact Hb]. intros g Hle. cbv beta in Hle.
      rewrite inject_nat_succ. lra. }
    split.
    { intros _. destruct n as [| n].
      - change (run (repeat Frame 0) (step Frame s)) with (step Frame s).
        eapply Forall_impl; [| exact Hfade]. intros g [H _]. exact H.
      - apply Hpos. discriminate. }
    split.
    { eapply Nat.le_trans; [exact Hlen |]. rewrite Hg.
      eapply Nat.le_trans; [apply filter_length_le |].
      rewrite length_map. lia. }
    rewrite Hlx', Hly', Hlx, Hly. auto.
Qed.

(** X13: movements of less than a pixel leave no ghosts.  On an enabled
    blink instance whose caret and target are both within 1 of the last
    spawn point, frames spawn no ghost and keep the spawn point, however
    the caret moves between the two; the ghost buffer only shrinks, and
    after fourteen frames it is empty and stays empty. *)
Theorem ghosts_drain_near_spawn_point (w : World)
    (cfg : Blink.BlinkCursorConfig) (es : list Event) (n : nat)
    (Hfresh : fresh_host w)
    (Hcv : canvas (base (run es (construct w (Blink.initial cfg)))) <> None)
    (Hnear : near_spawn (run es (construct w (Blink.initial cfg)))) :
  let s := run es (construct w (Blink.initial cfg)) in
  let s' := run (repeat Frame n) s in
  near_spawn s'
  /\ (List.length (Blink.ghosts (ext s'))
      <= List.length (Blink.ghosts (ext s)))%nat
  /\ Blink.lastX (ext s') = Blink.lastX (ext s)
  /\ Blink.lastY (ext s') = Blink.lastY (ext s)
  /\ ((14 <= n)%nat -> Blink.ghosts (ext s') = []).
Proof.
  intros s s'.
  assert (Hlife : lifecycle_ok (life s))
    by (apply reachable_lifecycle; exact Hfresh).
  assert (HB : Forall (fun g => Blink.opacity g <= 4 # 10)
                      (Blink.ghosts (ext s))).
  { assert (Hok : Forall ghost_ok (Blink.ghosts (ext s))).
    { subst s.
      apply (run_ext_invariant
               (fun st => Forall ghost_ok (Blink.ghosts st))).
      - apply blink_step_ok.
      - constructor. }
    eapply Forall_impl; [| exact Hok]. intros g [_ H]. exact H. }
  destruct (blink_frames_near n (4 # 10) s Hlife Hcv Hnear HB)
    as (Hn & Hb & Hpos & Hlen & Hlx & Hly).
  fold s' in Hn, Hb, Hpos, Hlen, Hlx, Hly.
  repeat split; try assumption; try apply Hn.
  intro H14.
  destruct (Blink.ghosts (ext s')) as [| g gs]; [reflexivity |].
  exfalso.
  assert (Hn0 : n <> 0%nat) by lia.
  pose proof (Forall_inv (Hpos Hn0)) as Hg0.
  pose proof (Forall_inv Hb) as Hg1. cbv beta in Hg0, Hg1.
  assert (H14q : 14 <= inject_Z (Z.of_nat n)).
  { change 14 with (inject_Z 14). rewrite <- Zle_Qle. lia. }
  lra.
Qed.

Lemma ghosts_drain_near_spawn_point_witness :
  let s := run [Measure; Frame]
             (construct Sample.host
                (Blink.initial (Blink.mkConfig true "#ff0000"))) in
  let s' := run (repeat Frame 14) s in
  near_spawn s'
  /\ (List.length (Blink.ghosts (ext s'))
      <= List.length (Blink.ghosts (ext s)))%nat
  /\ Blink.lastX (ext s') = Blink.lastX (ext s)
  /\ Blink.lastY (ext s') = Blink.lastY (ext s)
  /\ ((14 <= 14)%nat -> Blink.ghosts (ext s') = []).
Proof.
  assert (Hfresh : fresh_host Sample.host)
    by (vm_compute; repeat split; reflexivity).
  assert (Hcv : canvas (base (run [Measure; Frame]
                                (construct Sample.host
                                   (Blink.initial
                                      (Blink.mkConfig true "#ff0000")))))
                <> None) by (vm_compute; discriminate).
  assert (Hnear : near_spawn (run [Measure; Frame]
                                (construct Sample.host
                                   (Blink.initial
                                      (Blink.mkConfig true "#ff0000")))))
    by (split; vm_compute; discriminate).
  exact (ghosts_drain_near_spawn_point Sample.host
           (Blink.mkConfig true "#ff0000") [Measure; Frame] 14
           Hfresh Hcv Hnear).
Defined.

(** ** The first frame after the first sample *)

Lemma ceil_hypot_compat (dx dx' dy dy' : Q) :
  dx == dx' -> dy == dy' -> JS.ceil_hypot dx dy = JS.ceil_hypot dx' dy'.
Proof.
  intros Hx Hy. unfold JS.ceil_hypot. f_equal.
  apply Qceiling_comp. rewrite Hx, Hy. reflexivity.
Qed.

(** An instance constructed with the effect enabled: the subclass fields
    are the initial ones, nothing is sampled yet, and the host's view is
    as it was. *)
Lemma blink_construct_enabled (w : World) (cfg : Blink.BlinkCursorConfig) :
  Blink.enabled cfg = true ->
  let s := construct w (Blink.initial cfg) in
  ext s = Blink.initial cfg
  /\ canvas (base s) <> None
  /\ initialized (base s) = false
  /\ measurePending (base s) = true
  /\ view_hasFocus (world s) = view_hasFocus w
  /\ view_coords (world s) = view_coords w
  /\ view_rect (world s) = view_rect w.
Proof.
  intros Hen s. subst s. unfold construct.
  change (@config_enabled Blink.State Blink.effect (Blink.initial cfg))
    with (Blink.enabled cfg).
  rewrite Hen.
  change (@enable Blink.State Blink.effect) with Blink.enable.
  cbv zeta. cbn [ext]. split; [reflexivity |].
  unfold Blink.enable, base_enable, scheduleMeasure.
  cbn. repeat split; try reflexivity. discriminate.
Qed.

(** X14: the first frame after the first sample.  A blink instance
    constructed enabled has its spawn point at the canvas origin; the
    first sample snaps the caret to its place (X, Y) but leaves the spawn
    point.  So when the caret is more than 1 from the origin, the first
    frame afterwards spawns ceil(hypot(X, Y)) ghosts in a line from the
    origin to the caret, the j-th of them (from 1) at j/steps of the
    way, with the caret's height, and only then moves the spawn point to
    the caret. *)
Theorem first_frame_streaks_from_origin (w : World)
    (cfg : Blink.BlinkCursorConfig) (pos : CaretPos)
    (Hfresh : fresh_host w)
    (Hen : Blink.enabled cfg = true)
    (Hfocus : view_hasFocus w = true)
    (Hpos : view_coords w = Some pos)
    (Hfar : 1 < (pos_left pos - r_left (view_rect w))
                * (pos_left pos - r_left (view_rect w))
                + (pos_top pos - r_top (view_rect w))
                  * (pos_top pos - r_top (view_rect w))) :
  let X := pos_left pos - r_left (view_rect w) in
  let Y := pos_top pos - r_top (view_rect w) in
  let steps := JS.ceil_hypot X Y in
  let s1 := run [Measure] (construct w (Blink.initial cfg)) in
  let s2 := run [Measure; Frame] (construct w (Blink.initial cfg)) in
  (currentX (base s1) = X /\ currentY (base s1) = Y
   /\ Blink.lastX (ext s1) = 0 /\ Blink.lastY (ext s1) = 0
   /\ Blink.ghosts (ext s1) = [])
  /\ (2 <= steps)%Z
  /\ List.length (Blink.ghosts (ext s2)) = Z.to_nat steps
  /\ (forall (j : nat) (g : Blink.Ghost),
        nth_error (Blink.ghosts (ext s2)) j = Some g ->
        Blink.x g == inject_Z (Z.of_nat (S j)) * (X / inject_Z steps)
        /\ Blink.y g == inject_Z (Z.of_nat (S j)) * (Y / inject_Z steps)
        /\ Blink.height g
           = JS.or_else (pos_bottom pos - pos_top pos) 20
        /\ Blink.opacity g == 37 # 100)
  /\ Blink.lastX (ext s2) == X /\ Blink.lastY (ext s2) == Y.
Proof.
  intros X Y steps s1 s2.
  set (s0 := construct w (Blink.initial cfg)).
  destruct (blink_construct_enabled w cfg Hen)
    as (Hext & Hcv & Hini & Hpend & Hvf & Hvc & Hvr).
  fold s0 in Hext, Hcv, Hini, Hpend, Hvf, Hvc, Hvr.
  assert (Hlife0 : lifecycle_ok (life s0))
    by (apply construct_lifecycle; exact Hfresh).
  destruct (lifecycle_requests s0 Hlife0) as [Hreq _].
  rewrite Hpend in Hreq.
  (* the first sample *)
  assert (Es1 : s1 = write (mkMeasure (Some (view_rect w))
                              (Some (mkCoords X Y
                                       (pos_bottom pos - pos_top pos)))
                              true)
                           (on_world (w_set_measure_requests 0) s0)).
  { subst s1. fold s0. unfold run. cbn [fold_left]. unfold step.
    rewrite Hreq. f_equal. unfold read.
    rewrite Hvf, Hvc, Hvr, Hfocus, Hpos.
    rewrite orb_true_r. reflexivity. }
  pose proof (write_with_coords
                (on_world (w_set_measure_requests 0) s0)
                (Some (view_rect w)) true
                (mkCoords X Y (pos_bottom pos - pos_top pos))) as Hw.
  cbv zeta in Hw. rewrite <- Es1 in Hw.
  cbn [on_world base cx cy cheight] in Hw. rewrite Hini in Hw.
  destruct Hw as (Htx & Hty & Hh & _ & Hcx & Hcy & _).
  destruct (write_world_ext
              (mkMeasure (Some (view_rect w))
                 (Some (mkCoords X Y (pos_bottom pos - pos_top pos))) true)
              (on_world (w_set_measure_requests 0) s0)) as [_ Hext1].
  rewrite <- Es1 in Hext1. cbn [on_world ext] in Hext1.
  rewrite Hext in Hext1.
  assert (Hlife1 : lifecycle_ok (life s1)).
  { subst s1. apply run_lifecycle. exact Hlife0. }
  assert (Hq : forallb quiet [Measure] = true) by reflexivity.
  destruct (blink_quiet_run [Measure] s0 Hq) as [_ Hcv1].
  specialize (Hcv1 Hcv). fold s0 in s1. fold s1 in Hcv1.
  split.
  { rewrite Hext1. repeat split; assumption. }
  (* the frame *)
  pose proof (lifecycle_resources s1 Hlife1) as Hres.
  destruct (canvas (base s1)) as [cv |] eqn:Ecv; [| contradiction].
  destruct Hres as (Hctx & _ & Hraf & _).
  destruct (ctx (base s1)) as [c |] eqn:Ectx; [| contradiction].
  assert (Es2 : s2 = step Frame s1) by reflexivity.
  destruct (blink_frame_motion s1 cv c _ _ Ecv Ectx Hraf)
    as [(Hx2 & Hy2 & _) Hspawn].
  rewrite <- Es2 in Hx2, Hy2, Hspawn.
  rewrite Hext1, Hh in Hspawn. cbn [Blink.initial Blink.lastX Blink.lastY
                                      Blink.ghosts map filter app] in Hspawn.
  rewrite Hcx, Htx in Hx2. rewrite Hcy, Hty in Hy2.
  assert (Edx : currentX (base s2) - 0 == X).
  { rewrite Hx2. unfold Blink.lerp. ring. }
  assert (Edy : currentY (base s2) - 0 == Y).
  { rewrite Hy2. unfold Blink.lerp. ring. }
  assert (Esteps : JS.ceil_hypot (currentX (base s2) - 0)
                                 (currentY (base s2) - 0) = steps)
    by (apply ceil_hypot_compat; assumption).
  rewrite Esteps in Hspawn.
  assert (H2 : (2 <= steps)%Z) by exact (ceil_hypot_two X Y Hfar).
  pose proof (inject_Z_two steps H2) as Hn.
  destruct Hspawn as [(_ & Hg & Hlx & Hly) | (Hnear & _)].
  2: { rewrite Edx, Edy in Hnear. fold X Y in Hfar. lra. }
  split; [exact H2 |].
  split; [rewrite Hg, length_map, length_seq; reflexivity |].
  split.
  - intros j g Hj. rewrite Hg, nth_error_map, nth_error_seq in Hj.
    destruct (j <? Z.to_nat steps)%nat; [| discriminate].
    simpl in Hj. injection Hj as <-.
    destruct (spawned_position 0 0 (currentX (base s2) - 0)
                (currentY (base s2) - 0)
                (JS.or_else (pos_bottom pos - pos_top pos) 20) steps j Hn)
      as (Hpx & Hpy & Hph & Hpo).
    split.
    { change (Blink.x (Blink.fade ?g)) with (Blink.x g).
      rewrite Hpx, Edx. ring. }
    split.
    { change (Blink.y (Blink.fade ?g)) with (Blink.y g).
      rewrite Hpy, Edy. ring. }
    split; [exact Hph | exact Hpo].
  - rewrite Hlx, Hly, Hx2, Hy2. unfold Blink.lerp. split; ring.
Qed.

Lemma first_frame_streaks_from_origin_witness :
  let s1 := run [Measure]
              (construct Sample.host
                 (Blink.initial (Blink.mkConfig true "#ff0000"))) in
  currentX (base s1)
  = pos_left (mkCaretPos 100 50 70) - r_left (view_rect Sample.host)
  /\ currentY (base s1)
     = pos_top (mkCaretPos 100 50 70) - r_top (view_rect Sample.host)
  /\ Blink.lastX (ext s1) = 0 /\ Blink.lastY (ext s1) = 0
  /\ Blink.ghosts (ext s1) = [].
Proof.
  assert (Hfresh : fresh_host Sample.host)
    by (vm_compute; repeat split; reflexivity).
  assert (Hen : Blink.enabled (Blink.mkConfig true "#ff0000") = true)
    by reflexivity.
  assert (Hfocus : view_hasFocus Sample.host = true) by reflexivity.
  assert (Hpos : view_coords Sample.host = Some (mkCaretPos 100 50 70))
    by reflexivity.
  assert (Hfar : 1 < (pos_left (mkCaretPos 100 50 70)
                      - r_left (view_rect Sample.host))
                     * (pos_left (mkCaretPos 100 50 70)
                        - r_left (view_rect Sample.host))
                     + (pos_top (mkCaretPos 100 50 70)
                        - r_top (view_rect Sample.host))
                       * (pos_top (mkCaretPos 100 50 70)
                          - r_top (view_rect Sample.host)))
    by (vm_compute; reflexivity).
  exact (proj1 (first_frame_streaks_from_origin Sample.host
                  (Blink.mkConfig true "#ff0000") (mkCaretPos 100 50 70)
                  Hfresh Hen Hfocus Hpos Hfar)).
Defined.

(** In the sample editor the caret is at (100, 50): the first frame
    leaves 112 ghosts. *)
Example first_frame_leaves_112_ghosts :
  List.length (Blink.ghosts (ext (step Frame Sample.blink_ready)))
  = 112%nat.
Proof. vm_compute. reflexivity. Qed.

(** ** The stand-alone comet *)

Lemma write_motion {X : Type} (m : MeasureResult) (s : Sys X) :
  let b := base s in
  let b' := base (write m s) in
  hasFocus b' = m_hasFocus m
  /\ match m_coords m with
     | Some c =>
         targetX b' = cx c /\ targetY b' = cy c
         /\ currentHeight b' = cheight c /\ initialized b' = true
         /\ currentX b' = (if initialized b then currentX b else cx c)
         /\ currentY b' = (if initialized b then currentY b else cy c)
     | None =>
         targetX b' = targetX b /\ targetY b' = targetY b
         /\ currentHeight b' = currentHeight b
         /\ initialized b' = initialized b
         /\ currentX b' = currentX b /\ currentY b' = currentY b
     end.
Proof.
  intros b b'. subst b b'. destruct m as [r co f]. unfold write.
  cbn [m_rect m_coords m_hasFocus].
  destruct (write_prefix_shape r f s) as (cv & c0 & nr & ->).
  destruct co as [c |].
  - cbn. destruct (initialized (base s)) eqn:Ei; cbn; rewrite ?Ei;
      repeat split.
  - cbn. repeat split.
Qed.

(** X15: the stand-alone comet and the class-based comet with the
    default tail length 12 and smoothing factor 0.2 compute the same
    motion.  From equal motion states (flags, target, current, caret
    height and trail), the write phases of a measure request lead to
    equal motion states, and so do a frame of the one and a tick of the
    other while the editor has focus and the first sample has arrived.
    Without focus or before the first sample they differ: the
    stand-alone comet empties its trail and does not move, the
    class-based one runs its tick all the same. *)
Theorem legacy_comet_agrees_with_effect (l : LegacyComet.State)
    (t : Sys Comet.State) (c : Ctx)
    (Hsame : same_motion l t)
    (Hlen : Comet.tailLength (Comet.config (ext t)) = LegacyComet.tailLength)
    (Hk : Comet.smoothness (Comet.config (ext t)) = LegacyComet.smoothness) :
  (forall m : MeasureResult,
      same_motion (LegacyComet.write (m_hasFocus m) (m_coords m) l)
                  (write m t))
  /\ (LegacyComet.hasFocus l = true -> LegacyComet.initialized l = true ->
      same_motion (LegacyComet.loop l) (Comet.render c t))
  /\ (LegacyComet.hasFocus l = false \/ LegacyComet.initialized l = false ->
      LegacyComet.trail (LegacyComet.loop l) = []
      /\ LegacyComet.currentX (LegacyComet.loop l) = LegacyComet.currentX l
      /\ LegacyComet.currentY (LegacyComet.loop l) = LegacyComet.currentY l
      /\ currentX (base (Comet.render c t))
         = Comet.advance_axis LegacyComet.smoothness
             (LegacyComet.currentX l) (LegacyComet.targetX l)
      /\ currentY (base (Comet.render c t))
         = Comet.advance_axis LegacyComet.smoothness
             (LegacyComet.currentY l) (LegacyComet.targetY l)).
Proof.
  destruct Hsame as (Hi & Hf & Htx & Hty & Hcx & Hcy & Hh & Htr).
  split; [| split].
  - intro m. pose proof (write_motion m t) as Hw. cbv zeta in Hw.
    destruct Hw as [Hwf Hw].
    destruct (write_world_ext m t) as [_ Hext].
    unfold same_motion. rewrite Hext, Hwf.
    unfold LegacyComet.write.
    destruct (m_coords m) as [co |].
    + destruct Hw as (-> & -> & -> & -> & -> & ->).
      rewrite <- Hi.
      destruct (LegacyComet.initialized l); cbn; repeat split;
        assumption.
    + destruct Hw as (-> & -> & -> & -> & -> & ->).
      cbn. repeat split; assumption.
  - intros Hfocus Hinit. unfold same_motion.
    rewrite comet_render_base. unfold LegacyComet.loop.
    rewrite Hfocus, Hinit. cbn [negb orb].
    cbn [LegacyComet.initialized LegacyComet.hasFocus LegacyComet.targetX
         LegacyComet.targetY LegacyComet.currentX LegacyComet.currentY
         LegacyComet.currentHeight LegacyComet.trail
         initialized hasFocus targetX targetY currentX currentY
         currentHeight set_currentX set_currentY].
    rewrite Hk, <- Htx, <- Hty, <- Hcx, <- Hcy.
    unfold Comet.advance_axis, Comet.lerp, LegacyComet.lerp.
    rewrite <- Hi, <- Hf, Hfocus, Hinit.
    repeat split; try assumption.
    unfold Comet.render. cbv zeta.
    rewrite Hk, Hlen, <- Htx, <- Hty, <- Hcx, <- Hcy.
    unfold Comet.advance_axis, Comet.lerp.
    destruct (JS.hypot_gtb _ _ _);
      unfold on_ext, on_base; cbn [ext Comet.trail Comet.set_trail];
      rewrite <- ?Htr; reflexivity.
  - intro Hoff. rewrite comet_render_base, Hk, <- Htx, <- Hty, <- Hcx, <- Hcy.
    unfold LegacyComet.loop.
    assert (E : negb (LegacyComet.hasFocus l)
                || negb (LegacyComet.initialized l) = true).
    { destruct Hoff as [-> | ->]; [reflexivity | apply orb_true_r]. }
    rewrite E. cbn. repeat split.
Qed.

Lemma legacy_comet_agrees_with_effect_witness :
  same_motion
    (LegacyComet.write
       (m_hasFocus (read true (world Sample.comet)))
       (m_coords (read true (world Sample.comet)))
       LegacyComet.initial)
    (write (read true (world Sample.comet)) Sample.comet).
Proof.
  assert (Hsame : same_motion LegacyComet.initial Sample.comet)
    by (vm_compute; repeat split; reflexivity).
  assert (Hlen : Comet.tailLength (Comet.config (ext Sample.comet))
                 = LegacyComet.tailLength) by reflexivity.
  assert (Hk : Comet.smoothness (Comet.config (ext Sample.comet))
               = LegacyComet.smoothness) by reflexivity.
  exact (proj1 (legacy_comet_agrees_with_effect LegacyComet.initial
                  Sample.comet fresh_ctx Hsame Hlen Hk)
               (read true (world Sample.comet))).
Defined.

Lemma nat_le_12 (n : nat) :
  (n <= 12)%nat <-> inject_Z (Z.of_nat n) <= LegacyComet.tailLength.
Proof.
  unfold LegacyComet.tailLength. change 12 with (inject_Z 12).
  rewrite <- Zle_Qle. lia.
Qed.

Lemma push_bounded_last (maxLen : Q) (p d : Comet.Point)
    (t : list Comet.Point) :
  Comet.push_bounded maxLen p t = []
  \/ last (Comet.push_bounded maxLen p t) d = p.
Proof.
  unfold Comet.push_bounded. destruct (JS.gtb _ maxLen).
  - destruct t as [| a t]; [left; reflexivity |].
    right. simpl tl. apply last_last.
  - right. apply last_last.
Qed.

(** What holds of the stand-alone comet at any time. *)
Lemma legacy_step_ok (e : LegacyEvent) (s : LegacyComet.State) :
  ((List.length (LegacyComet.trail s) <= 12)%nat
   /\ (LegacyComet.initialized s = false ->
       LegacyComet.currentX s = 0 /\ LegacyComet.currentY s = 0
       /\ LegacyComet.trail s = [])
   /\ (forall d,
         LegacyComet.trail s = []
         \/ last (LegacyComet.trail s) d
            = Comet.mkPoint (LegacyComet.currentX s)
                            (LegacyComet.currentY s))) ->
  (List.length (LegacyComet.trail (legacy_step e s)) <= 12)%nat
  /\ (LegacyComet.initialized (legacy_step e s) = false ->
      LegacyComet.currentX (legacy_step e s) = 0
      /\ LegacyComet.currentY (legacy_step e s) = 0
      /\ LegacyComet.trail (legacy_step e s) = [])
  /\ (forall d,
        LegacyComet.trail (legacy_step e s) = []
        \/ last (LegacyComet.trail (legacy_step e s)) d
           = Comet.mkPoint (LegacyComet.currentX (legacy_step e s))
                           (LegacyComet.currentY (legacy_step e s))).
Proof.
  intros (Hlen & Hpre & Hlast). destruct e as [| focus coords].
  - unfold legacy_step, LegacyComet.loop.
    destruct (negb (LegacyComet.hasFocus s)
              || negb (LegacyComet.initialized s)) eqn:Eoff.
    + cbn. split; [lia |]. split; [| auto]. intro Hi.
      destruct (Hpre Hi) as (Hx & Hy & _). auto.
    + apply orb_false_iff in Eoff. destruct Eoff as [_ Ei].
      apply negb_false_iff in Ei.
      cbn [LegacyComet.trail LegacyComet.initialized LegacyComet.currentX
           LegacyComet.currentY].
      match goal with
      | |- context [JS.hypot_gtb ?a ?b ?r] => destruct (JS.hypot_gtb a b r)
      end.
      * split; [| split; [intro Hi; congruence |]].
        -- apply nat_le_12. apply push_bounded_length.
           apply nat_le_12. exact Hlen.
        -- intro d. apply push_bounded_last.
      * split; [simpl; lia |]. split; [intro Hi; congruence | auto].
  - unfold legacy_step, LegacyComet.write.
    destruct coords as [c |].
    + destruct (LegacyComet.initialized s) eqn:Ei; cbn.
      * split; [exact Hlen |]. split; [discriminate | exact Hlast].
      * split; [exact Hlen |]. split; [discriminate |].
        intro d. left. apply Hpre. reflexivity.
    + cbn. split; [exact Hlen |]. split; [exact Hpre | exact Hlast].
Qed.

(** X16: the stand-alone comet at any time.  In every state reached from
    the initial one by frames and measure writes, the trail has at most
    12 points; a trail that is not empty ends at the current position;
    and before the first sample the current position is the origin and
    the trail is empty. *)
Theorem legacy_comet_trail_bounded (es : list LegacyEvent) :
  let s := legacy_run es LegacyComet.initial in
  (List.length (LegacyComet.trail s) <= 12)%nat
  /\ (LegacyComet.initialized s = false ->
      LegacyComet.currentX s = 0 /\ LegacyComet.currentY s = 0
      /\ LegacyComet.trail s = [])
  /\ (forall d,
        LegacyComet.trail s = []
        \/ last (LegacyComet.trail s) d
           = Comet.mkPoint (LegacyComet.currentX s)
                           (LegacyComet.currentY s)).
Proof.
  cbv zeta. induction es as [| e es IH] using rev_ind.
  - cbn. split; [lia |]. split; auto.
  - unfold legacy_run. rewrite fold_left_app. cbn [fold_left].
    apply legacy_step_ok. exact IH.
Qed.

(** A glide of the stand-alone comet: the target is 10 away and twenty
    frames run; the trail holds 12 points. *)
Example legacy_comet_glide :
  let s := legacy_run
             (LegacyWrite true (Some (mkCoords 100 50 20))
              :: LegacyWrite true (Some (mkCoords 200 50 20))
              :: repeat LegacyFrame 20)
             LegacyComet.initial in
  List.length (LegacyComet.trail s) = 12%nat
  /\ LegacyComet.initialized s = true.
Proof. vm_compute. split; reflexivity. Qed.

(** ** The settings tab *)

(** X17: the settings tab and its effect selection.  [display] completes
    exactly when the settings have both effect sections; on the settings
    loaded without saved data it throws after the first toggle, before
    the dropdown exists.  With both sections there, choosing an option of
    the dropdown completes, enables at most one effect and keeps the
    colours and the transform flag, and the tab shown afterwards has the
    dropdown on the chosen option and exactly the colour picker of the
    chosen effect (none for "none"; any other value acts as "none").
    Choosing again what the dropdown shows changes nothing, unless both
    effects were enabled before: then the dropdown shows "comet" while
    both colour pickers are on the tab. *)
Theorem effect_selection_round_trip (val : string)
    (st : SettingTab.Settings) :
  ((exists cs, SettingTab.display st = SettingTab.Completed cs)
   <-> SettingTab.comet st <> None /\ SettingTab.blink st <> None)
  /\ SettingTab.display (Main.loadSettings None)
     = SettingTab.Thrown
         [SettingTab.Toggle "Slightly more smoothly" true]
  /\ (forall d : Main.SavedData,
        (exists cs, SettingTab.display (Main.loadSettings (Some d))
                    = SettingTab.Completed cs)
        <-> Main.d_comet d <> None /\ Main.d_blink d <> None)
  /\ (forall cm bl : SettingTab.EffectSettings,
        SettingTab.comet st = Some cm -> SettingTab.blink st = Some bl ->
        let st' :=
          SettingTab.mkSettings
            (SettingTab.useTransform st)
            (Some (SettingTab.mkEffect (String.eqb val "comet")
                                       (SettingTab.color cm)))
            (Some (SettingTab.mkEffect (String.eqb val "blink")
                                       (SettingTab.color bl))) in
        let head cur :=
          [SettingTab.Toggle "Slightly more smoothly"
                             (SettingTab.useTransform st);
           SettingTab.Dropdown "Cursor Effect"
                               ["none"; "comet"; "blink"]%string cur] in
        let comet_picker :=
          SettingTab.ColorPicker "Comet Color" (SettingTab.color cm) in
        let blink_picker :=
          SettingTab.ColorPicker "Blink Cursor Color"
                                 (SettingTab.color bl) in
        SettingTab.onEffectChange val st = SettingTab.Completed st'
        /\ String.eqb val "comet" && String.eqb val "blink" = false
        /\ (In val ["none"; "comet"; "blink"]%string ->
            SettingTab.currentEffect st' = Some val)
        /\ (~ In val ["comet"; "blink"]%string ->
            SettingTab.currentEffect st' = Some "none"%string)
        /\ SettingTab.display st'
           = SettingTab.Completed
               (if String.eqb val "comet"
                then head "comet"%string ++ [comet_picker]
                else if String.eqb val "blink"
                then head "blink"%string ++ [blink_picker]
                else head "none"%string)
        /\ (SettingTab.enabled cm && SettingTab.enabled bl = false ->
            exists cur,
              SettingTab.currentEffect st = Some cur
              /\ SettingTab.onEffectChange cur st
                 = SettingTab.Completed st)
        /\ (SettingTab.enabled cm && SettingTab.enabled bl = true ->
            SettingTab.display st
            = SettingTab.Completed
                (head "comet"%string ++ [comet_picker; blink_picker])
            /\ SettingTab.onEffectChange "comet" st
               <> SettingTab.Completed st)).
Proof.
  assert (Hiff : forall t : SettingTab.Settings,
    (exists cs, SettingTab.display t = SettingTab.Completed cs)
    <-> SettingTab.comet t <> None /\ SettingTab.blink t <> None).
  { intros [ut [[ec cc] |] [[eb cb] |]];
      unfold SettingTab.display, SettingTab.currentEffect;
      cbn [SettingTab.comet SettingTab.blink SettingTab.enabled
           SettingTab.useTransform SettingTab.color].
    - split; [intros _; split; discriminate |].
      intros _. destruct ec; eexists; reflexivity.
    - split.
      + intros [cs H]. destruct ec; discriminate H.
      + intros [_ H]. contradiction H. reflexivity.
    - split.
      + intros [cs H]. discriminate H.
      + intros [H _]. contradiction H. reflexivity.
    - split.
      + intros [cs H]. discriminate H.
      + intros [H _]. contradiction H. reflexivity. }
  split; [apply Hiff |]. split; [reflexivity |].
  split; [intro d; apply (Hiff (Main.loadSettings (Some d))) |].
  intros cm bl Hc Hb. destruct st as [ut oc ob].
  cbn [SettingTab.comet SettingTab.blink SettingTab.useTransform] in *.
  subst oc ob. destruct cm as [ec cc]. destruct bl as [eb cb].
  cbv zeta.
  unfold SettingTab.onEffectChange, SettingTab.display,
    SettingTab.currentEffect.
  cbn [SettingTab.comet SettingTab.blink SettingTab.enabled
       SettingTab.useTransform SettingTab.color].
  split; [reflexivity |].
  split.
  { destruct (String.eqb val "comet") eqn:E1; [| reflexivity].
    apply String.eqb_eq in E1. subst val. reflexivity. }
  split.
  { intros [<- | [<- | [<- | []]]]; reflexivity. }
  split.
  { intro Hnot.
    assert (E1 : String.eqb val "comet" = false).
    { apply String.eqb_neq. intro E. apply Hnot. left. symmetry. exact E. }
    assert (E2 : String.eqb val "blink" = false).
    { apply String.eqb_neq. intro E. apply Hnot. right. left.
      symmetry. exact E. }
    rewrite E1, E2. reflexivity. }
  split.
  { destruct (String.eqb val "comet") eqn:E1.
    - apply String.eqb_eq in E1. subst val. reflexivity.
    - destruct (String.eqb val "blink"); reflexivity. }
  split.
  - intro H. destruct ec, eb; try discriminate H;
      eexists; (split; [reflexivity | reflexivity]).
  - intro H. apply andb_true_iff in H. destruct H as [-> ->].
    split; [reflexivity | discriminate].
Qed.

(** Saved data with both sections, the comet enabled: the tab shows the
    dropdown on "comet" and the comet's colour picker; choosing "blink"
    leaves the blink's picker instead. *)
Example settings_tab_scenario :
  let st := Main.loadSettings
              (Some (Main.mkData None
                       (Some (SettingTab.mkEffect true "#00e5ff"))
                       (Some (SettingTab.mkEffect false "#ff0000")))) in
  SettingTab.display st
  = SettingTab.Completed
      [SettingTab.Toggle "Slightly more smoothly" true;
       SettingTab.Dropdown "Cursor Effect"
                           ["none"; "comet"; "blink"]%string "comet";
       SettingTab.ColorPicker "Comet Color" "#00e5ff"]
  /\ exists st',
       SettingTab.onEffectChange "blink" st = SettingTab.Completed st'
       /\ SettingTab.display st'
          = SettingTab.Completed
              [SettingTab.Toggle "Slightly more smoothly" true;
               SettingTab.Dropdown "Cursor Effect"
                                   ["none"; "comet"; "blink"]%string
                                   "blink";
               SettingTab.ColorPicker "Blink Cursor Color" "#ff0000"].
Proof.
  split; [reflexivity |]. eexists. split; reflexivity.
Qed.

(** ** Patching the cursor layer *)

(** The patch state at any time: patched means exactly one patch and no
    handler. *)
Lemma main_step_ok (e : Main.Event) (s : Main.State) :
  ((Main.alreadyPatched s = true ->
    Main.patches s = 1%nat /\ Main.tryPatchRef s = false
    /\ Main.cursorPlugin s <> None)
   /\ (Main.alreadyPatched s = false ->
       Main.patches s = 0%nat /\ Main.cursorPlugin s = None)) ->
  (Main.alreadyPatched (Main.step e s) = true ->
   Main.patches (Main.step e s) = 1%nat
   /\ Main.tryPatchRef (Main.step e s) = false
   /\ Main.cursorPlugin (Main.step e s) <> None)
  /\ (Main.alreadyPatched (Main.step e s) = false ->
      Main.patches (Main.step e s) = 0%nat
      /\ Main.cursorPlugin (Main.step e s) = None).
Proof.
  destruct s as [ap ref cp n k]. cbn. intros [Hp Hn].
  destruct e as [[p |] |]; cbn; destruct ap, ref; cbn;
    try (destruct (Hp eq_refl) as (H1 & H2 & H3));
    try (destruct (Hn eq_refl) as (H1 & H2));
    try discriminate; subst;
    (split; intro H; try discriminate H; repeat split; auto;
     discriminate).
Qed.

Lemma main_run_snoc (es : list Main.Event) (e : Main.Event)
    (s : Main.State) :
  Main.run (es ++ [e]) s = Main.step e (Main.run es s).
Proof. unfold Main.run. rewrite fold_left_app. reflexivity. Qed.

(** Without a handler nothing happens any more, apart from nothing. *)
Lemma main_detached (es : list Main.Event) (s : Main.State) :
  Main.tryPatchRef s = false -> Main.run es s = s.
Proof.
  intro H. induction es as [| e es IH] using rev_ind; [reflexivity |].
  rewrite main_run_snoc, IH. destruct e as [hook |]; cbn.
  - rewrite H. reflexivity.
  - unfold Main.onunload, Main.cancelPatchAttempt. rewrite H. reflexivity.
Qed.

Lemma main_failed_attempts (es : list Main.Event) (s : Main.State) :
  Main.alreadyPatched s = false -> forallb failed_attempt es = true ->
  Main.run es s = s.
Proof.
  intros Hs H. induction es as [| e es IH] using rev_ind; [reflexivity |].
  rewrite forallb_app in H. apply andb_true_iff in H.
  destruct H as [Hes He]. rewrite main_run_snoc, (IH Hes).
  destruct e as [[p |] |]; try discriminate He.
  cbn. destruct (Main.tryPatchRef s); [| reflexivity].
  unfold Main.tryPatch. rewrite Hs. reflexivity.
Qed.

(** X18: the cursor layer is patched at most once.  In every state
    reached after [onload], the patch has been installed once if
    [alreadyPatched] is set and never otherwise, and once it is set the
    handler is detached.  When there is no active editor at load time,
    the first selection change on which the hook succeeds installs the
    patch and detaches the handler, and nothing changes afterwards.
    When there is an active editor and the hook fails on it, no handler
    is registered, so the patch is never attempted again. *)
Theorem patch_applied_at_most_once (active : option (option nat))
    (es : list Main.Event) :
  let s := Main.run es (Main.onload active) in
  (Main.patches s <= 1)%nat
  /\ (Main.alreadyPatched s = true <-> Main.patches s = 1%nat)
  /\ (Main.alreadyPatched s = true -> Main.tryPatchRef s = false)
  /\ (forall (pre post : list Main.Event) (p : nat),
        active = None ->
        es = pre ++ Main.SelectionChange (Some p) :: post ->
        forallb failed_attempt pre = true ->
        s = Main.mkState true false (Some p) 1 1)
  /\ (active = Some None -> s = Main.mkState false false None 0 0).
Proof.
  intro s.
  assert (Hinv :
    (Main.alreadyPatched s = true ->
     Main.patches s = 1%nat /\ Main.tryPatchRef s = false
     /\ Main.cursorPlugin s <> None)
    /\ (Main.alreadyPatched s = false ->
        Main.patches s = 0%nat /\ Main.cursorPlugin s = None)).
  { subst s. induction es as [| e es IH] using rev_ind.
    - destruct active as [[p |] |]; cbn;
        (split; intro H; try discriminate H; repeat split; auto;
         discriminate).
    - rewrite main_run_snoc. apply main_step_ok. exact IH. }
  destruct Hinv as [Hp Hn].
  split.
  { destruct (Main.alreadyPatched s) eqn:E.
    - destruct (Hp eq_refl) as [-> _]. lia.
    - destruct (Hn eq_refl) as [-> _]. lia. }
  split.
  { split.
    - intro H. apply Hp. exact H.
    - intro H. destruct (Main.alreadyPatched s) eqn:E; [reflexivity |].
      destruct (Hn eq_refl) as [H0 _]. rewrite H0 in H. discriminate. }
  split; [intro H; apply Hp; exact H |].
  split.
  - intros pre post p -> -> Hpre. subst s.
    unfold Main.run. rewrite fold_left_app.
    fold (Main.run pre (Main.onload None)).
    rewrite (main_failed_attempts pre (Main.onload None) eq_refl Hpre).
    cbn [fold_left].
    fold (Main.run post
            (Main.step (Main.SelectionChange (Some p)) (Main.onload None))).
    apply main_detached. reflexivity.
  - intros ->. subst s. apply main_detached. reflexivity.
Qed.

(** ** What the comet draws *)

Lemma trail_loop_closed (n i : nat) (color : string) (width : Q)
    (trail : list Comet.Point) :
  (i + n < List.length trail)%nat ->
  forall k : nat,
    nth_error (CometDraw.trail_loop n i color width trail) k
    = if (k <? n)%nat
      then match nth_error trail (i + k), nth_error trail (S (i + k)) with
           | Some p1, Some p2 =>
               Some (CometDraw.mkStroke
                       (Comet.x p1) (Comet.y p1) (Comet.x p2) (Comet.y p2)
                       (width
                        + inject_Z (Z.of_nat (i + k))
                          / inject_Z (Z.of_nat (List.length trail)) * 2)
                       color
                       (inject_Z (Z.of_nat (i + k))
                        / inject_Z (Z.of_nat (List.length trail))))
           | _, _ => None
           end
      else None.
Proof.
  revert i. induction n as [| n IH]; intros i Hlen k.
  - simpl. destruct k; reflexivity.
  - cbn [CometDraw.trail_loop].
    destruct (nth_error trail i) as [p1 |] eqn:E1.
    2: { apply nth_error_None in E1. lia. }
    destruct (nth_error trail (S i)) as [p2 |] eqn:E2.
    2: { apply nth_error_None in E2. lia. }
    destruct k as [| k].
    + rewrite Nat.add_0_r, E1, E2. reflexivity.
    + match goal with
      | |- nth_error (?a :: ?l) (S k) = _ =>
          change (nth_error (a :: l) (S k)) with (nth_error l k)
      end.
      rewrite IH by lia.
      replace (S i + k)%nat with (i + S k)%nat by lia.
      reflexivity.
Qed.

Lemma trail_loop_length (n i : nat) (color : string) (width : Q)
    (trail : list Comet.Point) :
  (i + n < List.length trail)%nat ->
  List.length (CometDraw.trail_loop n i color width trail) = n.
Proof.
  revert i. induction n as [| n IH]; intros i Hlen; [reflexivity |].
  cbn [CometDraw.trail_loop].
  destruct (nth_error trail i) as [p1 |] eqn:E1.
  2: { apply nth_error_None in E1. lia. }
  destruct (nth_error trail (S i)) as [p2 |] eqn:E2.
  2: { apply nth_error_None in E2. lia. }
  simpl. rewrite IH by lia. reflexivity.
Qed.


Lemma drawTrail_nth (color : string) (width : Q)
    (trail : list Comet.Point) (k : nat) (st : CometDraw.Stroke) :
  nth_error (CometDraw.drawTrail color width trail) k = Some st ->
  (k < List.length trail - 1)%nat
  /\ exists p1 p2,
       nth_error trail k = Some p1 /\ nth_error trail (S k) = Some p2
       /\ st = CometDraw.mkStroke
                 (Comet.x p1) (Comet.y p1) (Comet.x p2) (Comet.y p2)
                 (width
                  + inject_Z (Z.of_nat k)
                    / inject_Z (Z.of_nat (List.length trail)) * 2)
                 color
                 (inject_Z (Z.of_nat k)
                  / inject_Z (Z.of_nat (List.length trail))).
Proof.
  unfold CometDraw.drawTrail.
  destruct (List.length trail <? 2)%nat eqn:E.
  - destruct k; discriminate.
  - apply Nat.ltb_ge in E.
    rewrite trail_loop_closed by lia.
    destruct (k <? List.length trail - 1)%nat eqn:Ek; [| discriminate].
    apply Nat.ltb_lt in Ek. simpl Nat.add.
    destruct (nth_error trail k) as [p1 |]; [| discriminate].
    destruct (nth_error trail (S k)) as [p2 |]; [| discriminate].
    intro H. injection H as <-.
    split; [exact Ek |]. exists p1, p2. auto.
Qed.

Lemma drawTrail_length (color : string) (width : Q)
    (trail : list Comet.Point) :
  List.length (CometDraw.drawTrail color width trail)
  = (List.length trail - 1)%nat.
Proof.
  unfold CometDraw.drawTrail.
  destruct (List.length trail <? 2)%nat eqn:E.
  - apply Nat.ltb_lt in E. simpl. lia.
  - apply Nat.ltb_ge in E. apply trail_loop_length. lia.
Qed.


Lemma nth_error_last {A : Type} (l : list A) (d a : A) :
  nth_error l (List.length l - 1) = Some a -> last l d = a.
Proof.
  induction l as [| b l IH]; [discriminate |].
  destruct l as [| b' l].
  - simpl. intro H. injection H as ->. reflexivity.
  - intro H. change (last (b :: b' :: l) d) with (last (b' :: l) d).
    apply IH. simpl List.length in *.
    replace (S (S (List.length l)) - 1)%nat
      with (S (S (List.length l) - 1))%nat in H by lia.
    exact H.
Qed.

(** While moving, a trail that is not empty after the tick ends at the
    caret. *)
Lemma comet_render_trail_last (c : Ctx) (s : Sys Comet.State)
    (d : Comet.Point) :
  JS.hypot_gtb (targetX (base (Comet.render c s))
                - currentX (base (Comet.render c s)))
               (targetY (base (Comet.render c s))
                - currentY (base (Comet.render c s))) (2 # 10) = true ->
  Comet.trail (ext (Comet.render c s)) = []
  \/ last (Comet.trail (ext (Comet.render c s))) d
     = Comet.mkPoint (currentX (base (Comet.render c s)))
                     (currentY (base (Comet.render c s))).
Proof.
  rewrite comet_render_base.
  cbn [targetX targetY currentX currentY set_currentX set_currentY].
  intro Hmove. unfold Comet.render. cbv zeta. rewrite Hmove.
  unfold on_ext, on_base. cbn [ext Comet.trail Comet.set_trail].
  apply push_bounded_last.
Qed.

(** X20: what a comet tick leaves on the canvas.  When the caret is still
    more than 0.2 from its target after the smoothing step, the tick
    strokes the trail it has just extended, one stroke less than the
    trail has points, and the last stroke ends at the caret; the head is
    drawn with a glow of 10.  Otherwise no stroke is drawn and the head
    has no glow.  In both cases the head's rectangle starts 1 left of the
    current position. *)
Theorem comet_tick_draws (c : Ctx) (s : Sys Comet.State) :
  let s' := Comet.render c s in
  let strokes := fst (CometDraw.drawn s') in
  let head := snd (CometDraw.drawn s') in
  ((2 # 10) * (2 # 10) < distance2 (base s')
   /\ List.length strokes = (List.length (Comet.trail (ext s')) - 1)%nat
   /\ (forall st : CometDraw.Stroke,
         nth_error strokes (List.length strokes - 1) = Some st ->
         CometDraw.to_x st = currentX (base s')
         /\ CometDraw.to_y st = currentY (base s'))
   /\ CometDraw.shadowBlur head = 10
   \/ distance2 (base s') <= (2 # 10) * (2 # 10)
      /\ strokes = [] /\ Comet.trail (ext s') = []
      /\ CometDraw.shadowBlur head = 0)
  /\ CometDraw.rect_x head = currentX (base s') - 1
  /\ CometDraw.rect_y head = currentY (base s').
Proof.
  intros s' strokes head. split; [| split; reflexivity].
  subst strokes head. unfold CometDraw.drawn. cbv zeta.
  cbn [fst snd]. unfold distance2.
  destruct (JS.hypot_gtb (targetX (base s') - currentX (base s'))
                         (targetY (base s') - currentY (base s'))
                         (2 # 10)) eqn:Emove.
  - left. pose proof Emove as Hlt.
    apply hypot_gtb_spec in Hlt; [| lra].
    split; [exact Hlt |].
    split; [apply drawTrail_length |].
    split; [| reflexivity].
    intros st Hst. rewrite drawTrail_length in Hst.
    destruct (drawTrail_nth _ _ _ _ _ Hst) as (Hk & p1 & p2 & _ & H2 & ->).
    cbn [CometDraw.to_x CometDraw.to_y].
    replace (S (List.length (Comet.trail (ext s')) - 1 - 1))
      with (List.length (Comet.trail (ext s')) - 1)%nat in H2 by lia.
    apply (nth_error_last _ (Comet.mkPoint 0 0)) in H2.
    destruct (comet_render_trail_last c s (Comet.mkPoint 0 0) Emove)
      as [Hnil | Hlast].
    + fold s' in Hnil. rewrite Hnil in Hk. simpl in Hk. lia.
    + fold s' in Hlast. rewrite Hlast in H2. subst p2. split; reflexivity.
  - right.
    assert (Hnear : ~ (2 # 10) * (2 # 10)
                      < (targetX (base s') - currentX (base s'))
                        * (targetX (base s') - currentX (base s'))
                        + (targetY (base s') - currentY (base s'))
                          * (targetY (base s') - currentY (base s'))).
    { intro Hlt. apply hypot_gtb_spec in Hlt; [| lra]. congruence. }
    split; [lra |]. split; [reflexivity |]. split; [| reflexivity].
    subst s'. revert Emove. rewrite comet_render_base.
    cbn [targetX targetY currentX currentY set_currentX set_currentY].
    intro Emove. unfold Comet.render. cbv zeta. rewrite Emove.
    reflexivity.
Qed.
